(** * RAG news chatbot: orchestration and resilience core

    A shallow embedding of the server-side services of the repository
    (text chunking, embedding gateway, vector index, key-value client with
    in-process fallback, query pipeline) together with the properties the
    specification states about them.

    Conventions of the embedding.
    - JavaScript strings are Rocq [string]s: sequences of 8-bit units,
      standing for the UTF-16 code units that [charCodeAt] reads.  On ASCII
      text they are also the UTF-8 bytes that [Buffer.from] produces.  The
      hash of an id string is defined on lists of code units of any size.
    - Integers that the code keeps in JS numbers are [Z]; 32-bit wrap-around
      is written out where the code forces it.
    - Instants ([Date.now()], ISO-8601 time stamps) are [Z] milliseconds
      since the epoch; an ISO string is represented by the instant it
      denotes.
    - Floating point numbers are kept abstract behind the [Float] class.
      Where the code compares an integer with the product of an integer
      and a literal fraction, the comparison is that of binary64
      arithmetic.
    - A loop that the source does not bound is a [Fixpoint] on fuel that
      returns [None] when the fuel runs out.
    - Calls to remote services (Redis, Qdrant, Jina, Gemini) may throw; the
      outcome of each call is taken from the modelled remote state. *)

From Stdlib Require Import ZArith QArith Lia Bool Ascii String List.
From stdpp Require Import gmap strings list fin_maps pretty.

Open Scope Z_scope.

(* ===================================================================== *)
(** * JavaScript string primitives *)
(* ===================================================================== *)

Module Js.

Definition len (s : string) : Z := Z.of_nat (String.length s).

(** The double quote character, as a string. *)
Definition quote : string := String "034"%char EmptyString.

Fixpoint drop (n : nat) (s : string) : string :=
  match n, s with
  | O, _ => s
  | S _, EmptyString => EmptyString
  | S n', String _ r => drop n' r
  end.

Fixpoint take (n : nat) (s : string) : string :=
  match n, s with
  | O, _ => EmptyString
  | S _, EmptyString => EmptyString
  | S n', String c r => String c (take n' r)
  end.

(** Relative index resolution of [String.prototype.slice]. *)
Definition clampIndex (l i : Z) : Z :=
  if i <? 0 then Z.max (l + i) 0 else Z.min i l.

(** [s.slice(b, e)] *)
Definition slice (s : string) (b e : Z) : string :=
  let from := clampIndex (len s) b in
  let to := clampIndex (len s) e in
  take (Z.to_nat (to - from)) (drop (Z.to_nat from) s).

(** Characters matched by [\s] among the 8-bit units. *)
Definition isSpace (c : ascii) : bool :=
  let n := nat_of_ascii c in
  ((9 <=? n)%nat && (n <=? 13)%nat) || (n =? 32)%nat || (n =? 160)%nat.

Fixpoint trimStart (s : string) : string :=
  match s with
  | EmptyString => EmptyString
  | String c r => if isSpace c then trimStart r else s
  end.

(** Drops the trailing white space: a character is kept when it is not
    white space or when something is kept after it. *)
Fixpoint trimEnd (s : string) : string :=
  match s with
  | EmptyString => EmptyString
  | String c r =>
      match trimEnd r with
      | EmptyString => if isSpace c then EmptyString else String c EmptyString
      | r' => String c r'
      end
  end.

(** [s.trim()] *)
Definition trim (s : string) : string := trimEnd (trimStart s).

(** Scans the candidate positions [k, k-1, ..., 0]. *)
Fixpoint lastIndexFrom (pat s : string) (k : nat) : Z :=
  if String.prefix pat (drop k s) then Z.of_nat k
  else match k with
       | O => -1
       | S k' => lastIndexFrom pat s k'
       end.

(** [s.lastIndexOf(pat, pos)]; [pos = None] is the default [+Infinity]. *)
Definition lastIndexOf (pat s : string) (pos : option Z) : Z :=
  let l := String.length s in
  let m := String.length pat in
  if (l <? m)%nat then -1
  else
    let bound := (l - m)%nat in
    let k := match pos with
             | None => bound
             | Some p => Nat.min (Z.to_nat (Z.max p 0)) bound
             end in
    lastIndexFrom pat s k.

(** Scans the candidate positions from the left. *)
Fixpoint includes (pat s : string) : bool :=
  String.prefix pat s ||
  match s with
  | EmptyString => false
  | String _ r => includes pat r
  end.

Definition lowerChar (c : ascii) : ascii :=
  let n := nat_of_ascii c in
  if (65 <=? n)%nat && (n <=? 90)%nat then ascii_of_nat (n + 32) else c.

(** [s.toLowerCase()].  Only the letters A to Z are mapped; the other
    8-bit letters that JavaScript lowers stay outside ASCII either way and
    take no part in a match with an ASCII word. *)
Fixpoint toLowerCase (s : string) : string :=
  match s with
  | EmptyString => EmptyString
  | String c r => String (lowerChar c) (toLowerCase r)
  end.

(** [ToInt32]: reduction modulo 2^32 into the signed range. *)
Definition toInt32 (x : Z) : Z := (x + 2 ^ 31) mod 2 ^ 32 - 2 ^ 31.

(** [s.charCodeAt(i)] for the positions of [s] in turn. *)
Definition charCodes (s : string) : list Z :=
  map (fun c => Z.of_nat (nat_of_ascii c)) (list_ascii_of_string s).

(** ** Products of an integer with a binary64 constant *)

(** Rounding to binary64 of a non-negative number [p / 2^k], on its
    numerator: the nearest integer with at most 53 significant bits, the
    even one on a tie.  (The numbers met here stay within the normal
    range of binary64.) *)
Definition round53 (p : Z) : Z :=
  let s := Z.log2 p - 52 in
  if s <=? 0 then p
  else
    let q := Z.shiftr p s in
    let rest := p - Z.shiftl q s in
    let half := Z.shiftl 1 (s - 1) in
    if (half <? rest) || ((rest =? half) && Z.odd q)
    then Z.shiftl (q + 1) s
    else Z.shiftl q s.

(** The binary64 number that the literal [0.7] denotes is
    [sevenTenths / 2^53]. *)
Definition sevenTenths : Z := 6305039478318694.

(** [n * 0.7] for an integer [n] that binary64 holds exactly: the
    numerator of the product over [2^53]. *)
Definition timesSevenTenths (n : Z) : Z :=
  Z.sgn n * round53 (Z.abs n * sevenTenths).

End Js.

(* ===================================================================== *)
(** * Text chunker *)
(* ===================================================================== *)

Module Chunker.

Record Article := mkArticle {
  art_id : string;
  art_title : string;
  art_description : string;
  art_content : string;
}.

(** A chunk.  Only [createTextChunks] records the [start] and [end] of
    the window; they are [None] in the chunks of
    [createTextChunksWithOverlap]. *)
Record Chunk := mkChunk {
  chunk_id : string;
  chunk_text : string;
  chunk_index : nat;
  chunk_start : option Z;
  chunk_end : option Z;
}.

Definition nl : string := String "010"%char EmptyString.

(** [`${article.id}_chunk_${chunkIndex}`] *)
Definition chunkIdOf (articleId : string) (chunkIndex : nat) : string :=
  articleId +:+ "_chunk_" +:+ pretty chunkIndex.

(** ** [createTextChunksWithOverlap] (scripts/ingestUniqueArticles.js) *)

(** [lastSentenceEnd > chunkSize * 0.7], the product being the binary64
    number JavaScript computes: [90 * 0.7] is just below 63, [500 * 0.7]
    is 350. *)
Definition above70 (lastSentenceEnd chunkSize : Z) : bool :=
  Js.timesSevenTenths chunkSize <? lastSentenceEnd * 2 ^ 53.

Definition breakPoint (text : string) (chunkSize start : Z) : Z :=
  let end_ := Z.min (start + chunkSize) (Js.len text) in
  let chunkText := Js.slice text start end_ in
  if end_ <? Js.len text then
    let lastSentenceEnd := Js.lastIndexOf ". " chunkText None in
    if above70 lastSentenceEnd chunkSize then start + lastSentenceEnd + 2
    else end_
  else end_.

(** The value assigned to [start] at the end of one iteration. *)
Definition nextStart (text : string) (chunkSize overlap start : Z) : Z :=
  Z.max (start + chunkSize - overlap) (breakPoint text chunkSize start).

Fixpoint overlapLoop (fuel : nat) (articleId text : string)
    (chunkSize overlap start : Z) (chunkIndex : nat) (chunks : list Chunk)
    : option (list Chunk) :=
  match fuel with
  | O => None
  | S fuel' =>
      if start <? Js.len text then
        let bp := breakPoint text chunkSize start in
        let chunks' :=
          chunks ++ [mkChunk (chunkIdOf articleId chunkIndex)
                             (Js.trim (Js.slice text start bp)) chunkIndex
                             None None] in
        let start' := nextStart text chunkSize overlap start in
        if Js.len text <=? start' then Some chunks'
        else overlapLoop fuel' articleId text chunkSize overlap start'
                         (S chunkIndex) chunks'
      else Some chunks
  end.

Definition createTextChunksWithOverlap (fuel : nat) (article : Article)
    (chunkSize overlap : Z) : option (list Chunk) :=
  let text := art_title article +:+ nl +:+ nl +:+ art_content article in
  if Js.len text <=? chunkSize then
    Some [mkChunk (chunkIdOf (art_id article) 0) text 0%nat None None]
  else overlapLoop fuel (art_id article) text chunkSize overlap 0 0%nat [].

(** ** [createTextChunks] (the early ingestion script) *)

Definition fullTextOf (article : Article) : string :=
  art_title article +:+ nl +:+ nl +:+ art_description article +:+ nl +:+ nl
    +:+ art_content article.

Definition chunkEndOf (fullText : string) (maxChunkSize start : Z) : Z :=
  let end_ := Z.min (start + maxChunkSize) (Js.len fullText) in
  if end_ <? Js.len fullText then
    let lastPeriod := Js.lastIndexOf "." fullText (Some end_) in
    let lastNewline := Js.lastIndexOf nl fullText (Some end_) in
    let boundary := Z.max lastPeriod lastNewline in
    (* boundary > start + maxChunkSize * 0.5; halving is exact in
       binary64 *)
    if 2 * start + maxChunkSize <? 2 * boundary then boundary + 1 else end_
  else end_.

Fixpoint chunkLoop (fuel : nat) (articleId fullText : string)
    (maxChunkSize overlap start : Z) (chunkIndex : nat) (chunks : list Chunk)
    : option (list Chunk) :=
  match fuel with
  | O => None
  | S fuel' =>
      if start <? Js.len fullText then
        let chunkEnd := chunkEndOf fullText maxChunkSize start in
        let chunkText := Js.trim (Js.slice fullText start chunkEnd) in
        let keep := 50 <? Js.len chunkText in
        let chunks' :=
          if keep
          then chunks ++ [mkChunk (chunkIdOf articleId chunkIndex) chunkText
                                  chunkIndex (Some start) (Some chunkEnd)]
          else chunks in
        let chunkIndex' := if keep then S chunkIndex else chunkIndex in
        let start' := chunkEnd - overlap in
        if chunkEnd <=? start' then Some chunks'
        else chunkLoop fuel' articleId fullText maxChunkSize overlap start'
                       chunkIndex' chunks'
      else Some chunks
  end.

Definition createTextChunks (fuel : nat) (article : Article)
    (maxChunkSize overlap : Z) : option (list Chunk) :=
  chunkLoop fuel (art_id article) (fullTextOf article) maxChunkSize overlap
            0 0%nat [].

(** The defaults of the two functions. *)
Definition defaultChunkSize : Z := 500.
Definition defaultOverlap : Z := 100.
Definition defaultMaxChunkSize : Z := 1000.
Definition defaultMaxOverlap : Z := 200.

Definition emptyArticle : Article := mkArticle "a1" "" "" "".

Definition shortArticle : Article := mkArticle "a1" "Title" "" "Short body.".

End Chunker.

(* ===================================================================== *)
(** * Exceptions and mutable state *)
(* ===================================================================== *)

(** The outcome of a call that may throw. *)
Inductive Result (A : Type) : Type :=
| Ok (a : A)
| Throw (message : string).
Arguments Ok {A} a.
Arguments Throw {A} message.

(** A computation over a mutable state [S]: mutations made before a throw
    stay in place, as in JavaScript. *)
Definition M (S A : Type) : Type := S -> Result A * S.

Definition ret {S A} (a : A) : M S A := fun s => (Ok a, s).
Definition throw {S A} (message : string) : M S A := fun s => (Throw message, s).
Definition bind {S A B} (m : M S A) (k : A -> M S B) : M S B :=
  fun s => match m s with
           | (Ok a, s') => k a s'
           | (Throw e, s') => (Throw e, s')
           end.
(** [try { m } catch (error) { h error.message }] *)
Definition tryCatch {S A} (m : M S A) (h : string -> M S A) : M S A :=
  fun s => match m s with
           | (Ok a, s') => (Ok a, s')
           | (Throw e, s') => h e s'
           end.
Definition get {S} : M S S := fun s => (Ok s, s).
Definition put {S} (s : S) : M S unit := fun _ => (Ok tt, s).
Definition modify {S} (f : S -> S) : M S unit := fun s => (Ok tt, f s).
Definition when {S} (b : bool) (m : M S unit) : M S unit :=
  if b then m else ret tt.

(** [await x := m in k] runs [m], binds its value and continues with [k];
    a throw in [m] skips [k]. *)
Notation "'await' x ':=' m 'in' k" := (bind m (fun x => k))
  (at level 10, x name, m at level 200, k at level 200).
Notation "'run' m 'in' k" := (bind m (fun _ => k))
  (at level 10, m at level 200, k at level 200).

Definition isOk {A} (r : Result A) : bool :=
  match r with Ok _ => true | Throw _ => false end.

(* ===================================================================== *)
(** * Floating point numbers *)
(* ===================================================================== *)

(** The operations on JS numbers that the services use on embeddings and
    scores.  Nothing is assumed about them: the results below hold for
    IEEE doubles (with NaN) as for any other implementation. *)
Class Float (F : Type) := {
  flit : Z -> positive -> F;   (* the literal n/d *)
  fadd : F -> F -> F;
  fsub : F -> F -> F;
  fmul : F -> F -> F;
  fdiv : F -> F -> F;
  fsqrt : F -> F;
  fltb : F -> F -> bool;   (* a < b *)
  fleb : F -> F -> bool;   (* a <= b *)
}.

Section FloatLiterals.
Context {F : Type} `{Float F}.
Definition fzero : F := flit 0 1.
Definition fone : F := flit 1 1.
Definition fhalf : F := flit 1 2.             (* 0.5 *)
Definition fhundredth : F := flit 1 100.      (* 0.01 *)
Definition ftenth : F := flit 1 10.           (* 0.1 *)
Definition fthreeTenths : F := flit 3 10.     (* 0.3 *)
End FloatLiterals.

(** ** JS array helpers *)

(** [a.slice(b, e)] *)
Definition sliceList {A} (a : list A) (b e : Z) : list A :=
  let l := Z.of_nat (length a) in
  let from := Js.clampIndex l b in
  let to := Js.clampIndex l e in
  take (Z.to_nat (to - from)) (drop (Z.to_nat from) a).

(** [a.splice(start)]: removes the elements from [start] to the end and
    leaves the rest in [a]. *)
Definition spliceFrom {A} (a : list A) (start : Z) : list A :=
  take (Z.to_nat (Js.clampIndex (Z.of_nat (length a)) start)) a.

(* ===================================================================== *)
(** * Embedding gateway (services/embeddingService.js) *)
(* ===================================================================== *)

Module EmbeddingService.
Section WithFloat.
Context {F : Type} `{Float F}.

Record t := mk {
  jinaApiKey : string;
}.

(** What [axios.post] to the embedding API yields: a thrown error, or a
    body whose [data] member may be missing. *)
Inductive JinaReply :=
| JinaError (message : string)
| JinaBody (data : option (list (list F))).

(** The remote API, as a function of the [input] array of the request. *)
Definition Jina := list string -> JinaReply.

(** [text.replace(/\s+/g, ' ')]; the flag tells whether the previous
    character was white space. *)
Fixpoint collapseSpaces (inSpaces : bool) (s : string) : string :=
  match s with
  | EmptyString => EmptyString
  | String c r =>
      if Js.isSpace c
      then if inSpaces then collapseSpaces true r
           else String " "%char (collapseSpaces true r)
      else String c (collapseSpaces false r)
  end.

Definition maxLength : Z := 8192.

Definition preprocessText (text : string) : string :=
  (* the second replace, of /\n+/g, finds nothing left to replace *)
  let cleaned := Js.trim (collapseSpaces false text) in
  if maxLength <? Js.len cleaned then
    let cut := Js.slice cleaned 0 maxLength in
    let lastSpace := Js.lastIndexOf " " cut None in
    (* lastSpace > maxLength * 0.9; the product is 7372.8 and a little
       more in binary64, and the test holds from 7373 on either way *)
    if 9 * maxLength <? 10 * lastSpace then Js.slice cut 0 lastSpace else cut
  else cleaned.

Definition defaultDimensions : nat := 768.

(** The histogram loop: [embedding[char % dimensions] += 1]. *)
Fixpoint histogram (dimensions : nat) (text : string) (embedding : list F)
    : list F :=
  match text with
  | EmptyString => embedding
  | String c r =>
      let index := (nat_of_ascii c mod dimensions)%nat in
      histogram dimensions r (alter (fun x => fadd x fone) index embedding)
  end.

(** [random i] is the value of the [i]-th call of [Math.random()]. *)
Definition generateFallbackEmbedding (random : nat -> F) (text : string)
    (dimensions : nat) : list F :=
  let embedding := histogram dimensions text (replicate dimensions fzero) in
  let magnitude :=
    fsqrt (fold_left (fun sum val => fadd sum (fmul val val)) embedding fzero) in
  let embedding :=
    if fltb fzero magnitude
    then map (fun x => fdiv x magnitude) embedding
    else embedding in
  imap (fun i x => fadd x (fmul (fsub (random i) fhalf) fhundredth)) embedding.

(** [callJinaAPI(texts)] *)
Definition callJinaAPI (svc : t) (jina : Jina) (texts : list string)
    : Result (option (list (list F))) :=
  if String.eqb (jinaApiKey svc) "" then Throw "Jina API key not configured"
  else match jina texts with
       | JinaError e => Throw e
       | JinaBody data => Ok data
       end.

Definition generateEmbedding (svc : t) (jina : Jina) (random : nat -> F)
    (text : string) : Result (list F) :=
  if String.eqb text "" then Throw "Text must be a non-empty string"
  else
    let cleanText := preprocessText text in
    if String.eqb (jinaApiKey svc) ""
    then Ok (generateFallbackEmbedding random cleanText defaultDimensions)
    else
      match callJinaAPI svc jina [cleanText] with
      | Ok (Some (first :: _)) => Ok first
      | Ok _ (* no data: the error thrown is caught just below *)
      | Throw _ =>
          Ok (generateFallbackEmbedding random cleanText defaultDimensions)
      end.

End WithFloat.
Arguments Jina F : clear implicits.
End EmbeddingService.

(** The remote services fail when their fault schedule says so: every
    call consumes the head of the schedule, and an exhausted schedule
    means no further fault. *)
Definition nextFault (faults : list bool) : bool * list bool :=
  match faults with
  | [] => (false, [])
  | f :: rest => (f, rest)
  end.

(* ===================================================================== *)
(** * Vector index (services/vectorStore.js) *)
(* ===================================================================== *)

Module VectorStore.
Section WithFloat.
Context {F : Type} `{Float F}.

(** The metadata stored with a vector; a field the object lacks is
    [None]. *)
Record Payload := mkPayload {
  text : option string;
  articleId : option string;
  articleTitle : option string;
  articleUrl : option string;
  source : option string;
  publishDate : option Z;
  chunkIndex : option nat;
  totalChunks : option nat;
  category : option string;
}.

(** [{}] *)
Definition emptyPayload : Payload :=
  mkPayload None None None None None None None None None.

(** The argument of [upsertVector] and the elements of [upsertBatch]. *)
Record VectorData := mkVectorData {
  vd_id : string;
  vd_vector : list F;
  vd_payload : option Payload;
}.

(** Qdrant point ids are numbers, the in-process store keeps the strings. *)
Inductive PointId :=
| NumId (n : Z)
| StrId (s : string).

Record SearchResult := mkSearchResult {
  sr_id : PointId;
  score : F;
  payload : option Payload;
}.

(** [{ must: [{ range: { publishDate: { gte } } }] }] *)
Inductive Filter :=
| PublishDateGte (gte : Z).

Record Point := mkPoint {
  pt_id : Z;
  pt_vector : list F;
  pt_payload : Payload;
}.

Inductive QdrantCall :=
| QGetCollections
| QCreateCollection (name : string) (size : nat)
| QUpsert (collection : string) (points : list Point)
| QSearch (collection : string) (vector : list F) (limit : Z)
          (filter : option Filter) (with_payload : bool).

(** The remote index service: the calls it received, the faults to come,
    its collections, the points of the collection [news_articles] by id,
    and what it answers to a search given the points it holds (an
    approximate nearest-neighbour search, taken as it comes).  The service
    is not part of the repository; its upsert is modelled from its
    documented behaviour: a point replaces the point of the same id.
    Every failure of a request, whatever its reason, comes from the fault
    schedule. *)
Record Qdrant := mkQdrant {
  q_log : list QdrantCall;
  q_faults : list bool;
  q_collections : list string;
  q_points : gmap Z (list F * Payload);
  q_search : gmap Z (list F * Payload) -> list F -> Z -> option Filter
             -> list SearchResult;
}.

(** The answer of the service to a search. *)
Definition answer (q : Qdrant) (vector : list F) (limit : Z)
    (filter : option Filter) : list SearchResult :=
  q_search q (q_points q) vector limit filter.

(** The effect of an upsert that the service accepts. *)
Definition storePoints (points : list Point) (q : Qdrant) : Qdrant :=
  mkQdrant (q_log q) (q_faults q) (q_collections q)
           (fold_left (fun m p => <[pt_id p := (pt_vector p, pt_payload p)]> m)
                      points (q_points q))
           (q_search q).

(** The [VectorStore] object.  [inMemoryVectors] is a JS [Map]: an
    association list in insertion order, [None] while the property is
    undefined. *)
Record t := mk {
  client : bool;
  vectorSize : nat;
  isInitialized : bool;
  inMemoryVectors : option (list (string * (list F * option Payload)));
}.

Definition collectionName : string := "news_articles".

Definition St : Type := t * Qdrant.

(** A call on the Qdrant client: logged, then failing or answering. *)
Definition qdrantCall {A} (call : QdrantCall) (answer : Qdrant -> A)
    (effect : Qdrant -> Qdrant) : M St A :=
  fun '(vs, q) =>
    let '(fault, rest) := nextFault (q_faults q) in
    let q' := mkQdrant (q_log q ++ [call]) rest (q_collections q) (q_points q)
                       (q_search q) in
    if fault then (Throw "Qdrant request failed", (vs, q'))
    else (Ok (answer q'), (vs, effect q')).

Definition getStore : M St t := fun s => (Ok (fst s), s).
Definition setStore (vs : t) : M St unit := fun s => (Ok tt, (vs, snd s)).

(** [Map.prototype.set] *)
Fixpoint mapSet {V} (k : string) (v : V) (m : list (string * V))
    : list (string * V) :=
  match m with
  | [] => [(k, v)]
  | (k', v') :: rest =>
      if String.eqb k k' then (k, v) :: rest else (k', v') :: mapSet k v rest
  end.

(** [hashId], on the UTF-16 code units that [charCodeAt] reads: the loop
    body is [hash = ((hash << 5) - hash) + char; hash = hash & hash]. *)
Fixpoint hashLoop (codes : list Z) (hash : Z) : Z :=
  match codes with
  | [] => hash
  | char :: rest =>
      let hash := Js.toInt32 (Z.shiftl hash 5) - hash + char in
      hashLoop rest (Js.toInt32 (Z.land hash hash))
  end.

Definition hashCodes (codes : list Z) : Z := Z.abs (hashLoop codes 0).

Definition hashId (str : string) : Z := hashCodes (Js.charCodes str).

(** [initializeFallback] *)
Definition initializeFallback : M St unit :=
  await vs := getStore in
  setStore (mk false (vectorSize vs) true (Some [])).

Definition createCollection : M St unit :=
  await vs := getStore in
  qdrantCall (QCreateCollection collectionName (vectorSize vs)) (fun _ => tt)
    (fun q => mkQdrant (q_log q) (q_faults q)
                       (q_collections q ++ [collectionName]) (q_points q)
                       (q_search q)).

Definition initialize : M St unit :=
  tryCatch
    (await vs := getStore in
     run setStore (mk true (vectorSize vs) (isInitialized vs)
                      (inMemoryVectors vs)) in
     await collections := qdrantCall QGetCollections q_collections (fun q => q) in
     run when (negb (existsb (String.eqb collectionName) collections))
              createCollection in
     await vs := getStore in
     setStore (mk (client vs) (vectorSize vs) true (inMemoryVectors vs)))
    (fun _ => initializeFallback).

Definition sizeMismatch (expected got : nat) : string :=
  "Vector size mismatch: expected " +:+ pretty expected +:+ ", got "
    +:+ pretty got.

Definition upsertVector (data : VectorData) : M St unit :=
  await vs := getStore in
  if negb (isInitialized vs) then throw "Vector store not initialized"
  else if String.eqb (vd_id data) ""
  then throw "Invalid vector data: id, vector array required"
  else if negb (length (vd_vector data) =? vectorSize vs)%nat
  then throw (sizeMismatch (vectorSize vs) (length (vd_vector data)))
  else
    (* the catch block logs and rethrows *)
    if client vs then
      let points := [mkPoint (hashId (vd_id data)) (vd_vector data)
                             (default emptyPayload (vd_payload data))] in
      qdrantCall (QUpsert collectionName points) (fun _ => tt)
                 (storePoints points)
    else
      match inMemoryVectors vs with
      | None => throw "Cannot read properties of undefined (reading 'set')"
      | Some m =>
          setStore (mk (client vs) (vectorSize vs) (isInitialized vs)
                       (Some (mapSet (vd_id data)
                                     (vd_vector data, vd_payload data) m)))
      end.

Definition upsertBatch (vectorsData : list VectorData) : M St unit :=
  await vs := getStore in
  if negb (isInitialized vs) then throw "Vector store not initialized"
  else if (length vectorsData =? 0)%nat
  then throw "Invalid vectors data: expected non-empty array"
  else
    if client vs then
      let points :=
        map (fun data => mkPoint (hashId (vd_id data)) (vd_vector data)
                                 (default emptyPayload (vd_payload data)))
            vectorsData in
      qdrantCall (QUpsert collectionName points) (fun _ => tt)
                 (storePoints points)
    else
      match inMemoryVectors vs with
      | None => throw "Cannot read properties of undefined (reading 'set')"
      | Some m =>
          setStore (mk (client vs) (vectorSize vs) (isInitialized vs)
                       (Some (fold_left
                                (fun m data =>
                                   mapSet (vd_id data)
                                          (vd_vector data, vd_payload data) m)
                                vectorsData m)))
      end.

(** The accumulation loop of [cosineSimilarity], started after the check
    that the lengths agree. *)
Fixpoint cosineSums (a b : list F) (dotProduct normA normB : F) : F * F * F :=
  match a, b with
  | x :: a', y :: b' =>
      cosineSums a' b' (fadd dotProduct (fmul x y)) (fadd normA (fmul x x))
                 (fadd normB (fmul y y))
  | _, _ => (dotProduct, normA, normB)
  end.

Definition cosineSimilarity (vectorA vectorB : list F) : Result F :=
  if negb (length vectorA =? length vectorB)%nat
  then Throw "Vectors must have the same dimensions"
  else
    let '(dotProduct, normA, normB) :=
      cosineSums vectorA vectorB fzero fzero fzero in
    Ok (fdiv dotProduct (fmul (fsqrt normA) (fsqrt normB))).

(** [results.sort((a, b) => b.score - a.score)]: a stable sort by
    descending score. *)
Fixpoint insertByScore (x : SearchResult) (l : list SearchResult)
    : list SearchResult :=
  match l with
  | [] => [x]
  | y :: rest =>
      if fltb (score x) (score y) then y :: insertByScore x rest else x :: l
  end.

Definition sortByScore (l : list SearchResult) : list SearchResult :=
  foldr insertByScore [] l.

Fixpoint scoreAll (queryVector : list F)
    (entries : list (string * (list F * option Payload)))
    : Result (list SearchResult) :=
  match entries with
  | [] => Ok []
  | (id, (vector, pl)) :: rest =>
      match cosineSimilarity queryVector vector with
      | Throw e => Throw e
      | Ok sc =>
          match scoreAll queryVector rest with
          | Throw e => Throw e
          | Ok results => Ok (mkSearchResult (StrId id) sc pl :: results)
          end
      end
  end.

Definition searchInMemory (vs : t) (queryVector : list F) (limit : Z)
    : Result (list SearchResult) :=
  match inMemoryVectors vs with
  | None => Throw "Cannot read properties of undefined (reading 'entries')"
  | Some m =>
      match scoreAll queryVector m with
      | Throw e => Throw e
      | Ok results => Ok (sliceList (sortByScore results) 0 limit)
      end
  end.

Definition searchSimilar (queryVector : list F) (limit : Z)
    (filter : option Filter) : M St (list SearchResult) :=
  await vs := getStore in
  if negb (isInitialized vs) then throw "Vector store not initialized"
  else if negb (length queryVector =? vectorSize vs)%nat
  then throw ("Invalid query vector: expected array of size "
                +:+ pretty (vectorSize vs))
  else
    if client vs then
      qdrantCall (QSearch collectionName queryVector limit filter true)
                 (fun q => answer q queryVector limit filter) (fun q => q)
    else
      fun s => (searchInMemory vs queryVector limit, s).

Definition countVectors : M St nat :=
  await vs := getStore in
  if negb (isInitialized vs) then throw "Vector store not initialized"
  else
    tryCatch
      (if client vs then
         let dummy := replicate (vectorSize vs) ftenth in
         await searchResult :=
           qdrantCall (QSearch collectionName dummy 10000 None false)
                      (fun q => answer q dummy 10000 None) (fun q => q) in
         ret (length searchResult)
       else
         match inMemoryVectors vs with
         | None => throw "Cannot read properties of undefined (reading 'size')"
         | Some m => ret (length m)
         end)
      (fun _ => ret 0%nat).

End WithFloat.
Arguments Qdrant F : clear implicits.
Arguments St F : clear implicits.
Arguments t F : clear implicits.
Arguments VectorData F : clear implicits.
Arguments SearchResult F : clear implicits.
Arguments QdrantCall F : clear implicits.
Arguments Point F : clear implicits.
End VectorStore.

(* ===================================================================== *)
(** * Records exchanged between the services *)
(* ===================================================================== *)

Section Records.
Context {F : Type}.

(** An entry of the [sources] array of a response. *)
Record Source := mkSource {
  src_title : string;
  src_url : string;
  src_source : string;
  src_publishDate : option Z;
  relevanceScore : F;
}.

(** A chat message as [addMessage] receives it. *)
Record Message := mkMessage {
  role : string;
  content : string;
  timestamp : Z;
  msg_sources : option (list Source);
  msg_contextUsed : option nat;
  msg_error : bool;
}.

(** [{ ...message, timestamp: new Date().toISOString() }] *)
Definition stamp (message : Message) (now : Z) : Message :=
  mkMessage (role message) (content message) now (msg_sources message)
            (msg_contextUsed message) (msg_error message).

(** The response object of the query pipeline. *)
Record Response := mkResponse {
  res_query : string;
  response : string;
  model : string;
  sources : list Source;
  contextUsed : nat;
  res_sessionId : string;
  res_timestamp : Z;
  cached : bool;
  tokensUsed : Z;
  error : option string;
}.

(** A session object: its fields, by name. *)
Definition SessionData : Type := gmap string string.

(** What the key-value store holds under [session:] and [query:] keys. *)
Inductive StoreData :=
| DSession (d : SessionData)
| DResult (r : Response).

End Records.
Arguments Source F : clear implicits.
Arguments Message F : clear implicits.
Arguments Response F : clear implicits.
Arguments StoreData F : clear implicits.

(** The part of [config] the services read. *)
Record Config := mkConfig {
  vectorDimension : nat;
  topKResults : Z;
  sessionTtl : Z;
  chatHistoryLimit : Z;
}.

(** The values [config/index.js] takes when the environment sets none. *)
Definition defaultConfig : Config := mkConfig 768 5 3600 50.

(** [Buffer.from(s).toString('base64')] *)
Module Base64.

Definition alphabet : string :=
  "ABCDEFGHIJKLMNOPQRSTUVWXYZabcdefghijklmnopqrstuvwxyz0123456789+/".

Definition digit (n : nat) : ascii :=
  match String.get n alphabet with
  | Some c => c
  | None => "="%char
  end.

Fixpoint encode (s : string) : string :=
  match s with
  | EmptyString => EmptyString
  | String a EmptyString =>
      let x := nat_of_ascii a in
      String (digit (x / 4)) (String (digit (x mod 4 * 16)) "==")
  | String a (String b EmptyString) =>
      let x := nat_of_ascii a in
      let y := nat_of_ascii b in
      String (digit (x / 4))
        (String (digit (x mod 4 * 16 + y / 16))
           (String (digit (y mod 16 * 4)) "="))
  | String a (String b (String c rest)) =>
      let x := nat_of_ascii a in
      let y := nat_of_ascii b in
      let z := nat_of_ascii c in
      String (digit (x / 4))
        (String (digit (x mod 4 * 16 + y / 16))
           (String (digit (y mod 16 * 4 + z / 64))
              (String (digit (z mod 64)) (encode rest))))
  end%nat.

End Base64.

(* ===================================================================== *)
(** * The Redis server, as far as the client uses it *)
(* ===================================================================== *)

(** Modelled from the documented behaviour of the Redis commands that
    [redisClient.js] issues (HSET, EXPIRE, TYPE, HGETALL, GET, DEL, LPUSH,
    LTRIM, LRANGE, SETEX); the server itself is not part of the repository.
    Values that the client serialises with [JSON.stringify] are kept as the
    values they denote. *)
Module Redis.
Section WithFloat.
Context {F : Type}.

Inductive Value :=
| RString (d : StoreData F)
| RHash (fields : gmap string string)
| RList (items : list (Message F)).

Record Entry := mkEntry {
  value : Value;
  expiresAt : option Z;
}.

Inductive Command :=
| HSET (key : string) (fields : gmap string string)
| EXPIRE (key : string) (seconds : Z)
| TYPE (key : string)
| HGETALL (key : string)
| GET (key : string)
| DEL (key : string)
| LPUSH (key : string) (item : Message F)
| LTRIM (key : string) (start stop : Z)
| LRANGE (key : string) (start stop : Z)
| SETEX (key : string) (seconds : Z) (d : StoreData F).

Record t := mk {
  log : list Command;
  faults : list bool;
  keys : gmap string Entry;
}.

Inductive Reply :=
| ROk
| RType (name : string)
| RFields (fields : gmap string string)
| RData (d : option (StoreData F))
| RItems (items : list (Message F)).

(** A key whose time to live has run out is gone. *)
Definition live (now : Z) (ks : gmap string Entry) (key : string)
    : option Entry :=
  match ks !! key with
  | Some e =>
      match expiresAt e with
      | Some at_ => if at_ <? now then None else Some e
      | None => Some e
      end
  | None => None
  end.

(** The elements [start..stop] of a list, both ends included, negative
    indices counting from the end. *)
Definition range {A} (l : list A) (start stop : Z) : list A :=
  let n := Z.of_nat (length l) in
  let s := if start <? 0 then Z.max (n + start) 0 else start in
  let e := Z.min (if stop <? 0 then n + stop else stop) (n - 1) in
  take (Z.to_nat (e - s + 1)) (drop (Z.to_nat s) l).

Definition wrongType : string :=
  "WRONGTYPE Operation against a key holding the wrong kind of value".

(** The effect and the reply of a command that reaches the server. *)
Definition exec (now : Z) (c : Command) (ks : gmap string Entry)
    : Result Reply * gmap string Entry :=
  match c with
  | HSET key fields =>
      match live now ks key with
      | None => (Ok ROk, <[key := mkEntry (RHash fields) None]> ks)
      | Some (mkEntry (RHash old) at_) =>
          (Ok ROk, <[key := mkEntry (RHash (fields ∪ old)) at_]> ks)
      | Some _ => (Throw wrongType, ks)
      end
  | EXPIRE key seconds =>
      match live now ks key with
      | None => (Ok ROk, ks)
      | Some e =>
          if seconds <=? 0 then (Ok ROk, delete key ks)
          else (Ok ROk,
                <[key := mkEntry (value e) (Some (now + seconds * 1000))]> ks)
      end
  | TYPE key =>
      (Ok (RType match live now ks key with
                 | None => "none"
                 | Some (mkEntry (RString _) _) => "string"
                 | Some (mkEntry (RHash _) _) => "hash"
                 | Some (mkEntry (RList _) _) => "list"
                 end), ks)
  | HGETALL key =>
      match live now ks key with
      | None => (Ok (RFields ∅), ks)
      | Some (mkEntry (RHash fields) _) => (Ok (RFields fields), ks)
      | Some _ => (Throw wrongType, ks)
      end
  | GET key =>
      match live now ks key with
      | None => (Ok (RData None), ks)
      | Some (mkEntry (RString d) _) => (Ok (RData (Some d)), ks)
      | Some _ => (Throw wrongType, ks)
      end
  | DEL key => (Ok ROk, delete key ks)
  | LPUSH key item =>
      match live now ks key with
      | None => (Ok ROk, <[key := mkEntry (RList [item]) None]> ks)
      | Some (mkEntry (RList items) at_) =>
          (Ok ROk, <[key := mkEntry (RList (item :: items)) at_]> ks)
      | Some _ => (Throw wrongType, ks)
      end
  | LTRIM key start stop =>
      match live now ks key with
      | None => (Ok ROk, ks)
      | Some (mkEntry (RList items) at_) =>
          match range items start stop with
          | [] => (Ok ROk, delete key ks)
          | kept => (Ok ROk, <[key := mkEntry (RList kept) at_]> ks)
          end
      | Some _ => (Throw wrongType, ks)
      end
  | LRANGE key start stop =>
      match live now ks key with
      | None => (Ok (RItems []), ks)
      | Some (mkEntry (RList items) _) =>
          (Ok (RItems (range items start stop)), ks)
      | Some _ => (Throw wrongType, ks)
      end
  | SETEX key seconds d =>
      if seconds <=? 0 then (Throw "ERR invalid expire time in 'setex' command", ks)
      else (Ok ROk,
            <[key := mkEntry (RString d) (Some (now + seconds * 1000))]> ks)
  end.

(** A command sent by the client: logged, then lost to a fault or
    executed. *)
Definition send (now : Z) (c : Command) (r : t) : Result Reply * t :=
  let '(fault, rest) := nextFault (faults r) in
  if fault then (Throw "Socket closed unexpectedly", mk (log r ++ [c]) rest (keys r))
  else
    let '(reply, ks) := exec now c (keys r) in
    (reply, mk (log r ++ [c]) rest ks).

End WithFloat.
Arguments t F : clear implicits.
Arguments Command F : clear implicits.
Arguments Reply F : clear implicits.
Arguments Entry F : clear implicits.
Arguments Value F : clear implicits.
End Redis.

(* ===================================================================== *)
(** * Key-value client with in-process fallback (services/redisClient.js) *)
(* ===================================================================== *)

Module RedisClient.
Section WithFloat.
Context {F : Type}.
Variable config : Config.

(** An entry of [inMemoryStore]: [{ data, expires }]. *)
Record Stored := mkStored {
  data : StoreData F;
  expires : Z;
}.

(** The [RedisClient] object.  [client] tells whether the networked
    client object exists (it is [null] until a connection is tried). *)
Record t := mk {
  client : bool;
  isConnected : bool;
  fallbackMode : bool;
  inMemoryStore : gmap string Stored;
  inMemoryLists : gmap string (list (Message F));
  connectionAttempted : bool;
}.

(** The object the constructor builds. *)
Definition new : t := mk false false false ∅ ∅ false.

Definition setClient (b : bool) (rc : t) : t :=
  mk b (isConnected rc) (fallbackMode rc) (inMemoryStore rc)
     (inMemoryLists rc) (connectionAttempted rc).
Definition setIsConnected (b : bool) (rc : t) : t :=
  mk (client rc) b (fallbackMode rc) (inMemoryStore rc)
     (inMemoryLists rc) (connectionAttempted rc).
Definition setFallbackMode (b : bool) (rc : t) : t :=
  mk (client rc) (isConnected rc) b (inMemoryStore rc)
     (inMemoryLists rc) (connectionAttempted rc).
Definition setInMemoryStore (m : gmap string Stored) (rc : t) : t :=
  mk (client rc) (isConnected rc) (fallbackMode rc) m
     (inMemoryLists rc) (connectionAttempted rc).
Definition setInMemoryLists (m : gmap string (list (Message F))) (rc : t) : t :=
  mk (client rc) (isConnected rc) (fallbackMode rc) (inMemoryStore rc)
     m (connectionAttempted rc).
Definition setConnectionAttempted (b : bool) (rc : t) : t :=
  mk (client rc) (isConnected rc) (fallbackMode rc) (inMemoryStore rc)
     (inMemoryLists rc) b.

(** ** Connection *)

(** The events of the networked client for which [_attemptConnection]
    registers handlers. *)
Inductive ClientEvent :=
| EvError
| EvConnect
| EvDisconnect.

Definition onError (rc : t) : t :=
  if negb (fallbackMode rc)
  then setIsConnected false (setFallbackMode true rc)
  else rc.

Definition onConnect (rc : t) : t :=
  setFallbackMode false (setIsConnected true rc).

Definition onDisconnect (rc : t) : t :=
  setFallbackMode true (setIsConnected false rc).

(** An event reaches the handlers only if the client object exists. *)
Definition handleEvent (ev : ClientEvent) (rc : t) : t :=
  if client rc then
    match ev with
    | EvError => onError rc
    | EvConnect => onConnect rc
    | EvDisconnect => onDisconnect rc
    end
  else rc.

(** How an attempt to connect ends. *)
Inductive ConnectOutcome :=
| Unavailable   (* the availability probe fails *)
| Rejected      (* [client.connect()] throws *)
| Accepted.     (* the client connects and emits 'connect' *)

Definition _attemptConnection (outcome : ConnectOutcome) (rc : t) : t :=
  match outcome with
  | Unavailable => setIsConnected false (setFallbackMode true rc)
  | Rejected => setIsConnected false (setFallbackMode true (setClient true rc))
  | Accepted => handleEvent EvConnect (setClient true rc)
  end.

Definition connect (outcome : ConnectOutcome) (rc : t) : t :=
  if connectionAttempted rc then rc
  else _attemptConnection outcome (setConnectionAttempted true rc).

(** [getClient() !== null] *)
Definition getClient (rc : t) : bool :=
  if fallbackMode rc then false
  else if negb (client rc) || negb (isConnected rc) then false
  else true.

(** ** The state the data path works on *)

Definition St : Type := t * Redis.t F.

Definition getSelf : M St t := fun s => (Ok (fst s), s).
Definition update (f : t -> t) : M St unit := fun s => (Ok tt, (f (fst s), snd s)).

(** A command on [this.client]; a [null] client is a [TypeError]. *)
Definition command (now : Z) (c : Redis.Command F) : M St (Redis.Reply F) :=
  fun '(rc, r) =>
    if client rc then
      let '(reply, r') := Redis.send now c r in (reply, (rc, r'))
    else (Throw "Cannot read properties of null", (rc, r)).

Definition sessionKey (sessionId : string) : string := "session:" +:+ sessionId.
Definition chatKey (sessionId : string) : string := "chat:" +:+ sessionId.
Definition queryKey (query : string) : string := "query:" +:+ Base64.encode query.

(** ** Sessions *)

Definition defaultSessionTtl : Z := 60 * 60 * 24 * 7.

Definition storeInMemory (key : string) (d : StoreData F) (ttl now : Z)
    : M St unit :=
  update (fun rc =>
    setInMemoryStore (<[key := mkStored d (now + ttl * 1000)]> (inMemoryStore rc)) rc).

(** The lookup with lazy expiry that [getSession] and
    [getCachedQueryResult] share. *)
Definition readInMemory (key : string) (now : Z) : M St (option (StoreData F)) :=
  await rc := getSelf in
  match inMemoryStore rc !! key with
  | None => ret None
  | Some stored =>
      if expires stored <? now then
        run update (fun rc => setInMemoryStore (delete key (inMemoryStore rc)) rc) in
        ret None
      else ret (Some (data stored))
  end.

(** The hash fields [setSession] writes: the fields of [data], and a
    default for each of the four standard fields [data] lacks. *)
Definition sessionFields (sessionId : string) (d : SessionData) (now : Z)
    : gmap string string :=
  d ∪ {[ "id" := sessionId; "lastActivity" := pretty now;
         "messageCount" := "0"; "createdAt" := pretty now ]}.

(** The object a legacy string under a session key parses to. *)
Definition sessionOf (d : StoreData F) : SessionData :=
  match d with
  | DSession fields => fields
  | DResult _ => ∅
  end.

Definition setSession (sessionId : string) (d : SessionData) (ttl now : Z)
    : M St unit :=
  await rc := getSelf in
  if fallbackMode rc
  then storeInMemory (sessionKey sessionId) (DSession d) ttl now
  else
    tryCatch
      (let key := sessionKey sessionId in
       run command now (Redis.HSET key (sessionFields sessionId d now)) in
       run command now (Redis.EXPIRE key ttl) in
       ret tt)
      (fun _ => storeInMemory (sessionKey sessionId) (DSession d) ttl now).

Definition typeName (reply : Redis.Reply F) : string :=
  match reply with
  | Redis.RType name => name
  | _ => "none"
  end.

Definition getSession (sessionId : string) (now : Z)
    : M St (option (StoreData F)) :=
  await rc := getSelf in
  if fallbackMode rc then readInMemory (sessionKey sessionId) now
  else
    tryCatch
      (let key := sessionKey sessionId in
       await keyType := command now (Redis.TYPE key) in
       if String.eqb (typeName keyType) "hash" then
         await hashData := command now (Redis.HGETALL key) in
         match hashData with
         | Redis.RFields fields =>
             ret (if decide (fields = ∅) then None else Some (DSession fields))
         | _ => ret None
         end
       else if String.eqb (typeName keyType) "string" then
         await stringData := command now (Redis.GET key) in
         match stringData with
         | Redis.RData (Some parsedData) =>
             run command now (Redis.DEL key) in
             run setSession sessionId (sessionOf parsedData)
                            defaultSessionTtl now in
             ret (Some parsedData)
         | _ => ret None
         end
       else ret None)
      (fun _ => readInMemory (sessionKey sessionId) now).

(** The branch every other method takes when it finds no usable client
    or catches an error: [this.fallbackMode = true], then the method
    calls itself and lands in its in-process branch. *)
Definition enterFallback {A} (inProcess : M St A) : M St A :=
  run update (setFallbackMode true) in inProcess.

(** The common shape of the remaining methods. *)
Definition dispatch {A} (inProcess : M St A) (networked : M St A) : M St A :=
  await rc := getSelf in
  if fallbackMode rc then inProcess
  else
    tryCatch
      (if getClient rc then networked else enterFallback inProcess)
      (fun _ => enterFallback inProcess).

Definition deleteSession (sessionId : string) (now : Z) : M St unit :=
  dispatch
    (update (fun rc =>
       setInMemoryStore (delete (sessionKey sessionId) (inMemoryStore rc)) rc))
    (run command now (Redis.DEL (sessionKey sessionId)) in ret tt).

(** ** Chat history *)

Definition addMessage (sessionId : string) (message : Message F) (now : Z)
    : M St unit :=
  dispatch
    (update (fun rc =>
       let key := chatKey sessionId in
       let list := default [] (inMemoryLists rc !! key) in
       let list := stamp message now :: list in
       let list :=
         if chatHistoryLimit config <? Z.of_nat (length list)
         then spliceFrom list (chatHistoryLimit config)
         else list in
       setInMemoryLists (<[key := list]> (inMemoryLists rc)) rc))
    (let key := chatKey sessionId in
     run command now (Redis.LPUSH key (stamp message now)) in
     run command now (Redis.LTRIM key 0 (chatHistoryLimit config - 1)) in
     run command now (Redis.EXPIRE key (sessionTtl config)) in
     ret tt).

Definition getChatHistory (sessionId : string) (limit : Z) (now : Z)
    : M St (list (Message F)) :=
  dispatch
    (await rc := getSelf in
     let list := default [] (inMemoryLists rc !! chatKey sessionId) in
     ret (rev (sliceList list 0 limit)))
    (await messages := command now (Redis.LRANGE (chatKey sessionId) 0 (limit - 1)) in
     match messages with
     | Redis.RItems items => ret (rev items)
     | _ => ret []
     end).

Definition clearChatHistory (sessionId : string) (now : Z) : M St unit :=
  dispatch
    (update (fun rc =>
       setInMemoryLists (delete (chatKey sessionId) (inMemoryLists rc)) rc))
    (run command now (Redis.DEL (chatKey sessionId)) in ret tt).

(** ** Query cache *)

Definition defaultCacheTtl : Z := 1800.

Definition cacheQueryResult (query : string) (result : StoreData F)
    (ttl now : Z) : M St unit :=
  dispatch
    (storeInMemory (queryKey query) result ttl now)
    (run command now (Redis.SETEX (queryKey query) ttl result) in ret tt).

Definition getCachedQueryResult (query : string) (now : Z)
    : M St (option (StoreData F)) :=
  dispatch
    (readInMemory (queryKey query) now)
    (await result := command now (Redis.GET (queryKey query)) in
     match result with
     | Redis.RData d => ret d
     | _ => ret None
     end).

End WithFloat.
Arguments t F : clear implicits.
Arguments St F : clear implicits.
Arguments Stored F : clear implicits.
End RedisClient.

(* ===================================================================== *)
(** * Generation gateway (the GeminiService class) *)
(* ===================================================================== *)

Module GeminiService.
Section WithFloat.
Context {F : Type}.

Record t := mk {
  apiKey : string;
  model : bool;           (* [this.model !== null] *)
  isInitialized : bool;
}.

(** The texts whose layout depends on number and locale formatting
    ([toFixed], [toLocaleDateString]) are taken as given: the prompt of
    [constructPrompt] and the per-source summary that
    [generateFallbackResponse] writes for a non-empty context once it has
    grouped the articles by source. *)
Record Formatting := mkFormatting {
  constructPrompt :
    string -> list (VectorStore.SearchResult F) -> list (Message F) -> string;
  contextSummary : string -> list (VectorStore.SearchResult F) -> string;
}.

(** [model.generateContent(prompt)]: the text, or [None] when it throws. *)
Definition GenerativeModel : Type := string -> option string.

Record AiResponse := mkAiResponse {
  ai_response : string;
  ai_model : string;
  ai_tokensUsed : Z;
}.

(** [Math.ceil(text.length / 4)] *)
Definition estimateTokens (text : string) : Z := (Js.len text + 3) / 4.

Definition notFoundText (query : string) : string :=
  "I couldn't find any information about " +:+ Js.quote +:+ query
    +:+ Js.quote +:+ " in the current news database." +:+ Chunker.nl +:+ Chunker.nl
    +:+ "This could be because:" +:+ Chunker.nl
    +:+ "- The topic is too recent and not yet in our database" +:+ Chunker.nl
    +:+ "- The search terms were too specific" +:+ Chunker.nl
    +:+ "- The news articles need to be re-ingested" +:+ Chunker.nl +:+ Chunker.nl
    +:+ "Please try rephrasing your question or checking back later for updates.".

(** The properties every object literal inherits from
    [Object.prototype] (Node.js). *)
Definition objectPrototypeMembers : list string :=
  ["constructor"; "__defineGetter__"; "__defineSetter__"; "hasOwnProperty";
   "__lookupGetter__"; "__lookupSetter__"; "isPrototypeOf";
   "propertyIsEnumerable"; "toString"; "valueOf"; "__proto__";
   "toLocaleString"].

(** [item.payload?.source || 'Other Sources'] *)
Definition sourceKey (item : VectorStore.SearchResult F) : string :=
  match VectorStore.payload item with
  | Some p =>
      match VectorStore.source p with
      | Some source => if String.eqb source "" then "Other Sources" else source
      | None => "Other Sources"
      end
  | None => "Other Sources"
  end.

(** Whether [acc[source]] is an inherited member of the accumulator
    [{}]: it is truthy, so no array is put in its place, and it has no
    [push]. *)
Definition namesPrototypeMember (item : VectorStore.SearchResult F) : bool :=
  bool_decide (sourceKey item ∈ objectPrototypeMembers).

(** The [reduce] that groups the articles by source fails at the first
    article whose source names an inherited member; the texts are put
    together only after it. *)
Definition generateFallbackResponse (fmt : Formatting) (query : string)
    (context : list (VectorStore.SearchResult F)) : Result AiResponse :=
  match context with
  | [] => Ok (mkAiResponse (notFoundText query) "fallback-enhanced" 0)
  | _ =>
      if existsb namesPrototypeMember context
      then Throw "acc[source].push is not a function"
      else Ok (mkAiResponse (contextSummary fmt query context)
                            "fallback-enhanced" 0)
  end.

Definition generateGeminiResponse (fmt : Formatting) (api : GenerativeModel)
    (query : string) (context : list (VectorStore.SearchResult F))
    (conversationHistory : list (Message F)) : Result AiResponse :=
  let prompt := constructPrompt fmt query context conversationHistory in
  match api prompt with
  | Some text =>
      Ok (mkAiResponse text "gemini-pro" (estimateTokens (prompt +:+ text)))
  | None => Throw "Gemini API error"
  end.

Definition generateResponse (svc : t) (fmt : Formatting) (api : GenerativeModel)
    (query : string) (context : list (VectorStore.SearchResult F))
    (conversationHistory : list (Message F)) : Result AiResponse :=
  if negb (isInitialized svc) then Throw "Gemini service not initialized"
  else
    match
      (if model svc
       then generateGeminiResponse fmt api query context conversationHistory
       else generateFallbackResponse fmt query context)
    with
    | Ok r => Ok r
    | Throw _ => generateFallbackResponse fmt query context
    end.

End WithFloat.
Arguments Formatting F : clear implicits.
End GeminiService.

(* ===================================================================== *)
(** * Query pipeline (services/ragService.js) *)
(* ===================================================================== *)

Module RAGService.
Section WithFloat.
Context {F : Type} `{Float F}.
Variable config : Config.

(** The collaborators that [processQuery] does not mutate. *)
Record Env := mkEnv {
  embeddingService : EmbeddingService.t;
  jina : EmbeddingService.Jina F;
  random : nat -> F;
  geminiService : GeminiService.t;
  formatting : GeminiService.Formatting F;
  generativeModel : GeminiService.GenerativeModel;
}.

(** The collaborators with state: the key-value client and the vector
    store, each with its remote service. *)
Record World := mkWorld {
  redisClient : RedisClient.t F;
  redis : Redis.t F;
  vectorStore : VectorStore.t F;
  qdrant : VectorStore.Qdrant F;
}.

Definition liftRedis {A} (m : M (RedisClient.St F) A) : M World A :=
  fun w =>
    let '(r, (rc, rs)) := m (redisClient w, redis w) in
    (r, mkWorld rc rs (vectorStore w) (qdrant w)).

Definition liftVector {A} (m : M (VectorStore.St F) A) : M World A :=
  fun w =>
    let '(r, (vs, q)) := m (vectorStore w, qdrant w) in
    (r, mkWorld (redisClient w) (redis w) vs q).

Definition liftResult {A} (r : Result A) : M World A := fun w => (r, w).

(** The four constants that [processQuery] takes from its [options]
    argument. *)
Record Options := mkOptions {
  useCache : bool;
  includeHistory : bool;
  maxResults : Z;
  minSimilarity : F;
}.

(** The constants of [options = {}]. *)
Definition defaultOptions : Options :=
  mkOptions true true (topKResults config) fthreeTenths.

(** The [options] argument as a caller passes it: left out, [null], or
    an object that gives some of the four properties (a value without
    properties of these names, such as a number, counts as an object
    that gives none).  A property that is given holds a value of the
    kind the code expects: a flag is given by its truth value. *)
Inductive OptionsArg :=
| OptionsOmitted
| OptionsNull
| OptionsObject (useCache includeHistory : option bool)
                (maxResults : option Z) (minSimilarity : option F).

(** [const { useCache = true, includeHistory = true,
            maxResults = config.rag.topKResults, minSimilarity = 0.3 }
       = options], with the default [options = {}] of the parameter: only
    [undefined] gets a default, and [null] cannot be destructured. *)
Definition destructure (options : OptionsArg) : Result Options :=
  match options with
  | OptionsOmitted => Ok defaultOptions
  | OptionsNull =>
      Throw "Cannot destructure property 'useCache' of 'options' as it is null."
  | OptionsObject useCache includeHistory maxResults minSimilarity =>
      Ok (mkOptions (default true useCache) (default true includeHistory)
                    (default (topKResults config) maxResults)
                    (default fthreeTenths minSimilarity))
  end.

(** What [processQuery] resolves to: the cached object spread under
    [cached: true] and a fresh [timestamp], or a response it built. *)
Inductive QueryResult :=
| Cached (cachedResult : StoreData F) (timestamp : Z)
| Computed (r : Response F).

Definition truthy (s : option string) : bool :=
  match s with
  | Some s => negb (String.eqb s "")
  | None => false
  end.

(** [s || fallback] *)
Definition orElse (s : option string) (fallback : string) : string :=
  if truthy s then default fallback s else fallback.

Definition sourceOf (result : VectorStore.SearchResult F)
    (p : VectorStore.Payload) (url : string) : Source F :=
  mkSource (orElse (VectorStore.articleTitle p) "Untitled Article") url
           (orElse (VectorStore.source p) "Unknown Source")
           (VectorStore.publishDate p) (VectorStore.score result).

(** The [for] loop of [extractSources]. *)
Fixpoint extractLoop (results : list (VectorStore.SearchResult F))
    (seenUrls : gset string) (sources : list (Source F)) : list (Source F) :=
  match results with
  | [] => sources
  | result :: rest =>
      match VectorStore.payload result with
      | Some p =>
          match VectorStore.articleUrl p with
          | Some url =>
              if negb (String.eqb url "") && negb (bool_decide (url ∈ seenUrls))
              then extractLoop rest ({[url]} ∪ seenUrls)
                               (sources ++ [sourceOf result p url])
              else extractLoop rest seenUrls sources
          | None => extractLoop rest seenUrls sources
          end
      | None => extractLoop rest seenUrls sources
      end
  end.

Definition extractSources (results : list (VectorStore.SearchResult F))
    : list (Source F) :=
  sliceList (extractLoop results ∅ []) 0 5.

Definition isRecentNewsQuery (query : string) : bool :=
  Js.includes "today" (Js.toLowerCase query)
  || Js.includes "recent" (Js.toLowerCase query)
  || Js.includes "latest" (Js.toLowerCase query)
  || Js.includes "current" (Js.toLowerCase query).

Definition threeDays : Z := 3 * 24 * 60 * 60 * 1000.

(** The filter of the date-restricted search. *)
Definition recentFilter (now : Z) : VectorStore.Filter :=
  VectorStore.PublishDateGte (now - threeDays).

Definition userMessage (query : string) (now : Z) : Message F :=
  mkMessage "user" query now None None false.

Definition apology (query : string) : string :=
  "I apologize, but I encountered an error while processing your question: "
    +:+ Js.quote +:+ query +:+ Js.quote
    +:+ ". Please try again or rephrase your question.".

Definition fallbackResponse (query sessionId : string) (now : Z)
    (message : string) : Response F :=
  mkResponse query (apology query) "fallback" [] 0%nat sessionId now false 0
             (Some message).

(** Step 2 of [processQuery]. *)
Definition retrieve (query : string) (queryEmbedding : list F)
    (maxResults : Z) (now : Z) : M World (list (VectorStore.SearchResult F)) :=
  if isRecentNewsQuery query then
    tryCatch
      (liftVector (VectorStore.searchSimilar queryEmbedding (maxResults * 2)
                     (Some (recentFilter now))))
      (fun _ =>
         liftVector (VectorStore.searchSimilar queryEmbedding (maxResults * 2)
                       None))
  else
    liftVector (VectorStore.searchSimilar queryEmbedding (maxResults * 2) None).

(** The similarity filter of [processQuery]:
    [searchResults.filter(r => r.score >= minSimilarity).slice(0, maxResults)] *)
Definition relevantAmong (options : Options)
    (searchResults : list (VectorStore.SearchResult F))
    : list (VectorStore.SearchResult F) :=
  sliceList
    (filter (fun result =>
               fleb (minSimilarity options) (VectorStore.score result) = true)
            searchResults)
    0 (maxResults options).

(** Steps 3 to 7 of [processQuery]: history, generation, response, cache
    and chat history. *)
Definition respond (env : Env) (query sessionId : string) (options : Options)
    (now : Z) (relevantResults : list (VectorStore.SearchResult F))
    : M World QueryResult :=
  await conversationHistory :=
    (if includeHistory options
     then liftRedis (RedisClient.getChatHistory sessionId 10 now)
     else ret []) in
  await aiResponse :=
    liftResult (GeminiService.generateResponse
                  (geminiService env) (formatting env) (generativeModel env)
                  query relevantResults conversationHistory) in
  let response :=
    mkResponse query (GeminiService.ai_response aiResponse)
               (GeminiService.ai_model aiResponse)
               (extractSources relevantResults) (length relevantResults)
               sessionId now false (GeminiService.ai_tokensUsed aiResponse)
               None in
  run when (useCache options
            && negb (String.eqb (GeminiService.ai_response aiResponse) ""))
           (liftRedis (RedisClient.cacheQueryResult query (DResult response)
                         RedisClient.defaultCacheTtl now)) in
  run liftRedis (RedisClient.addMessage config sessionId
                   (userMessage query now) now) in
  run liftRedis (RedisClient.addMessage config sessionId
                   (mkMessage "assistant" (GeminiService.ai_response aiResponse)
                              now (Some (extractSources relevantResults))
                              (Some (length relevantResults)) false)
                   now) in
  ret (Computed response).

(** The body of the [try] block of [processQuery]. *)
Definition pipeline (env : Env) (query sessionId : string) (options : Options)
    (now : Z) : M World QueryResult :=
  await cachedResult :=
    (if useCache options
     then liftRedis (RedisClient.getCachedQueryResult query now)
     else ret None) in
  match cachedResult with
  | Some c => ret (Cached c now)
  | None =>
      await queryEmbedding :=
        liftResult (EmbeddingService.generateEmbedding
                      (embeddingService env) (jina env) (random env) query) in
      await searchResults :=
        retrieve query queryEmbedding (maxResults options) now in
      respond env query sessionId options now
              (relevantAmong options searchResults)
  end.

(** The [catch] block of [processQuery]. *)
Definition recover (query sessionId : string) (now : Z) (message : string)
    : M World QueryResult :=
  let fallbackResponse := fallbackResponse query sessionId now message in
  run tryCatch
        (run liftRedis (RedisClient.addMessage config sessionId
                          (userMessage query now) now) in
         liftRedis (RedisClient.addMessage config sessionId
                      (mkMessage "assistant" (response fallbackResponse) now
                                 None None true)
                      now))
        (fun _ => ret tt) in
  ret (Computed fallbackResponse).

Definition processQuery (isInitialized : bool) (env : Env)
    (query sessionId : string) (options : OptionsArg) (now : Z)
    : M World QueryResult :=
  if negb isInitialized then throw "RAG service not initialized"
  else
    await options := liftResult (destructure options) in
    tryCatch (pipeline env query sessionId options now)
             (recover query sessionId now).

End WithFloat.
Arguments Env F : clear implicits.
Arguments World F : clear implicits.
Arguments Options F : clear implicits.
Arguments OptionsArg F : clear implicits.
Arguments QueryResult F : clear implicits.
End RAGService.

(* ===================================================================== *)
(** * Concrete numbers and states for the examples *)
(* ===================================================================== *)

(** Exact rationals as numbers, for running the services on concrete
    inputs.  The square root is truncated to six decimals. *)
Module QNum.

Definition sqrt (q : Q) : Q :=
  Qred (Z.sqrt (Qnum q * Zpos (Qden q) * 10 ^ 12) # (Qden q * 10 ^ 6)).

#[export] Instance QFloat : Float Q := {|
  flit n d := n # d;
  fadd a b := Qred (a + b);
  fsub a b := Qred (a - b);
  fmul a b := Qred (a * b);
  fdiv a b := Qred (a / b);
  fsqrt := sqrt;
  fltb a b := negb (Qle_bool b a);
  fleb := Qle_bool;
|}.

End QNum.

Module Examples.
Import QNum.

(** An initialised vector store on its in-process fallback, and a Qdrant
    service that is never reached. *)
Definition fallbackStore : VectorStore.t Q := VectorStore.mk false 768 true (Some []).

Definition idleQdrant : VectorStore.Qdrant Q :=
  VectorStore.mkQdrant [] [] [] ∅ (fun _ _ _ _ => []).

(** A record whose vector has 3 components instead of 768. *)
Definition shortVector : VectorStore.VectorData Q :=
  VectorStore.mkVectorData "a1_chunk_0" [1 # 1; 0 # 1; 0 # 1] None.

(** A store of dimension 2 and two articles with the same title and
    content under different ids. *)
Definition smallStore : VectorStore.t Q := VectorStore.mk false 2 true (Some []).

Definition articleA : Chunker.Article := Chunker.mkArticle "a1" "Title" "" "Short body.".
Definition articleB : Chunker.Article := Chunker.mkArticle "a2" "Title" "" "Short body.".

(** The record that [ingestUniqueArticles] upserts for a chunk of an
    article, with the embedding of the chunk; the articles here have no
    URL, source, date or category. *)
Definition recordOf (article : Chunker.Article) (chunks : list Chunker.Chunk)
    (chunk : Chunker.Chunk) (vector : list Q) : VectorStore.VectorData Q :=
  VectorStore.mkVectorData (Chunker.chunk_id chunk) vector
    (Some (VectorStore.mkPayload (Some (Chunker.chunk_text chunk))
             (Some (Chunker.art_id article)) (Some (Chunker.art_title article))
             None None None (Some (Chunker.chunk_index chunk))
             (Some (length chunks)) (Some "General"))).

(** The same store of dimension 2 behind a Qdrant client. *)
Definition qdrantBackedStore : VectorStore.t Q := VectorStore.mk true 2 true None.

Definition chunkA : Chunker.Chunk :=
  Chunker.mkChunk "a1_chunk_0"
    ("Title" +:+ Chunker.nl +:+ Chunker.nl +:+ "Short body.") 0 None None.
Definition chunkB : Chunker.Chunk :=
  Chunker.mkChunk "a2_chunk_0"
    ("Title" +:+ Chunker.nl +:+ Chunker.nl +:+ "Short body.") 0 None None.

End Examples.

Module EmbeddingExamples.
Import QNum.

(** An embedding service without API key, a remote API that always
    fails, and a random source stuck at 0.5. *)
Definition noKeyEmbedding : EmbeddingService.t := EmbeddingService.mk "".
Definition failingJina : EmbeddingService.Jina Q :=
  fun _ => EmbeddingService.JinaError "Request failed with status code 503".
Definition halfRandom : nat -> Q := fun _ => 1 # 2.

End EmbeddingExamples.

(* ===================================================================== *)
(** * Source extraction, in the words of the specification *)
(* ===================================================================== *)

(** "Deduplicated by URL, ordered by descending relevance, capped at 5":
    the results without payload or without article URL contribute nothing,
    the first result of every URL is kept, and the first five of those
    are the sources. *)
Module SourcesSpec.
Section WithFloat.
Context {F : Type}.

Definition candidate (result : VectorStore.SearchResult F) : option (Source F) :=
  match VectorStore.payload result with
  | Some p =>
      match VectorStore.articleUrl p with
      | Some url =>
          if String.eqb url "" then None
          else Some (RAGService.sourceOf result p url)
      | None => None
      end
  | None => None
  end.

Fixpoint firstByUrl (seen : gset string) (candidates : list (Source F))
    : list (Source F) :=
  match candidates with
  | [] => []
  | s :: rest =>
      if bool_decide (src_url s ∈ seen) then firstByUrl seen rest
      else s :: firstByUrl ({[src_url s]} ∪ seen) rest
  end.

Definition specSources (results : list (VectorStore.SearchResult F))
    : list (Source F) :=
  take 5 (firstByUrl ∅ (omap candidate results)).

End WithFloat.
End SourcesSpec.

Module PipelineExamples.
Import QNum.

(** A pipeline whose vector index is a Qdrant service that answers every
    search with one hit without payload, whose key-value client is in
    fallback mode, and whose embedding and generation gateways run on
    their local fallbacks. *)
Definition hitWithoutPayload : VectorStore.SearchResult Q :=
  VectorStore.mkSearchResult (VectorStore.NumId 42) (9 # 10) None.

Definition qdrantWithOneHit : VectorStore.Qdrant Q :=
  VectorStore.mkQdrant [] [] ["news_articles"] ∅
                       (fun _ _ _ _ => [hitWithoutPayload]).

Definition qdrantStore : VectorStore.t Q := VectorStore.mk true 768 true None.

Definition degradedClient : RedisClient.t Q :=
  RedisClient.mk false false true ∅ ∅ true.

Definition emptyRedis : Redis.t Q := Redis.mk [] [] ∅.

Definition plainFormatting : GeminiService.Formatting Q :=
  GeminiService.mkFormatting (fun query _ _ => query)
                             (fun query _ => "News Summary: " +:+ query).

Definition localEnv : RAGService.Env Q :=
  RAGService.mkEnv (EmbeddingService.mk "")
                   (fun _ => EmbeddingService.JinaError "unreachable")
                   (fun _ => 1 # 2)
                   (GeminiService.mk "" false true)
                   plainFormatting
                   (fun _ => None).

Definition oneHitWorld : RAGService.World Q :=
  RAGService.mkWorld degradedClient emptyRedis qdrantStore qdrantWithOneHit.

End PipelineExamples.

(* ===================================================================== *)
(** * Properties of computations on the key-value client *)
(* ===================================================================== *)

Module ClientProps.
Section WithFloat.
Context {F : Type}.
Import RedisClient.

(** A computation that works on the in-process maps only: it returns,
    leaves the Redis server alone and keeps the connection flags. *)
Definition inProcess {A} (m : M (St F) A) : Prop :=
  forall rc r, exists a rc',
    m (rc, r) = (Ok a, (rc', r))
    /\ fallbackMode rc' = fallbackMode rc
    /\ client rc' = client rc
    /\ isConnected rc' = isConnected rc
    /\ connectionAttempted rc' = connectionAttempted rc.

(** A computation that keeps a property of the client object, whether it
    returns or throws. *)
Definition preserves {A} (P : t F -> Prop) (m : M (St F) A) : Prop :=
  forall st, P (fst st) -> P (fst (snd (m st))).

End WithFloat.
End ClientProps.

(* ===================================================================== *)
(** * Runs of the key-value client *)
(* ===================================================================== *)

(** What can happen to the client object over the life of the process:
    a call of one of its data-path methods, an event of the networked
    client, or a call of [connect]. *)
Module ClientRun.
Section WithFloat.
Context {F : Type}.
Variable config : Config.

Inductive Op :=
| SetSession (sessionId : string) (d : SessionData) (ttl : Z)
| GetSession (sessionId : string)
| DeleteSession (sessionId : string)
| AddMessage (sessionId : string) (message : Message F)
| GetChatHistory (sessionId : string) (limit : Z)
| ClearChatHistory (sessionId : string)
| CacheQueryResult (query : string) (result : StoreData F) (ttl : Z)
| GetCachedQueryResult (query : string).

(** The state a call leaves, and whether it threw. *)
Definition call (op : Op) (now : Z) (st : RedisClient.St F)
    : bool * RedisClient.St F :=
  match op with
  | SetSession sessionId d ttl =>
      let '(r, st') := RedisClient.setSession sessionId d ttl now st in (isOk r, st')
  | GetSession sessionId =>
      let '(r, st') := RedisClient.getSession sessionId now st in (isOk r, st')
  | DeleteSession sessionId =>
      let '(r, st') := RedisClient.deleteSession sessionId now st in (isOk r, st')
  | AddMessage sessionId message =>
      let '(r, st') := RedisClient.addMessage config sessionId message now st in
      (isOk r, st')
  | GetChatHistory sessionId limit =>
      let '(r, st') := RedisClient.getChatHistory sessionId limit now st in
      (isOk r, st')
  | ClearChatHistory sessionId =>
      let '(r, st') := RedisClient.clearChatHistory sessionId now st in (isOk r, st')
  | CacheQueryResult query result ttl =>
      let '(r, st') := RedisClient.cacheQueryResult query result ttl now st in
      (isOk r, st')
  | GetCachedQueryResult query =>
      let '(r, st') := RedisClient.getCachedQueryResult query now st in (isOk r, st')
  end.

Inductive Action :=
| Call (op : Op) (now : Z)
| Event (ev : RedisClient.ClientEvent)
| Connect (outcome : RedisClient.ConnectOutcome).

Definition step (a : Action) (st : RedisClient.St F) : RedisClient.St F :=
  match a with
  | Call op now => snd (call op now st)
  | Event ev => (RedisClient.handleEvent ev (fst st), snd st)
  | Connect outcome => (RedisClient.connect outcome (fst st), snd st)
  end.

Definition execute (actions : list Action) (st : RedisClient.St F) : RedisClient.St F :=
  fold_left (fun st a => step a st) actions st.

(** The actions in which the networked client emits 'connect'. *)
Definition emitsConnect (a : Action) : bool :=
  match a with
  | Event RedisClient.EvConnect => true
  | Connect RedisClient.Accepted => true
  | _ => false
  end.

(** The calls that write the cache entry of a query. *)
Definition caches (query : string) (a : Action) : bool :=
  match a with
  | Call (CacheQueryResult q _ _) _ => String.eqb q query
  | _ => false
  end.

(** The clock of a call reads no later than [t]. *)
Definition notAfter (t : Z) (a : Action) : bool :=
  match a with
  | Call _ now => now <=? t
  | _ => true
  end.

End WithFloat.
Arguments Op F : clear implicits.
Arguments Action F : clear implicits.
End ClientRun.

Module ClientExamples.
Import QNum.

(** A client whose connection was accepted, and the same client after an
    'error' event of its networked client. *)
Definition connectedClient : RedisClient.t Q :=
  RedisClient.connect RedisClient.Accepted RedisClient.new.

Definition erroredClient : RedisClient.t Q :=
  RedisClient.handleEvent RedisClient.EvError connectedClient.

Definition idleRedis : Redis.t Q := Redis.mk [] [] ∅.

(** A response to cache. *)
Definition someResult : StoreData Q :=
  DResult (mkResponse "q" "An answer." "gemini-pro" [] 0 "session-1" 0 false 3 None).

(** A Redis server that serves the next command and fails the one after. *)
Definition redisFailingSecond : Redis.t Q := Redis.mk [] [false; true] ∅.

End ClientExamples.

Module RunExamples.
Import QNum ClientExamples.

Definition hello : Message Q := mkMessage "user" "hello" 0 None None false.

(** Calls and events without a 'connect' event. *)
Definition degradedRun : list (ClientRun.Action Q) :=
  [ClientRun.Call (ClientRun.AddMessage "session-1" hello) 1;
   ClientRun.Event RedisClient.EvError;
   ClientRun.Event RedisClient.EvDisconnect;
   ClientRun.Call (ClientRun.GetChatHistory "session-1" 10) 2;
   ClientRun.Call (ClientRun.CacheQueryResult "q" someResult 1800) 3;
   ClientRun.Call (ClientRun.SetSession "session-1" ∅ 60) 4;
   ClientRun.Connect RedisClient.Rejected].

(** What a client may do between a write and a read of the cache of
    ["q"]: other calls, a read of ["q"] and the caching of another
    query. *)
Definition busyRun : list (ClientRun.Action Q) :=
  [ClientRun.Call (ClientRun.AddMessage "session-1" hello) 100;
   ClientRun.Call (ClientRun.GetCachedQueryResult "q") 200;
   ClientRun.Call (ClientRun.CacheQueryResult "another q" someResult 60) 300;
   ClientRun.Call (ClientRun.SetSession "session-1" ∅ 60) 400;
   ClientRun.Call (ClientRun.GetSession "session-1") 500].

(** The networked client reconnects, then the cache is read. *)
Definition reconnectingRun : list (ClientRun.Action Q) :=
  [ClientRun.Event RedisClient.EvConnect;
   ClientRun.Call (ClientRun.GetCachedQueryResult "q") 5].

End RunExamples.

(* ===================================================================== *)
(** * Chat logs *)
(* ===================================================================== *)

Module ChatLog.
Section WithFloat.
Context {F : Type}.
Variable config : Config.

(** Every in-process chat log holds at most [chatHistoryLimit] messages. *)
Definition bounded (rc : RedisClient.t F) : Prop :=
  forall key log,
    RedisClient.inMemoryLists rc !! key = Some log ->
    Z.of_nat (length log) <= chatHistoryLimit config.

(** [addMessage] for each message of the list in turn, each at its time. *)
Definition appendAll (sessionId : string) (entries : list (Message F * Z))
    (st : RedisClient.St F) : RedisClient.St F :=
  fold_left
    (fun st entry =>
       snd (RedisClient.addMessage config sessionId (fst entry) (snd entry) st))
    entries st.

(** The messages as they are stored, oldest first. *)
Definition stamped (entries : list (Message F * Z)) : list (Message F) :=
  map (fun entry => stamp (fst entry) (snd entry)) entries.

(** The [n] most recent elements of a list that is ordered oldest first. *)
Definition lastN {A} (n : Z) (l : list A) : list A :=
  drop (length l - Z.to_nat n) l.

(** Each message comes within the time to live of the chat key after the
    one before it. *)
Fixpoint withinTtl (previous : Z) (entries : list (Message F * Z)) : Prop :=
  match entries with
  | [] => True
  | entry :: rest =>
      snd entry <= previous + sessionTtl config * 1000
      /\ withinTtl (snd entry) rest
  end.

(** The time of the last message, [start] if there is none. *)
Definition lastTime (start : Z) (entries : list (Message F * Z)) : Z :=
  fold_left (fun _ entry => snd entry) entries start.

(** The chat key is free or holds a list. *)
Definition listOrFree (r : Redis.t F) (key : string) : Prop :=
  match Redis.keys r !! key with
  | Some (Redis.mkEntry (Redis.RList _) _) => True
  | Some _ => False
  | None => True
  end.

(** The in-process chat log of a session. *)
Definition logOf (rc : RedisClient.t F) (sessionId : string) : list (Message F) :=
  default [] (RedisClient.inMemoryLists rc !! RedisClient.chatKey sessionId).

(** No command sent to the server from now on is lost to a fault. *)
Definition quiet (r : Redis.t F) : Prop :=
  Forall (fun f => f = false) (Redis.faults r).

(** The chat log that Redis holds for a session at a given time. *)
Definition redisLog (r : Redis.t F) (sessionId : string) (now : Z)
    : list (Message F) :=
  match Redis.live now (Redis.keys r) (RedisClient.chatKey sessionId) with
  | Some (Redis.mkEntry (Redis.RList items) _) => items
  | _ => []
  end.

End WithFloat.
End ChatLog.

Module ChatExamples.
Import QNum ClientExamples PipelineExamples.

(** A configuration with a chat history limit of 2. *)
Definition smallConfig : Config := mkConfig 768 5 3600 2.

Definition numbered (i : nat) : Message Q :=
  mkMessage "user" (pretty i) 0 None None false.

(** Twelve messages, one per second. *)
Definition twelve : list (Message Q * Z) :=
  map (fun i => (numbered i, Z.of_nat i * 1000)) (seq 1 12).

(** A Redis server that serves 33 commands, the three of each of eleven
    [addMessage] calls, and fails the next one. *)
Definition redisFailingLate : Redis.t Q :=
  Redis.mk [] (replicate 33 false ++ [true]) ∅.

Definition three : list (Message Q * Z) :=
  [(numbered 1, 1000); (numbered 2, 2000); (numbered 3, 3000)].

End ChatExamples.

(* ===================================================================== *)
(** * Recency keywords, in the words of the specification *)
(* ===================================================================== *)

Module Recency.

Definition keywords : list string := ["today"; "recent"; "latest"; "current"].

(** [text] contains [word]. *)
Definition contains (word text : string) : Prop :=
  exists before after, text = before +:+ word +:+ after.

(** The lower-cased text of the query contains one of the keywords. *)
Definition asksForRecentNews (query : string) : Prop :=
  exists keyword, In keyword keywords /\ contains keyword (Js.toLowerCase query).

End Recency.

Module RetrievalExamples.
Import QNum PipelineExamples.

(** A Qdrant service that fails the first search and serves the second,
    and one that fails both. *)
Definition qdrantFailingOnce : VectorStore.Qdrant Q :=
  VectorStore.mkQdrant [] [true] ["news_articles"] ∅
                       (fun _ _ _ _ => [hitWithoutPayload]).

Definition qdrantFailingTwice : VectorStore.Qdrant Q :=
  VectorStore.mkQdrant [] [true; true] ["news_articles"] ∅
                       (fun _ _ _ _ => [hitWithoutPayload]).

Definition worldFailingOnce : RAGService.World Q :=
  RAGService.mkWorld degradedClient emptyRedis qdrantStore qdrantFailingOnce.

Definition worldFailingTwice : RAGService.World Q :=
  RAGService.mkWorld degradedClient emptyRedis qdrantStore qdrantFailingTwice.

Definition latestNews : string := "what's the LATEST news".

End RetrievalExamples.

Module CacheHitExamples.
Import QNum PipelineExamples RetrievalExamples.

(** The limit and the filter of a search request. *)
Definition requestShape (call : VectorStore.QdrantCall Q)
    : option (Z * option VectorStore.Filter) :=
  match call with
  | VectorStore.QSearch _ _ limit filter _ => Some (limit, filter)
  | _ => None
  end.

(** A world in which the answer to [latestNews] is cached. *)
Definition cachedAnswer : StoreData Q :=
  DResult (mkResponse latestNews "Cached answer." "gemini-pro" [] 0 "session-0"
                      0 false 3 None).

Definition clientWithCache : RedisClient.t Q :=
  RedisClient.mk false false true
    {[ RedisClient.queryKey latestNews := RedisClient.mkStored cachedAnswer 1800000 ]}
    ∅ true.

Definition worldWithCache : RAGService.World Q :=
  RAGService.mkWorld clientWithCache emptyRedis qdrantStore qdrantWithOneHit.

End CacheHitExamples.

(* ===================================================================== *)
(** * Further notions used to state properties of the services *)
(* ===================================================================== *)

Module ChunkNumbering.
Import Chunker.

(** The chunk at position [i] carries the index [i] and the id built
    from it. *)
Definition numbered (articleId : string) (chunks : list Chunk) : Prop :=
  forall i chunk, chunks !! i = Some chunk ->
    chunk_index chunk = i /\ chunk_id chunk = chunkIdOf articleId i.

End ChunkNumbering.

Module StoreShape.
Section WithFloat.
Context {F : Type} `{Float F}.
Import VectorStore.

(** The vectors of the in-process store all have the size of the
    collection. *)
Definition wellSized (vs : t F) : Prop :=
  forall m, inMemoryVectors vs = Some m ->
    Forall (fun entry => length (fst (snd entry)) = vectorSize vs) m.

(** An initialised store that works in process, on the entries [m]. *)
Definition inProcessStore (vs : t F)
    (m : list (string * (list F * option Payload))) : Prop :=
  client vs = false /\ isInitialized vs = true /\ inMemoryVectors vs = Some m.

(** What links an entry of the store to the search result made of it. *)
Definition scored (queryVector : list F)
    (entry : string * (list F * option Payload)) (result : SearchResult F)
    : Prop :=
  sr_id result = StrId (fst entry)
  /\ payload result = snd (snd entry)
  /\ cosineSimilarity queryVector (fst (snd entry)) = Ok (score result).

(** [upsertVector] for each record in turn, up to the first call that
    throws. *)
Fixpoint upsertEach (vectorsData : list (VectorData F)) : M (St F) unit :=
  match vectorsData with
  | [] => ret tt
  | data :: rest => run upsertVector data in upsertEach rest
  end.

End WithFloat.
End StoreShape.

Module StoreExamples.
Import QNum Examples.

(** An in-process store of dimension 2 with two vectors. *)
Definition twoVectors : list (string * (list Q * option VectorStore.Payload)) :=
  [("a1_chunk_0", ([1 # 1; 0 # 1], None)); ("a2_chunk_0", ([0 # 1; 1 # 1], None))].

Definition twoVectorStore : VectorStore.t Q :=
  VectorStore.mk false 2 true (Some twoVectors).

(** The store that [upsertBatch] leaves when it is given a vector of 3
    components for a collection of dimension 768. *)
Definition missizedStore : VectorStore.t Q :=
  fst (snd (VectorStore.upsertBatch [shortVector] (fallbackStore, idleQdrant))).

(** Qdrant with a request that fails first. *)
Definition qdrantDown : VectorStore.Qdrant Q :=
  VectorStore.mkQdrant [] [true] [] ∅ (fun _ _ _ _ => []).

End StoreExamples.

(** ** More of the embedding gateway (services/embeddingService.js) *)

Module EmbeddingBatch.
Section WithFloat.
Context {F : Type} `{Float F}.
Import EmbeddingService.

Definition maxBatchSize : Z := 10.

(** The [for] loop of the [catch] block: a fallback embedding for every
    text of the batch.  [calls] is the number of calls of
    [Math.random()] made before. *)
Fixpoint fallbackBatch (random : nat -> F) (calls : nat) (batch : list string)
    : list (list F) :=
  match batch with
  | [] => []
  | text :: rest =>
      generateFallbackEmbedding (fun i => random (calls + i)%nat) text
                                defaultDimensions
        :: fallbackBatch random (calls + defaultDimensions) rest
  end.

(** The loop over the batches, [i] being the index of the first text of
    the next batch.  Every iteration moves [i] forward by the batch
    size, so that the loop ends within as many iterations as there are
    texts: that number is the fuel [generateBatchEmbeddings] gives it. *)
Fixpoint batchLoop (fuel : nat) (svc : t) (jina : Jina F) (random : nat -> F)
    (cleanTexts : list string) (i : Z) (calls : nat)
    (embeddings : list (list F)) : list (list F) :=
  match fuel with
  | O => embeddings
  | S fuel' =>
      if i <? Z.of_nat (length cleanTexts) then
        let batch := sliceList cleanTexts i (i + maxBatchSize) in
        let fallback :=
          (embeddings ++ fallbackBatch random calls batch,
           (calls + defaultDimensions * length batch)%nat) in
        let '(embeddings', calls') :=
          match callJinaAPI svc jina batch with
          | Ok (Some data) =>
              if (length data =? length batch)%nat
              then (embeddings ++ data, calls)
              else fallback
          | Ok None => fallback
          | Throw _ => fallback
          end in
        batchLoop fuel' svc jina random cleanTexts (i + maxBatchSize) calls'
                  embeddings'
      else embeddings
  end.

Definition generateBatchEmbeddings (svc : t) (jina : Jina F)
    (random : nat -> F) (texts : list string) : Result (list (list F)) :=
  if (length texts =? 0)%nat then Throw "Texts must be a non-empty array"
  else
    let cleanTexts := map preprocessText texts in
    Ok (batchLoop (length cleanTexts) svc jina random cleanTexts 0 0%nat []).

End WithFloat.
End EmbeddingBatch.

(** A predicate on the characters of a string. *)
Module Text.

Fixpoint allChars (P : ascii -> Prop) (s : string) : Prop :=
  match s with
  | EmptyString => True
  | String c r => P c /\ allChars P r
  end.

(** White space has been normalised: the only white-space character
    left is the plain space. *)
Definition plainSpaces (s : string) : Prop :=
  allChars (fun c => Js.isSpace c = true -> c = " "%char) s.

End Text.

(** The position of a character in the Base64 alphabet. *)
Module Base64Index.

Fixpoint indexOf (c : ascii) (s : string) : nat :=
  match s with
  | EmptyString => 0
  | String c' r => if Ascii.eqb c c' then 0 else S (indexOf c r)
  end.

Definition valueOf (c : ascii) : nat := indexOf c Base64.alphabet.

End Base64Index.

Module SessionShape.
Section WithFloat.
Context {F : Type}.

(** At the given time the key is free or holds a hash. *)
Definition hashOrFree (r : Redis.t F) (now : Z) (key : string) : Prop :=
  match Redis.live now (Redis.keys r) key with
  | Some (Redis.mkEntry (Redis.RHash _) _) => True
  | Some _ => False
  | None => True
  end.

(** An entry is live as long as its time has not run out. *)
Definition unexpired (now : Z) (e : Redis.Entry F) : Prop :=
  match Redis.expiresAt e with
  | Some at_ => (at_ <? now) = false
  | None => True
  end.

End WithFloat.
End SessionShape.

(** ** Start-up of the generation gateway (the GeminiService class) *)

Module GeminiInit.
Import GeminiService.

(** What [model.generateContent] does at one request: it answers with a
    text or throws. *)
Inductive ApiReply :=
| ApiText (text : string)
| ApiThrows (message : string).

(** The generative API over time: its reply to the request number [n]. *)
Definition Api : Type := nat -> ApiReply.

(** The service object and the number of requests sent so far. *)
Definition St : Type := GeminiService.t * nat.

Definition getService : M St GeminiService.t := fun s => (Ok (fst s), s).
Definition setModel (b : bool) : M St unit :=
  fun '(svc, calls) => (Ok tt, (mk (apiKey svc) b (isInitialized svc), calls)).
Definition setIsInitialized (b : bool) : M St unit :=
  fun '(svc, calls) => (Ok tt, (mk (apiKey svc) (model svc) b, calls)).

(** One request of [testConnection]: the text must not be empty. *)
Definition testRequest (api : Api) : M St unit :=
  fun '(svc, calls) =>
    match api calls with
    | ApiText text =>
        if 0 <? Js.len text then (Ok tt, (svc, S calls))
        else (Throw "Empty response from Gemini API", (svc, S calls))
    | ApiThrows message => (Throw message, (svc, S calls))
    end.

(** The [while (retries > 0)] loop of [testConnection]: an error whose
    message contains 503 is retried while [retries > 1]. *)
Fixpoint testLoop (api : Api) (retries : nat) : M St bool :=
  match retries with
  | O => ret false   (* the loop ends without [return] *)
  | S retries' =>
      tryCatch
        (run testRequest api in ret true)
        (fun message =>
           if Js.includes "503" message && (1 <? retries)%nat
           then testLoop api retries'
           else throw message)
  end.

(** The outer [catch] logs and rethrows. *)
Definition testConnection (api : Api) : M St bool := testLoop api 3.

Definition initializeFallback : M St unit :=
  run setModel false in setIsInitialized true.

Definition initialize (api : Api) : M St unit :=
  tryCatch
    (await svc := getService in
     if String.eqb (apiKey svc) "" then throw "Gemini API key not configured"
     else
       run setModel true in
       run testConnection api in
       setIsInitialized true)
    (fun _ => initializeFallback).

End GeminiInit.

Module ChatRecord.
Section WithFloat.
Context {F : Type}.
Import RAGService.

(** The key-value client of [w1] is in fallback mode with the in-process
    chat logs of [w0], and Redis is as in [w0]. *)
Definition sameLogs (w0 w1 : World F) : Prop :=
  RedisClient.fallbackMode (redisClient w1) = true
  /\ RedisClient.inMemoryLists (redisClient w1)
     = RedisClient.inMemoryLists (redisClient w0)
  /\ redis w1 = redis w0.

(** A computation on the client that, in fallback mode, returns and
    leaves the in-process chat logs, the mode and Redis as they are. *)
Definition keepsLogs {A} (m : M (RedisClient.St F) A) : Prop :=
  forall rc r,
    RedisClient.fallbackMode rc = true ->
    exists a rc',
      m (rc, r) = (Ok a, (rc', r))
      /\ RedisClient.fallbackMode rc' = true
      /\ RedisClient.inMemoryLists rc' = RedisClient.inMemoryLists rc.

(** The exchange has been recorded: in [w1] the in-process chat log of
    the session is the log of [w0] with the user's message and then the
    reply put in front, cut to the limit; the client is in fallback mode
    and Redis is as in [w0]. *)
Definition recorded (config : Config) (w0 w1 : World F)
    (sessionId query : string) (now : Z) (reply : Message F) : Prop :=
  ChatLog.logOf (redisClient w1) sessionId
    = take (Z.to_nat (chatHistoryLimit config))
           (reply :: userMessage query now
              :: ChatLog.logOf (redisClient w0) sessionId)
  /\ redis w1 = redis w0
  /\ RedisClient.fallbackMode (redisClient w1) = true.

End WithFloat.
End ChatRecord.

(** ** The chat history as the query service returns it
       (services/ragService.js) *)

Module RAGHistory.
Section WithFloat.
Context {F : Type}.

(** The object that [getChatHistory] builds from a stored message:
    [role || 'user'], the content and the time stamp (a stored message
    always has one), the sources when the message has any, the number of
    context documents when it is not 0; the [error] mark is not copied. *)
Definition normalize (msg : Message F) : Message F :=
  mkMessage (if String.eqb (role msg) "" then "user" else role msg)
            (content msg) (timestamp msg) (msg_sources msg)
            match msg_contextUsed msg with
            | Some O => None
            | other => other
            end
            false.

(** The definition of [getChatHistory] that is in force, the second one
    of the class. *)
Definition getChatHistory (sessionId : string) (limit now : Z)
    : M (RedisClient.St F) (list (Message F)) :=
  tryCatch
    (if String.eqb sessionId "" then throw "Session ID is required"
     else
       await history := RedisClient.getChatHistory sessionId limit now in
       ret (map normalize history))
    (fun _ => ret []).

End WithFloat.
End RAGHistory.

(** ** Session activity (services/ragService.js) and the chat route
       (routes/chat.js) *)

Module RAGSessions.
Section WithFloat.
Context {F : Type}.

(** [60 * 60 * 24 * 7]: one week, in seconds. *)
Definition week : Z := 60 * 60 * 24 * 7.

(** [updateSessionActivity].  What [getSession] finds under a session
    key is a session object, whose fields are read as in [getSession]
    itself; the numbers it holds are written in decimal, as in
    [sessionFields]. *)
Definition updateSessionActivity (sessionId : string) (now : Z)
    : M (RedisClient.St F) unit :=
  if String.eqb sessionId "" then ret tt
  else
    tryCatch
      (await found := RedisClient.getSession sessionId now in
       let session :=
         match found with
         | Some d => RedisClient.sessionOf d
         | None => {[ "id" := sessionId; "lastActivity" := pretty now ]}
         end in
       let session := <["lastActivity" := pretty now]> session in
       RedisClient.setSession sessionId session week now)
      (fun _ => ret tt).

End WithFloat.
End RAGSessions.

Module ChatRoute.
Section WithFloat.
Context {F : Type} `{Float F}.
Variable config : Config.
Import RAGService.

(** What the handler of [POST /message] sends back. *)
Inductive Reply :=
| BadRequest (error : string)          (* status 400 *)
| Answer (response : QueryResult F)    (* status 200 *)
| ServerError (error : string).        (* status 500 *)

(** [options = {}] in the destructuring of the request body. *)
Definition optionsOrEmpty (options : OptionsArg F) : OptionsArg F :=
  match options with
  | OptionsOmitted => OptionsObject None None None None
  | given => given
  end.

(** The handler of [POST /message]; [message], [sessionId] and [options]
    are the members of the request body, [None] and [OptionsOmitted] when
    the body lacks them. *)
Definition postMessage (isInitialized : bool) (env : Env F)
    (message sessionId : option string) (options : OptionsArg F) (now : Z)
    (w : World F) : Reply * World F :=
  if negb (truthy message) || negb (truthy sessionId)
  then (BadRequest "Message and sessionId are required", w)
  else
    let message := default "" message in
    let sessionId := default "" sessionId in
    if Js.len (Js.trim message) =? 0
    then (BadRequest "Message must be a non-empty string", w)
    else if 1000 <? Js.len message
    then (BadRequest "Message too long (max 1000 characters)", w)
    else
      match (run liftRedis (RAGSessions.updateSessionActivity sessionId now) in
             processQuery config isInitialized env (Js.trim message) sessionId
                          (optionsOrEmpty options) now) w with
      | (Ok response, w') => (Answer response, w')
      | (Throw error, w') => (ServerError error, w')
      end.

End WithFloat.
Arguments Reply F : clear implicits.
End ChatRoute.

(** The contexts that the fallback generator can group by source: no
    article names an inherited member of the accumulator as its
    source. *)
Module Grouping.
Section WithFloat.
Context {F : Type}.

Definition groupable (context : list (VectorStore.SearchResult F)) : Prop :=
  Forall (fun item =>
            GeminiService.sourceKey item ∉ GeminiService.objectPrototypeMembers)
         context.

End WithFloat.
End Grouping.

(** Properties of the whole state of the key-value client, the Redis
    server included, that a computation keeps. *)
Module StateProps.
Section WithFloat.
Context {F : Type}.

Definition keeps {A} (P : RedisClient.St F -> Prop) (m : M (RedisClient.St F) A)
    : Prop :=
  forall st, P st -> P (snd (m st)).

(** The key a command works on. *)
Definition keyOf (c : Redis.Command F) : string :=
  match c with
  | Redis.HSET key _ | Redis.EXPIRE key _ | Redis.TYPE key | Redis.HGETALL key
  | Redis.GET key | Redis.DEL key | Redis.LPUSH key _ | Redis.LTRIM key _ _
  | Redis.LRANGE key _ _ | Redis.SETEX key _ _ => key
  end.

(** The cache entry of [key] in the in-process store is the one written,
    or it was removed by a read that found it expired. *)
Definition heldInProcess (key : string) (v : StoreData F) (expiry readTime : Z)
    (m : gmap string (RedisClient.Stored F)) : Prop :=
  m !! key = Some (RedisClient.mkStored v expiry)
  \/ (expiry < readTime /\ m !! key = None).

(** What the two stores hold under [key]: a property of the in-process
    map, and the entry of the Redis server. *)
Definition entryKept (holds : gmap string (RedisClient.Stored F) -> Prop)
    (key : string) (entry : option (Redis.Entry F)) (st : RedisClient.St F)
    : Prop :=
  holds (RedisClient.inMemoryStore (fst st))
  /\ Redis.keys (snd st) !! key = entry.

End WithFloat.
End StateProps.

(** The hash of an id string in closed form: the polynomial
    [c0 * 31^(n-1) + c1 * 31^(n-2) + ... + c(n-1)] of its code units. *)
Module HashSpec.

Fixpoint polynomial (codes : list Z) : Z :=
  match codes with
  | [] => 0
  | c :: rest => c * 31 ^ Z.of_nat (length rest) + polynomial rest
  end.

End HashSpec.

(* ===================================================================== *)
(** * Facts *)
(* ===================================================================== *)

Module JsFacts.

Lemma drop_length n s : String.length (Js.drop n s) = (String.length s - n)%nat.
Proof.
  revert s; induction n as [|n IH]; intros [|c r]; simpl; auto with arith.
Qed.

Lemma lastIndexFrom_bounds pat s k : -1 <= Js.lastIndexFrom pat s k <= Z.of_nat k.
Proof.
  induction k as [|k IH]; cbn [Js.lastIndexFrom];
    destruct (String.prefix pat _); lia.
Qed.

Lemma lastIndexOf_lower pat s pos : -1 <= Js.lastIndexOf pat s pos.
Proof.
  unfold Js.lastIndexOf.
  destruct (_ <? _)%nat; [lia|].
  apply lastIndexFrom_bounds.
Qed.

(** A match of a non-empty pattern starts before the end of the text. *)
Lemma lastIndexOf_upper pat s pos :
  (0 < String.length pat)%nat -> Js.lastIndexOf pat s pos < Js.len s.
Proof.
  intros Hm. unfold Js.lastIndexOf, Js.len.
  destruct (String.length s <? String.length pat)%nat eqn:E; [lia|].
  apply Nat.ltb_ge in E.
  set (k := match pos with
            | None => _
            | Some p => _
            end).
  pose proof (lastIndexFrom_bounds pat s k) as Hb.
  assert (k < String.length s)%nat by (subst k; destruct pos; lia).
  lia.
Qed.

Lemma toInt32_range x : - 2 ^ 31 <= Js.toInt32 x < 2 ^ 31.
Proof.
  unfold Js.toInt32.
  pose proof (Z.mod_pos_bound (x + 2 ^ 31) (2 ^ 32) ltac:(lia)). lia.
Qed.

(** The product of a non-negative integer with [0.7] is not negative. *)
Lemma round53_nonneg p : 0 <= p -> 0 <= Js.round53 p.
Proof.
  intros Hp. unfold Js.round53.
  destruct (Z.log2 p - 52 <=? 0); [exact Hp|].
  assert (0 <= Z.shiftr p (Z.log2 p - 52)) by now apply Z.shiftr_nonneg.
  destruct (_ || _); apply Z.shiftl_nonneg; lia.
Qed.

Lemma timesSevenTenths_nonneg n : 0 <= n -> 0 <= Js.timesSevenTenths n.
Proof.
  intros Hn. unfold Js.timesSevenTenths.
  pose proof (round53_nonneg (Z.abs n * Js.sevenTenths)
                ltac:(unfold Js.sevenTenths; lia)).
  pose proof (Z.sgn_nonneg n). nia.
Qed.

End JsFacts.

Module ChunkerFacts.
Import Chunker.

Lemma len_append s1 s2 : Js.len (s1 +:+ s2) = Js.len s1 + Js.len s2.
Proof.
  unfold Js.len. induction s1 as [|c s1 IH].
  - change ("" +:+ s2) with s2. simpl. lia.
  - change (String c s1 +:+ s2) with (String c (s1 +:+ s2)).
    simpl String.length. lia.
Qed.

Lemma len_nonneg s : 0 <= Js.len s.
Proof. unfold Js.len; lia. Qed.

Lemma fullText_nonempty article : 0 < Js.len (fullTextOf article).
Proof.
  unfold fullTextOf. rewrite !len_append.
  pose proof (len_nonneg (art_title article)).
  pose proof (len_nonneg (art_description article)).
  pose proof (len_nonneg (art_content article)).
  change (Js.len nl) with 1. lia.
Qed.

(** One iteration of [createTextChunksWithOverlap] moves [start] forward
    by at least [chunkSize - overlap]. *)
Lemma nextStart_increases text chunkSize overlap start :
  overlap < chunkSize -> start < nextStart text chunkSize overlap start.
Proof. unfold nextStart; lia. Qed.

Lemma overlapLoop_terminates articleId text chunkSize overlap :
  overlap < chunkSize ->
  forall fuel start chunkIndex chunks,
    (Z.to_nat (Js.len text - start) < fuel)%nat ->
    is_Some (overlapLoop fuel articleId text chunkSize overlap start
                         chunkIndex chunks).
Proof.
  intros Hlt fuel; induction fuel as [|fuel IH]; intros start ci cs Hf; [lia|].
  cbn [overlapLoop].
  destruct (start <? Js.len text) eqn:E; [|eauto].
  apply Z.ltb_lt in E.
  destruct (Js.len text <=? _) eqn:E2; [eauto|].
  apply Z.leb_gt in E2.
  apply IH.
  pose proof (nextStart_increases text chunkSize overlap start Hlt). lia.
Qed.

Lemma overlapLoop_fuel_mono articleId text chunkSize overlap r :
  forall fuel start chunkIndex chunks,
    overlapLoop fuel articleId text chunkSize overlap start chunkIndex chunks
      = Some r ->
    forall fuel', (fuel <= fuel')%nat ->
    overlapLoop fuel' articleId text chunkSize overlap start chunkIndex chunks
      = Some r.
Proof.
  induction fuel as [|fuel IH]; intros start ci cs H fuel' Hle; [discriminate|].
  destruct fuel' as [|fuel']; [lia|].
  cbn [overlapLoop] in *.
  destruct (start <? Js.len text); [|exact H].
  destruct (Js.len text <=? _); [exact H|].
  apply IH with (fuel' := fuel') in H; [exact H|lia].
Qed.

(** The result of [createTextChunksWithOverlap] exists and does not
    depend on the fuel once the fuel exceeds the length of the text. *)
Lemma createTextChunksWithOverlap_total article chunkSize overlap :
  overlap < chunkSize ->
  exists chunks, forall fuel,
    (Z.to_nat (Js.len (art_title article +:+ nl +:+ nl +:+ art_content article))
       < fuel)%nat ->
    createTextChunksWithOverlap fuel article chunkSize overlap = Some chunks.
Proof.
  intros Hlt. unfold createTextChunksWithOverlap.
  set (text := art_title article +:+ nl +:+ nl +:+ art_content article).
  destruct (Js.len text <=? chunkSize); [eauto|].
  destruct (overlapLoop_terminates (art_id article) text chunkSize overlap Hlt
              (S (Z.to_nat (Js.len text))) 0 0%nat []) as [r Hr]; [lia|].
  exists r. intros fuel Hf.
  eapply overlapLoop_fuel_mono; [exact Hr|lia].
Qed.

Lemma chunkEndOf_le_len fullText maxChunkSize start :
  chunkEndOf fullText maxChunkSize start <= Js.len fullText.
Proof.
  unfold chunkEndOf.
  set (end_ := Z.min (start + maxChunkSize) (Js.len fullText)).
  assert (end_ <= Js.len fullText) by (subst end_; lia).
  destruct (end_ <? Js.len fullText); [|lia].
  destruct (_ <? _); [|lia].
  pose proof (JsFacts.lastIndexOf_upper "." fullText (Some end_)) as H1.
  pose proof (JsFacts.lastIndexOf_upper nl fullText (Some end_)) as H2.
  cbn in H1, H2. lia.
Qed.

(** With a positive overlap the loop of [createTextChunks] can take
    neither of its two exits: the next start stays below the end of the
    text and below the chunk end. *)
Lemma chunkLoop_diverges articleId fullText maxChunkSize overlap :
  0 < overlap ->
  forall fuel start chunkIndex chunks,
    start < Js.len fullText ->
    chunkLoop fuel articleId fullText maxChunkSize overlap start
              chunkIndex chunks = None.
Proof.
  intros Hov fuel; induction fuel as [|fuel IH]; intros start ci cs Hs;
    [reflexivity|].
  cbn [chunkLoop].
  apply Z.ltb_lt in Hs as Hs'. rewrite Hs'.
  pose proof (chunkEndOf_le_len fullText maxChunkSize start) as Hce.
  destruct (_ <=? _) eqn:E; [apply Z.leb_le in E; lia|].
  apply IH. lia.
Qed.

Lemma createTextChunks_diverges article maxChunkSize overlap fuel :
  0 < overlap ->
  createTextChunks fuel article maxChunkSize overlap = None.
Proof.
  intros Hov. unfold createTextChunks.
  apply chunkLoop_diverges; [exact Hov|apply fullText_nonempty].
Qed.

(** The 70% test follows binary64: [90 * 0.7] is a little less than 63,
    so that 63 passes for a chunk size of 90, while [500 * 0.7] is 350,
    so that 350 does not pass for the default chunk size and 351 does. *)
Lemma above70_binary64 :
  Chunker.above70 63 90 = true
  /\ Chunker.above70 350 500 = false
  /\ Chunker.above70 351 500 = true.
Proof. repeat split; reflexivity. Qed.

(** A sentence end that passes the 70% test of a non-negative chunk
    size lies after the first character. *)
Lemma above70_positive lastSentenceEnd chunkSize :
  0 <= chunkSize ->
  Chunker.above70 lastSentenceEnd chunkSize = true -> 0 < lastSentenceEnd.
Proof.
  intros Hc Ha. unfold Chunker.above70 in Ha. apply Z.ltb_lt in Ha.
  pose proof (JsFacts.timesSevenTenths_nonneg chunkSize Hc). nia.
Qed.

End ChunkerFacts.

Module VectorStoreFacts.
Section WithFloat.
Context {F : Type} `{Float F}.
Import VectorStore.

Lemma mapSet_length_present {V} (k : string) (v : V) (m : list (string * V)) :
  In k (map fst m) -> length (mapSet k v m) = length m.
Proof.
  induction m as [|[k' v'] m IH]; simpl; [tauto|].
  intros Hin. destruct (String.eqb k k') eqn:E; simpl; [reflexivity|].
  f_equal. apply IH. destruct Hin as [->|Hin]; [|exact Hin].
  rewrite String.eqb_refl in E. discriminate.
Qed.

Lemma mapSet_In {V} (k : string) (v : V) (m : list (string * V)) :
  In k (map fst (mapSet k v m)).
Proof.
  induction m as [|[k' v'] m IH]; simpl; [auto|].
  destruct (String.eqb k k') eqn:E; simpl; auto.
Qed.

Lemma mapSet_lookup {V} (k : string) (v : V) (m : list (string * V)) :
  In (k, v) (mapSet k v m).
Proof.
  induction m as [|[k' v'] m IH]; simpl; [auto|].
  destruct (String.eqb k k') eqn:E; simpl; auto.
Qed.

(** [upsertVector] rejects a vector of the wrong length before it touches
    the store or the client. *)
Lemma upsertVector_rejects_mismatch (data : VectorData F) (st : St F) :
  length (vd_vector data) <> vectorSize (fst st) ->
  exists message, upsertVector data st = (Throw message, st).
Proof.
  intros Hne. destruct st as [vs q]. unfold upsertVector, bind, getStore. simpl.
  destruct (isInitialized vs); simpl; [|eexists; reflexivity].
  destruct (String.eqb (vd_id data) ""); [eexists; reflexivity|].
  destruct (Nat.eqb_spec (length (vd_vector data)) (vectorSize vs));
    [contradiction|].
  simpl. eexists; reflexivity.
Qed.

(** What a successful [upsertVector] on the in-process store leaves. *)
Lemma upsertVector_inMemory (data : VectorData F) (vs : t F) (q : Qdrant F) st' :
  client vs = false ->
  upsertVector data (vs, q) = (Ok tt, st') ->
  exists m,
    inMemoryVectors vs = Some m /\
    st' = (mk false (vectorSize vs) true
              (Some (mapSet (vd_id data) (vd_vector data, vd_payload data) m)), q).
Proof.
  intros Hc. unfold upsertVector, bind, getStore. simpl.
  destruct (isInitialized vs) eqn:Ei; simpl; [|discriminate].
  destruct (String.eqb (vd_id data) ""); [discriminate|].
  destruct (negb _); [discriminate|].
  rewrite Hc.
  destruct (inMemoryVectors vs) as [m|]; [|discriminate].
  unfold setStore; simpl. intros [= <-]. exists m. auto.
Qed.

End WithFloat.
End VectorStoreFacts.

Module EmbeddingFacts.
Section WithFloat.
Context {F : Type} `{Float F}.
Import EmbeddingService.

Lemma histogram_length dimensions text (embedding : list F) :
  length (histogram dimensions text embedding) = length embedding.
Proof.
  revert embedding; induction text as [|c r IH]; intros embedding; simpl;
    [reflexivity|].
  rewrite IH. apply length_alter.
Qed.

(** The fallback embedding has as many components as asked for. *)
Lemma generateFallbackEmbedding_length random text dimensions :
  length (generateFallbackEmbedding random text dimensions) = dimensions.
Proof.
  unfold generateFallbackEmbedding. rewrite length_imap.
  destruct (fltb _ _); rewrite ?length_map, histogram_length;
    apply length_replicate.
Qed.

End WithFloat.
End EmbeddingFacts.

Module SourcesFacts.
Section WithFloat.
Context {F : Type} `{Float F}.
Import RAGService SourcesSpec.

Lemma sliceList_prefix {A} (l : list A) (n : Z) :
  0 <= n -> sliceList l 0 n = take (Z.to_nat n) l.
Proof.
  intros Hn. unfold sliceList, Js.clampIndex.
  destruct (0 <? 0) eqn:E0; [discriminate|].
  destruct (n <? 0) eqn:En; [apply Z.ltb_lt in En; lia|].
  replace (Z.to_nat (Z.min 0 (Z.of_nat (length l)))) with 0%nat by lia.
  rewrite drop_0.
  replace (Z.to_nat (Z.min n (Z.of_nat (length l)) - Z.min 0 (Z.of_nat (length l))))
    with (Nat.min (Z.to_nat n) (length l)) by lia.
  rewrite <- (take_take l (Z.to_nat n) (length l)), firstn_all. reflexivity.
Qed.

Lemma extractLoop_spec (results : list (VectorStore.SearchResult F)) :
  forall seenUrls sources,
    extractLoop results seenUrls sources
      = sources ++ firstByUrl seenUrls (omap candidate results).
Proof.
  induction results as [|result rest IH]; intros seen acc; simpl.
  - now rewrite app_nil_r.
  - unfold candidate at 1.
    destruct (VectorStore.payload result) as [p|]; [|apply IH].
    destruct (VectorStore.articleUrl p) as [url|]; [|apply IH].
    destruct (String.eqb url ""); simpl; [apply IH|].
    destruct (bool_decide (url ∈ seen)); simpl; [apply IH|].
    rewrite IH, <- app_assoc. reflexivity.
Qed.

(** [extractSources] computes what the specification describes. *)
Lemma extractSources_refines (results : list (VectorStore.SearchResult F)) :
  extractSources results = specSources results.
Proof.
  unfold extractSources, specSources.
  rewrite extractLoop_spec, sliceList_prefix by lia. reflexivity.
Qed.

Lemma firstByUrl_sublist (candidates : list (Source F)) :
  forall seen, firstByUrl seen candidates `sublist_of` candidates.
Proof.
  induction candidates as [|s rest IH]; intros seen; simpl; [constructor|].
  destruct (bool_decide _); [apply sublist_cons, IH|apply sublist_skip, IH].
Qed.

Lemma firstByUrl_fresh (candidates : list (Source F)) :
  forall seen s, s ∈ firstByUrl seen candidates -> src_url s ∉ seen.
Proof.
  induction candidates as [|c rest IH]; intros seen s; simpl.
  - intros Hin. inversion Hin.
  - destruct (bool_decide_reflect (src_url c ∈ seen)) as [Hc|Hc]; [apply IH|].
    intros Hin. apply elem_of_cons in Hin as [->|Hin]; [exact Hc|].
    apply IH in Hin. set_solver.
Qed.

Lemma firstByUrl_NoDup (candidates : list (Source F)) :
  forall seen, NoDup (src_url <$> firstByUrl seen candidates).
Proof.
  induction candidates as [|c rest IH]; intros seen; simpl; [constructor|].
  destruct (bool_decide _); [apply IH|].
  rewrite fmap_cons. constructor; [|apply IH].
  intros Hin. apply list_elem_of_fmap in Hin as (s & Hs & Hin).
  apply firstByUrl_fresh in Hin. set_solver.
Qed.

Lemma firstByUrl_complete (candidates : list (Source F)) :
  forall seen s,
    s ∈ candidates ->
    src_url s ∈ seen \/ src_url s ∈ (src_url <$> firstByUrl seen candidates).
Proof.
  induction candidates as [|c rest IH]; intros seen s Hin; [inversion Hin|].
  simpl. apply elem_of_cons in Hin as [->|Hin].
  - destruct (bool_decide_reflect (src_url c ∈ seen)); [auto|].
    right. rewrite fmap_cons. apply elem_of_cons. auto.
  - destruct (bool_decide_reflect (src_url c ∈ seen)); [apply IH, Hin|].
    destruct (IH ({[src_url c]} ∪ seen) s Hin) as [Hs|Hs].
    + apply elem_of_union in Hs as [Hs|Hs]; [|auto].
      apply elem_of_singleton in Hs. right. rewrite fmap_cons, Hs.
      apply elem_of_cons; auto.
    + right. rewrite fmap_cons. apply elem_of_cons; auto.
Qed.

Lemma candidate_origin (result : VectorStore.SearchResult F) (s : Source F) :
  candidate result = Some s ->
  exists p,
    VectorStore.payload result = Some p
    /\ VectorStore.articleUrl p = Some (src_url s)
    /\ src_url s <> ""
    /\ relevanceScore s = VectorStore.score result.
Proof.
  unfold candidate.
  destruct (VectorStore.payload result) as [p|]; [|discriminate].
  destruct (VectorStore.articleUrl p) as [url|] eqn:Eu; [|discriminate].
  destruct (String.eqb_spec url ""); [discriminate|].
  intros [= <-]. exists p. simpl. auto.
Qed.

End WithFloat.
End SourcesFacts.

Module RedisClientFacts.
Section WithFloat.
Context {F : Type}.
Variable config : Config.
Import RedisClient ClientProps.

Lemma inProcess_store key d ttl now :
  inProcess (F:=F) (storeInMemory key d ttl now).
Proof. intros rc r. eexists _, _. split; [reflexivity|]. simpl. auto. Qed.

Lemma inProcess_read key now : inProcess (F:=F) (readInMemory key now).
Proof.
  intros rc r. unfold readInMemory, bind, getSelf, ret, update. simpl.
  destruct (inMemoryStore rc !! key) as [stored|]; simpl.
  - destruct (expires stored <? now); eexists _, _; (split; [reflexivity|]);
      simpl; auto.
  - eexists _, _; split; [reflexivity|]; auto.
Qed.

Lemma inProcess_updateStore (f : gmap string (Stored F) -> gmap string (Stored F)) :
  inProcess (update (fun rc => setInMemoryStore (f (inMemoryStore rc)) rc)).
Proof. intros rc r. eexists _, _. split; [reflexivity|]. simpl. auto. Qed.

Lemma inProcess_updateLists
    (f : gmap string (list (Message F)) -> gmap string (list (Message F))) :
  inProcess (update (fun rc => setInMemoryLists (f (inMemoryLists rc)) rc)).
Proof. intros rc r. eexists _, _. split; [reflexivity|]. simpl. auto. Qed.

Lemma inProcess_history sessionId limit :
  inProcess (F:=F)
    (await rc := getSelf in
     let list := default [] (inMemoryLists rc !! chatKey sessionId) in
     ret (rev (sliceList list 0 limit))).
Proof. intros rc r. eexists _, _. split; [reflexivity|]. auto. Qed.

(** In fallback mode a method is its in-process branch. *)
Lemma dispatch_fallback {A} (ip nw : M (St F) A) rc r :
  fallbackMode rc = true -> dispatch ip nw (rc, r) = ip (rc, r).
Proof. intros Hf. unfold dispatch, bind, getSelf. simpl. now rewrite Hf. Qed.

Lemma enterFallback_eq {A} (ip : M (St F) A) rc r :
  enterFallback ip (rc, r) = ip (setFallbackMode true rc, r).
Proof. reflexivity. Qed.

(** Whatever the networked branch does, a method returns. *)
Lemma dispatch_returns {A} (ip nw : M (St F) A) :
  inProcess ip -> forall st, exists a st', dispatch ip nw st = (Ok a, st').
Proof.
  intros Hip [rc r]. unfold dispatch, bind at 1, getSelf, tryCatch.
  cbn [fst snd].
  destruct (fallbackMode rc).
  - destruct (Hip rc r) as (a & rc' & -> & _). eauto.
  - destruct (getClient rc).
    + destruct (nw (rc, r)) as [[a|e] [rc1 r1]]; [eauto|].
      rewrite enterFallback_eq.
      destruct (Hip (setFallbackMode true rc1) r1) as (a & rc' & -> & _). eauto.
    + rewrite enterFallback_eq.
      destruct (Hip (setFallbackMode true rc) r) as (a & rc' & -> & _).
      eauto.
Qed.

Lemma setSession_returns sessionId d ttl now (st : St F) :
  exists st', setSession sessionId d ttl now st = (Ok tt, st').
Proof.
  destruct st as [rc r]. unfold setSession, bind, getSelf, tryCatch. simpl.
  destruct (fallbackMode rc); [eexists; reflexivity|].
  destruct (command now _ (rc, r)) as [[a|e] [rc1 r1]]; [|eexists; reflexivity].
  destruct (command now _ (rc1, r1)) as [[a'|e] [rc2 r2]]; eexists; reflexivity.
Qed.

Lemma readInMemory_returns key now (st : St F) :
  exists a st', readInMemory key now st = (Ok a, st').
Proof.
  destruct st as [rc r].
  destruct (inProcess_read key now rc r) as (a & rc' & -> & _). eauto.
Qed.

Lemma getSession_returns sessionId now (st : St F) :
  exists a st', getSession sessionId now st = (Ok a, st').
Proof.
  destruct st as [rc r]. unfold getSession, bind at 1, getSelf. cbn [fst snd].
  destruct (fallbackMode rc); [apply readInMemory_returns|].
  unfold tryCatch, bind.
  destruct (command now (Redis.TYPE _) (rc, r)) as [[keyType|e] st1];
    [|apply readInMemory_returns].
  destruct (String.eqb (typeName keyType) "hash").
  { destruct (command now (Redis.HGETALL _) st1) as [[hashData|e] st2];
      [|apply readInMemory_returns].
    destruct hashData; eexists _, _; reflexivity. }
  destruct (String.eqb (typeName keyType) "string"); [|eexists _, _; reflexivity].
  destruct (command now (Redis.GET _) st1) as [[stringData|e] st2];
    [|apply readInMemory_returns].
  destruct stringData as [| | |[parsedData|]|];
    try (eexists _, _; reflexivity).
  destruct (command now (Redis.DEL _) st2) as [[x|e] st3];
    [|apply readInMemory_returns].
  destruct (setSession_returns sessionId (sessionOf parsedData)
              defaultSessionTtl now st3) as (st4 & ->).
  eexists _, _; reflexivity.
Qed.

End WithFloat.
End RedisClientFacts.

Module ClientRunFacts.
Section WithFloat.
Context {F : Type}.
Variable config : Config.
Import RedisClient ClientProps ClientRun RedisClientFacts.

Ltac solve_inProcess :=
  let rc := fresh "rc" in
  let r := fresh "r" in
  intros rc r; eexists _, _; split; [reflexivity|simpl; auto].

(** A method called in fallback mode returns, stays in fallback mode and
    leaves the Redis server, its log included, as it was. *)
Lemma dispatch_in_fallback {A} (ip nw : M (St F) A) rc r :
  inProcess ip ->
  fallbackMode rc = true ->
  exists a rc',
    dispatch ip nw (rc, r) = (Ok a, (rc', r)) /\ fallbackMode rc' = true.
Proof.
  intros Hip Hf. rewrite dispatch_fallback by exact Hf.
  destruct (Hip rc r) as (a & rc' & -> & Hf' & _).
  exists a, rc'. split; [reflexivity|congruence].
Qed.

Lemma call_in_fallback (op : Op F) now rc r :
  fallbackMode rc = true ->
  exists rc', call config op now (rc, r) = (true, (rc', r))
              /\ fallbackMode rc' = true.
Proof.
  intros Hf. destruct op; cbn [call].
  - unfold setSession, bind, getSelf. cbn [fst snd]. rewrite Hf.
    eexists; split; [reflexivity|exact Hf].
  - unfold getSession, bind at 1, getSelf. cbn [fst snd]. rewrite Hf.
    destruct (inProcess_read (sessionKey sessionId) now rc r)
      as (a & rc' & -> & Hf' & _).
    eexists; split; [reflexivity|congruence].
  - unfold deleteSession.
    edestruct (@dispatch_in_fallback unit) as (a & rc' & -> & Hf');
      [|exact Hf|eexists; split; [reflexivity|exact Hf']].
    solve_inProcess.
  - unfold addMessage.
    edestruct (@dispatch_in_fallback unit) as (a & rc' & -> & Hf');
      [|exact Hf|eexists; split; [reflexivity|exact Hf']].
    solve_inProcess.
  - unfold getChatHistory.
    edestruct (@dispatch_in_fallback (list (Message F))) as (a & rc' & -> & Hf');
      [|exact Hf|eexists; split; [reflexivity|exact Hf']].
    solve_inProcess.
  - unfold clearChatHistory.
    edestruct (@dispatch_in_fallback unit) as (a & rc' & -> & Hf');
      [|exact Hf|eexists; split; [reflexivity|exact Hf']].
    solve_inProcess.
  - unfold cacheQueryResult.
    edestruct (@dispatch_in_fallback unit) as (a & rc' & -> & Hf');
      [|exact Hf|eexists; split; [reflexivity|exact Hf']].
    apply inProcess_store.
  - unfold getCachedQueryResult.
    edestruct (@dispatch_in_fallback (option (StoreData F)))
      as (a & rc' & -> & Hf');
      [|exact Hf|eexists; split; [reflexivity|exact Hf']].
    apply inProcess_read.
Qed.

(** No data-path method throws, in either mode. *)
Lemma call_returns (op : Op F) now st : fst (call config op now st) = true.
Proof.
  destruct op; cbn [call].
  - destruct (setSession_returns sessionId d ttl now st) as (st' & ->).
    reflexivity.
  - destruct (getSession_returns sessionId now st) as (a & st' & ->).
    reflexivity.
  - unfold deleteSession.
    edestruct (@dispatch_returns F unit) as (a & st' & ->); [|reflexivity].
    solve_inProcess.
  - unfold addMessage.
    edestruct (@dispatch_returns F unit) as (a & st' & ->); [|reflexivity].
    solve_inProcess.
  - unfold getChatHistory.
    edestruct (@dispatch_returns F (list (Message F))) as (a & st' & ->);
      [|reflexivity].
    solve_inProcess.
  - unfold clearChatHistory.
    edestruct (@dispatch_returns F unit) as (a & st' & ->); [|reflexivity].
    solve_inProcess.
  - unfold cacheQueryResult.
    edestruct (@dispatch_returns F unit) as (a & st' & ->); [|reflexivity].
    apply inProcess_store.
  - unfold getCachedQueryResult.
    edestruct (@dispatch_returns F (option (StoreData F))) as (a & st' & ->);
      [|reflexivity].
    apply inProcess_read.
Qed.

Lemma handleEvent_keeps_fallback ev (rc : t F) :
  ev <> EvConnect ->
  fallbackMode rc = true ->
  fallbackMode (handleEvent ev rc) = true.
Proof.
  intros Hev Hf. unfold handleEvent, onError, onDisconnect.
  destruct (client rc); [|exact Hf].
  destruct ev; [rewrite Hf; exact Hf|contradiction|reflexivity].
Qed.

Lemma connect_keeps_fallback outcome (rc : t F) :
  outcome <> Accepted ->
  fallbackMode rc = true ->
  fallbackMode (connect outcome rc) = true.
Proof.
  intros Ho Hf. unfold connect.
  destruct (connectionAttempted rc); [exact Hf|].
  destruct outcome; [reflexivity|reflexivity|contradiction].
Qed.

Lemma step_keeps_fallback (a : Action F) rc r :
  emitsConnect a = false ->
  fallbackMode rc = true ->
  fallbackMode (fst (step config a (rc, r))) = true
  /\ snd (step config a (rc, r)) = r.
Proof.
  intros Ha Hf. destruct a as [op now|ev|outcome]; cbn [step fst snd].
  - destruct (call_in_fallback op now rc r Hf) as (rc' & -> & Hf'). auto.
  - split; [|reflexivity]. apply handleEvent_keeps_fallback; [|exact Hf].
    intros ->. discriminate.
  - split; [|reflexivity]. apply connect_keeps_fallback; [|exact Hf].
    intros ->. discriminate.
Qed.

Lemma execute_keeps_fallback (actions : list (Action F)) :
  forall rc r,
    forallb (fun a => negb (emitsConnect a)) actions = true ->
    fallbackMode rc = true ->
    fallbackMode (fst (execute config actions (rc, r))) = true
    /\ snd (execute config actions (rc, r)) = r.
Proof.
  induction actions as [|a rest IH]; intros rc r Hall Hf; [auto|].
  cbn [forallb] in Hall. apply andb_true_iff in Hall as [Ha Hrest].
  apply negb_true_iff in Ha.
  destruct (step_keeps_fallback a rc r Ha Hf) as [Hf1 Hr1].
  unfold execute. cbn [fold_left]. fold (execute config rest (step config a (rc, r))).
  destruct (step config a (rc, r)) as [rc1 r1]. cbn [fst snd] in *. subst r1.
  apply IH; assumption.
Qed.

End WithFloat.
End ClientRunFacts.

Module CacheFacts.
Section WithFloat.
Context {F : Type}.
Import RedisClient ClientProps RedisClientFacts.

Lemma dispatch_networked {A} (ip nw : M (St F) A) rc r :
  fallbackMode rc = false ->
  dispatch ip nw (rc, r)
    = tryCatch (if getClient rc then nw else enterFallback ip)
               (fun _ => enterFallback ip) (rc, r).
Proof. intros Hf. unfold dispatch, bind, getSelf. simpl. now rewrite Hf. Qed.

Lemma getClient_true (rc : t F) :
  getClient rc = true ->
  fallbackMode rc = false /\ client rc = true /\ isConnected rc = true.
Proof.
  unfold getClient. destruct (fallbackMode rc), (client rc), (isConnected rc);
    simpl; intros; try discriminate; auto.
Qed.

Lemma command_client now (c : Redis.Command F) rc r :
  client rc = true ->
  command now c (rc, r) = (fst (Redis.send now c r), (rc, snd (Redis.send now c r))).
Proof.
  intros Hc. unfold command. rewrite Hc. destruct (Redis.send now c r); reflexivity.
Qed.

(** What a read of the cache can do to the two stores: it may drop an
    in-process entry, and changes no entry, in process or in Redis. *)
Lemma getCachedQueryResult_keeps_expiry query now (st : St F) :
  let st' := snd (getCachedQueryResult query now st) in
  inMemoryStore (fst st') ⊆ inMemoryStore (fst st)
  /\ Redis.keys (snd st') = Redis.keys (snd st).
Proof.
  assert (Hread : forall (rc : t F) (r : Redis.t F),
    let st' := snd (readInMemory (queryKey query) now (rc, r)) in
    inMemoryStore (fst st') ⊆ inMemoryStore rc /\ snd st' = r).
  { intros rc r. unfold readInMemory, bind, getSelf, ret, update. simpl.
    destruct (inMemoryStore rc !! queryKey query) as [stored|]; simpl; [|auto].
    destruct (expires stored <? now); simpl; [|auto].
    split; [apply delete_subseteq|reflexivity]. }
  destruct st as [rc r]. cbn zeta. unfold getCachedQueryResult.
  destruct (fallbackMode rc) eqn:Hf.
  { rewrite dispatch_fallback by exact Hf.
    destruct (Hread rc r) as [H1 H2]. cbn [fst snd]. rewrite H2. auto. }
  rewrite dispatch_networked by exact Hf. unfold tryCatch.
  destruct (getClient rc) eqn:Hg.
  - destruct (getClient_true rc Hg) as (_ & Hc & _).
    unfold bind. rewrite command_client by exact Hc.
    unfold Redis.send.
    destruct (nextFault (Redis.faults r)) as [[|] rest]; cbn [fst snd].
    + rewrite enterFallback_eq.
      destruct (Hread (setFallbackMode true rc) (Redis.mk (Redis.log r ++ [Redis.GET (queryKey query)]) rest (Redis.keys r)))
        as [H1 H2].
      rewrite H2. auto.
    + unfold Redis.exec.
      destruct (Redis.live now (Redis.keys r) (queryKey query)) as [[[d|fields|items] at_]|];
        cbn [fst snd]; try (split; [reflexivity|reflexivity]).
      all: rewrite enterFallback_eq;
        match goal with
        | |- context [readInMemory _ _ (?rc', ?r')] =>
            destruct (Hread rc' r') as [H1 H2]; rewrite H2; auto
        end.
  - rewrite enterFallback_eq.
    pose proof (Hread (setFallbackMode true rc) r) as [H1 H2].
    destruct (inProcess_read (queryKey query) now (setFallbackMode true rc) r)
      as (a & rc' & Heq & _).
    rewrite Heq in *. cbn [fst snd] in *. auto.
Qed.

(** A value written to the in-process store is read back in fallback mode
    until its expiry time has passed. *)
Lemma inProcess_round_trip query (v : StoreData F) ttl now now' rc r :
  fallbackMode rc = true ->
  let st1 := snd (storeInMemory (queryKey query) v ttl now (rc, r)) in
  (now' <= now + ttl * 1000 ->
   fst (getCachedQueryResult query now' st1) = Ok (Some v))
  /\ (now + ttl * 1000 < now' ->
      fst (getCachedQueryResult query now' st1) = Ok None).
Proof.
  intros Hf. cbn zeta. unfold storeInMemory, update. cbn [fst snd].
  unfold getCachedQueryResult. rewrite dispatch_fallback by exact Hf.
  unfold readInMemory, bind, getSelf, ret, update. cbn [fst snd inMemoryStore setInMemoryStore].
  rewrite lookup_insert_eq. cbn [expires data].
  split; intros Ht.
  - destruct (Z.ltb_spec (now + ttl * 1000) now'); [lia|reflexivity].
  - destruct (Z.ltb_spec (now + ttl * 1000) now'); [reflexivity|lia].
Qed.

(** Where a write of the cache lands: in the in-process store of a client
    in fallback mode, or, when the client is connected and the SETEX is
    not lost, in Redis. *)
Lemma cacheQueryResult_state query (v : StoreData F) ttl now rc r :
  0 < ttl ->
  let st1 := snd (cacheQueryResult query v ttl now (rc, r)) in
  (exists rc0 r0,
     fallbackMode rc0 = true
     /\ st1 = snd (storeInMemory (queryKey query) v ttl now (rc0, r0)))
  \/ (getClient rc = true
      /\ fst (nextFault (Redis.faults r)) = false
      /\ st1 = (rc, Redis.mk (Redis.log r ++ [Redis.SETEX (queryKey query) ttl v])
                             (snd (nextFault (Redis.faults r)))
                             (<[queryKey query :=
                                  Redis.mkEntry (Redis.RString v)
                                                (Some (now + ttl * 1000))]>
                                (Redis.keys r)))).
Proof.
  intros Httl. cbn zeta. unfold cacheQueryResult.
  destruct (fallbackMode rc) eqn:Hf.
  { left. rewrite dispatch_fallback by exact Hf. eauto. }
  rewrite dispatch_networked by exact Hf. unfold tryCatch.
  destruct (getClient rc) eqn:Hg.
  2:{ left. rewrite enterFallback_eq. eexists _, _. split; [|reflexivity].
      reflexivity. }
  destruct (getClient_true rc Hg) as (_ & Hc & _).
  unfold bind. rewrite command_client by exact Hc.
  unfold Redis.send.
  destruct (nextFault (Redis.faults r)) as [[|] rest]; cbn [fst snd].
  - left. rewrite enterFallback_eq. eexists _, _. split; [|reflexivity].
    reflexivity.
  - right. unfold Redis.exec. destruct (Z.leb_spec ttl 0); [lia|].
    cbn [fst snd ret]. auto.
Qed.

(** A value that Redis holds is read back by a connected client, when
    the GET is not lost, until its expiry time has passed. *)
Lemma networked_read query (v : StoreData F) expiry now' rc log faults keys :
  getClient rc = true ->
  fst (nextFault faults) = false ->
  let st1 := (rc, Redis.mk log faults
                    (<[queryKey query :=
                         Redis.mkEntry (Redis.RString v) (Some expiry)]> keys)) in
  (now' <= expiry -> fst (getCachedQueryResult query now' st1) = Ok (Some v))
  /\ (expiry < now' -> fst (getCachedQueryResult query now' st1) = Ok None).
Proof.
  intros Hg Hfault. cbn zeta.
  destruct (getClient_true rc Hg) as (Hf & Hc & _).
  unfold getCachedQueryResult.
  rewrite dispatch_networked by exact Hf. unfold tryCatch.
  rewrite Hg. unfold bind. rewrite command_client by exact Hc.
  unfold Redis.send. cbn [Redis.faults Redis.keys Redis.log].
  destruct (nextFault faults) as [f rest]. cbn [fst] in Hfault. subst f.
  cbn [fst snd Redis.exec]. unfold Redis.live. rewrite lookup_insert_eq.
  cbn [Redis.expiresAt].
  split; intros Ht.
  - destruct (Z.ltb_spec expiry now'); [lia|reflexivity].
  - destruct (Z.ltb_spec expiry now'); [reflexivity|lia].
Qed.

End WithFloat.
End CacheFacts.

Module ChatLogFacts.
Section WithFloat.
Context {F : Type}.
Variable config : Config.
Import RedisClient ClientProps RedisClientFacts.

(** ** Properties of the client object that a computation preserves *)

Lemma preserves_ret {A} (P : t F -> Prop) (a : A) : preserves P (ret a).
Proof. intros st HP. exact HP. Qed.

Lemma preserves_bind {A B} (P : t F -> Prop) (m : M (St F) A) (k : A -> M (St F) B) :
  preserves P m -> (forall a, preserves P (k a)) -> preserves P (bind m k).
Proof.
  intros Hm Hk st HP. unfold bind. specialize (Hm st HP).
  destruct (m st) as [[a|e] st1]; [apply Hk, Hm|exact Hm].
Qed.

Lemma preserves_tryCatch {A} (P : t F -> Prop) (m : M (St F) A) (h : string -> M (St F) A) :
  preserves P m -> (forall e, preserves P (h e)) -> preserves P (tryCatch m h).
Proof.
  intros Hm Hh st HP. unfold tryCatch. specialize (Hm st HP).
  destruct (m st) as [[a|e] st1]; [exact Hm|apply Hh, Hm].
Qed.

Lemma preserves_command (P : t F -> Prop) now (c : Redis.Command F) : preserves P (command now c).
Proof.
  intros [rc r] HP. unfold command. destruct (client rc); [|exact HP].
  destruct (Redis.send now c r). exact HP.
Qed.

Lemma preserves_update (P : t F -> Prop) (f : t F -> t F) :
  (forall rc, P rc -> P (f rc)) -> preserves P (update f).
Proof. intros Hf st HP. apply Hf, HP. Qed.

Lemma preserves_withSelf {A} (P : t F -> Prop) (k : t F -> M (St F) A) :
  (forall rc, preserves P (k rc)) -> preserves P (bind getSelf k).
Proof. intros Hk st HP. unfold bind, getSelf. apply Hk, HP. Qed.

Lemma preserves_dispatch {A} (P : t F -> Prop) (ip nw : M (St F) A) :
  (forall rc, P rc -> P (setFallbackMode true rc)) ->
  preserves P ip -> preserves P nw -> preserves P (dispatch ip nw).
Proof.
  intros Hflag Hip Hnw. unfold dispatch. apply preserves_withSelf. intros rc.
  assert (Henter : preserves P (enterFallback ip)).
  { unfold enterFallback. apply preserves_bind; [|intros _; exact Hip].
    apply preserves_update, Hflag. }
  destruct (fallbackMode rc); [exact Hip|].
  apply preserves_tryCatch; [|intros _; exact Henter].
  destruct (getClient rc); [exact Hnw|exact Henter].
Qed.

(** ** The bound on the in-process logs *)

Lemma bounded_flags (rc : t F) b :
  ChatLog.bounded config rc -> ChatLog.bounded config (setFallbackMode b rc).
Proof. intros Hb key log. apply Hb. Qed.

Lemma bounded_store (rc : t F) m :
  ChatLog.bounded config rc -> ChatLog.bounded config (setInMemoryStore m rc).
Proof. intros Hb key log. apply Hb. Qed.

Lemma spliceFrom_take {A} (l : list A) (n : Z) :
  0 <= n -> spliceFrom l n = take (Z.to_nat n) l.
Proof.
  intros Hn. unfold spliceFrom, Js.clampIndex.
  destruct (Z.ltb_spec n 0); [lia|].
  replace (Z.to_nat (Z.min n (Z.of_nat (length l))))
    with (Nat.min (Z.to_nat n) (length l)) by lia.
  rewrite <- (take_take l (Z.to_nat n) (length l)), firstn_all. reflexivity.
Qed.

(** The list [addMessage] leaves in the in-process map. *)
Lemma pushed_take (message : Message F) now (log : list (Message F)) :
  0 < chatHistoryLimit config ->
  (if chatHistoryLimit config <? Z.of_nat (length (stamp message now :: log))
   then spliceFrom (stamp message now :: log) (chatHistoryLimit config)
   else stamp message now :: log)
  = take (Z.to_nat (chatHistoryLimit config)) (stamp message now :: log).
Proof.
  intros HN. destruct (Z.ltb_spec (chatHistoryLimit config)
                         (Z.of_nat (length (stamp message now :: log)))).
  - apply spliceFrom_take. lia.
  - symmetry. apply take_ge. lia.
Qed.

Lemma addMessage_keeps_bounded sessionId (message : Message F) now :
  0 < chatHistoryLimit config ->
  preserves (ChatLog.bounded config) (addMessage config sessionId message now).
Proof.
  intros HN. unfold addMessage. apply preserves_dispatch.
  - intros rc. apply bounded_flags.
  - apply preserves_update. intros rc Hb key log.
    cbn [inMemoryLists setInMemoryLists].
    rewrite pushed_take by exact HN.
    destruct (decide (key = chatKey sessionId)) as [->|Hne].
    + rewrite lookup_insert_eq. intros [= <-]. rewrite length_take. lia.
    + rewrite lookup_insert_ne by congruence. apply Hb.
  - repeat (apply preserves_bind; [apply preserves_command|intros _]).
    apply preserves_ret.
Qed.

Lemma call_keeps_bounded (op : ClientRun.Op F) now st :
  0 < chatHistoryLimit config ->
  ChatLog.bounded config (fst st) ->
  ChatLog.bounded config (fst (snd (ClientRun.call config op now st))).
Proof.
  intros HN Hb.
  assert (Hstore : forall key d ttl tm,
            preserves (ChatLog.bounded config) (storeInMemory (F:=F) key d ttl tm)).
  { intros. apply preserves_update. intros rc. apply bounded_store. }
  assert (Hread : forall key tm,
            preserves (ChatLog.bounded config) (readInMemory (F:=F) key tm)).
  { intros. unfold readInMemory. apply preserves_withSelf. intros rc.
    destruct (inMemoryStore rc !! key) as [stored|]; [|apply preserves_ret].
    destruct (expires stored <? tm); [|apply preserves_ret].
    apply preserves_bind; [|intros _; apply preserves_ret].
    apply preserves_update. intros rc'. apply bounded_store. }
  assert (Hset : forall sessionId d ttl tm,
            preserves (ChatLog.bounded config) (setSession (F:=F) sessionId d ttl tm)).
  { intros. unfold setSession. apply preserves_withSelf. intros rc.
    destruct (fallbackMode rc); [apply Hstore|].
    apply preserves_tryCatch; [|intros _; apply Hstore].
    repeat (apply preserves_bind; [apply preserves_command|intros _]).
    apply preserves_ret. }
  destruct op; cbn [ClientRun.call].
  - specialize (Hset sessionId d ttl now st Hb).
    destruct (setSession _ _ _ _ st). exact Hset.
  - assert (Hget : preserves (ChatLog.bounded config) (getSession (F:=F) sessionId now)).
    { unfold getSession. apply preserves_withSelf. intros rc.
      destruct (fallbackMode rc); [apply Hread|].
      apply preserves_tryCatch; [|intros _; apply Hread].
      apply preserves_bind; [apply preserves_command|intros keyType].
      destruct (String.eqb _ "hash").
      { apply preserves_bind; [apply preserves_command|intros hashData].
        destruct hashData; apply preserves_ret. }
      destruct (String.eqb _ "string"); [|apply preserves_ret].
      apply preserves_bind; [apply preserves_command|intros stringData].
      destruct stringData as [| | |[parsedData|]|]; try apply preserves_ret.
      apply preserves_bind; [apply preserves_command|intros _].
      apply preserves_bind; [apply Hset|intros _]. apply preserves_ret. }
    specialize (Hget st Hb). destruct (getSession _ _ st). exact Hget.
  - assert (Hdel : preserves (ChatLog.bounded config) (deleteSession (F:=F) sessionId now)).
    { unfold deleteSession. apply preserves_dispatch.
      - intros rc. apply bounded_flags.
      - apply preserves_update. intros rc. apply bounded_store.
      - apply preserves_bind; [apply preserves_command|intros _].
        apply preserves_ret. }
    specialize (Hdel st Hb). destruct (deleteSession _ _ st). exact Hdel.
  - pose proof (addMessage_keeps_bounded sessionId message now HN st Hb) as Hadd.
    destruct (addMessage _ _ _ _ st). exact Hadd.
  - assert (Hhist : preserves (ChatLog.bounded config)
                      (getChatHistory (F:=F) sessionId limit now)).
    { unfold getChatHistory. apply preserves_dispatch.
      - intros rc. apply bounded_flags.
      - apply preserves_withSelf. intros rc. apply preserves_ret.
      - apply preserves_bind; [apply preserves_command|intros messages].
        destruct messages; apply preserves_ret. }
    specialize (Hhist st Hb). destruct (getChatHistory _ _ _ st). exact Hhist.
  - assert (Hclear : preserves (ChatLog.bounded config)
                       (clearChatHistory (F:=F) sessionId now)).
    { unfold clearChatHistory. apply preserves_dispatch.
      - intros rc. apply bounded_flags.
      - apply preserves_update. intros rc Hrc key log.
        cbn [inMemoryLists setInMemoryLists]. intros Hl.
        apply lookup_delete_Some in Hl as [_ Hl]. eapply Hrc, Hl.
      - apply preserves_bind; [apply preserves_command|intros _].
        apply preserves_ret. }
    specialize (Hclear st Hb). destruct (clearChatHistory _ _ st). exact Hclear.
  - assert (Hcache : preserves (ChatLog.bounded config)
                       (cacheQueryResult (F:=F) query result ttl now)).
    { unfold cacheQueryResult. apply preserves_dispatch.
      - intros rc. apply bounded_flags.
      - apply Hstore.
      - apply preserves_bind; [apply preserves_command|intros _].
        apply preserves_ret. }
    specialize (Hcache st Hb). destruct (cacheQueryResult _ _ _ _ st). exact Hcache.
  - assert (Hcached : preserves (ChatLog.bounded config)
                        (getCachedQueryResult (F:=F) query now)).
    { unfold getCachedQueryResult. apply preserves_dispatch.
      - intros rc. apply bounded_flags.
      - apply Hread.
      - apply preserves_bind; [apply preserves_command|intros result].
        destruct result; apply preserves_ret. }
    specialize (Hcached st Hb). destruct (getCachedQueryResult _ _ st).
    exact Hcached.
Qed.

End WithFloat.
End ChatLogFacts.

Module ChatLogContent.
Section WithFloat.
Context {F : Type}.
Variable config : Config.
Import RedisClient ClientProps RedisClientFacts CacheFacts ChatLogFacts.
Import ChatLog.

Local Abbreviation N := (Z.to_nat (chatHistoryLimit config)).

Lemma take_cons_take {A} (n : nat) (x : A) (l : list A) :
  take n (x :: take n l) = take n (x :: l).
Proof.
  destruct n as [|n]; [reflexivity|]. cbn [take firstn]. f_equal.
  rewrite take_take. f_equal. lia.
Qed.

Lemma take_app_take {A} (n : nat) (l1 l2 : list A) :
  take n (l1 ++ take n l2) = take n (l1 ++ l2).
Proof.
  rewrite !take_app, take_take. do 2 f_equal. lia.
Qed.

Lemma lastN_rev_take {A} (n : Z) (l : list A) :
  take (Z.to_nat n) (rev l) = rev (ChatLog.lastN n l).
Proof. unfold ChatLog.lastN. apply firstn_rev. Qed.

Lemma lastN_lastN {A} (n m : Z) (l : list A) :
  0 <= n -> 0 <= m ->
  ChatLog.lastN n (ChatLog.lastN m l) = ChatLog.lastN (Z.min n m) l.
Proof.
  intros Hn Hm. unfold ChatLog.lastN. rewrite drop_drop, length_drop.
  f_equal. lia.
Qed.

Lemma stamped_cons (e : Message F * Z) rest :
  ChatLog.stamped (e :: rest) = stamp (fst e) (snd e) :: ChatLog.stamped rest.
Proof. reflexivity. Qed.

Lemma stamped_length (entries : list (Message F * Z)) :
  length (ChatLog.stamped entries) = length entries.
Proof. apply length_map. Qed.

(** ** The in-process log *)

Lemma addMessage_inProcess sessionId (message : Message F) now rc r :
  0 < chatHistoryLimit config ->
  fallbackMode rc = true ->
  addMessage config sessionId message now (rc, r)
    = (Ok tt,
       (setInMemoryLists
          (<[chatKey sessionId :=
               take N (stamp message now :: logOf rc sessionId)]>
             (inMemoryLists rc)) rc, r)).
Proof.
  intros HN Hf. unfold addMessage. rewrite dispatch_fallback by exact Hf.
  unfold update. cbn [fst snd]. rewrite pushed_take by exact HN. reflexivity.
Qed.

Lemma appendAll_inProcess sessionId (rest : list (Message F * Z)) :
  0 < chatHistoryLimit config ->
  forall e rc r,
    fallbackMode rc = true ->
    let st' := ChatLog.appendAll config sessionId (e :: rest) (rc, r) in
    fallbackMode (fst st') = true
    /\ snd st' = r
    /\ inMemoryLists (fst st') !! chatKey sessionId
       = Some (take N (rev (ChatLog.stamped (e :: rest)) ++ logOf rc sessionId)).
Proof.
  intros HN. induction rest as [|e' rest IH]; intros e rc r Hf; cbn zeta.
  - unfold ChatLog.appendAll. cbn [fold_left].
    rewrite addMessage_inProcess by assumption. cbn [fst snd].
    split; [exact Hf|]. split; [reflexivity|].
    cbn [inMemoryLists setInMemoryLists]. rewrite lookup_insert_eq. reflexivity.
  - unfold ChatLog.appendAll. cbn [fold_left].
    rewrite addMessage_inProcess by assumption. cbn [fst snd].
    set (rc1 := setInMemoryLists _ rc).
    specialize (IH e' rc1 r Hf). cbn zeta in IH.
    unfold ChatLog.appendAll in IH. cbn [fold_left] in IH.
    destruct IH as (H1 & H2 & H3). split; [exact H1|]. split; [exact H2|].
    rewrite H3. f_equal.
    assert (Hlog : logOf rc1 sessionId
                   = take N (stamp (fst e) (snd e) :: logOf rc sessionId)).
    { unfold logOf, rc1. cbn [inMemoryLists setInMemoryLists].
      rewrite lookup_insert_eq. reflexivity. }
    rewrite Hlog, take_app_take.
    rewrite (stamped_cons e (e' :: rest)). cbn [rev].
    rewrite <- app_assoc. reflexivity.
Qed.

Lemma getChatHistory_inProcess sessionId limit now (rc : t F) r :
  fallbackMode rc = true ->
  0 <= limit ->
  fst (getChatHistory sessionId limit now (rc, r))
    = Ok (rev (take (Z.to_nat limit) (logOf rc sessionId))).
Proof.
  intros Hf Hl. unfold getChatHistory. rewrite dispatch_fallback by exact Hf.
  unfold bind, getSelf, ret. cbn [fst snd].
  rewrite SourcesFacts.sliceList_prefix by exact Hl. reflexivity.
Qed.

(** ** The log in Redis *)

Lemma send_quiet now (c : Redis.Command F) r :
  quiet r ->
  Redis.send now c r
    = (fst (Redis.exec now c (Redis.keys r)),
       Redis.mk (Redis.log r ++ [c]) (tail (Redis.faults r))
                (snd (Redis.exec now c (Redis.keys r)))).
Proof.
  unfold quiet, Redis.send. intros Hq.
  destruct (Redis.faults r) as [|f rest]; cbn [nextFault tail].
  - destruct (Redis.exec now c (Redis.keys r)); reflexivity.
  - inversion Hq as [|? ? -> _]. destruct (Redis.exec now c (Redis.keys r));
      reflexivity.
Qed.

Lemma quiet_tail (r : Redis.t F) log' keys' :
  quiet r -> quiet (F:=F) (Redis.mk log' (tail (Redis.faults r)) keys').
Proof.
  unfold quiet. cbn [Redis.faults]. intros Hq.
  destruct (Redis.faults r); [exact Hq|]. inversion Hq; assumption.
Qed.

Lemma range_prefix {A} (l : list A) (n : Z) :
  0 < n -> Redis.range l 0 (n - 1) = take (Z.to_nat n) l.
Proof.
  intros Hn. unfold Redis.range.
  destruct (Z.ltb_spec 0 0); [lia|]. destruct (Z.ltb_spec (n - 1) 0); [lia|].
  cbn [Z.to_nat]. rewrite drop_0.
  replace (Z.to_nat (Z.min (n - 1) (Z.of_nat (length l) - 1) - 0 + 1))
    with (Nat.min (Z.to_nat n) (length l)) by lia.
  rewrite <- (take_take l (Z.to_nat n) (length l)), firstn_all. reflexivity.
Qed.

Lemma redisLog_insert (r : Redis.t F) sessionId items expiry now log faults :
  now <= expiry ->
  ChatLog.redisLog
    (Redis.mk log faults
       (<[chatKey sessionId := Redis.mkEntry (Redis.RList items) (Some expiry)]>
          (Redis.keys r)))
    sessionId now = items.
Proof.
  intros Ht. unfold ChatLog.redisLog, Redis.live. cbn [Redis.keys].
  rewrite lookup_insert_eq. cbn [Redis.expiresAt].
  destruct (Z.ltb_spec expiry now); [lia|reflexivity].
Qed.

(** One [addMessage] of a connected client whose three commands reach
    Redis: the message is pushed on the live log, the log is trimmed and
    the key gets a fresh time to live. *)
Lemma addMessage_networked sessionId (message : Message F) now rc r :
  0 < chatHistoryLimit config ->
  0 < sessionTtl config ->
  getClient rc = true ->
  quiet r ->
  ChatLog.listOrFree r (chatKey sessionId) ->
  exists log faults,
    addMessage config sessionId message now (rc, r)
      = (Ok tt,
         (rc, Redis.mk log faults
                (<[chatKey sessionId :=
                     Redis.mkEntry
                       (Redis.RList
                          (take N (stamp message now
                                     :: ChatLog.redisLog r sessionId now)))
                       (Some (now + sessionTtl config * 1000))]>
                   (Redis.keys r))))
    /\ Forall (fun f => f = false) faults.
Proof.
  intros HN Httl Hg Hq Hlist.
  destruct (getClient_true rc Hg) as (Hf & Hc & _).
  unfold addMessage. rewrite dispatch_networked by exact Hf.
  unfold tryCatch. rewrite Hg. unfold bind.
  rewrite command_client by exact Hc. rewrite send_quiet by exact Hq.
  cbn [fst snd].
  assert (Hpush :
    Redis.exec now (Redis.LPUSH (chatKey sessionId) (stamp message now)) (Redis.keys r)
    = (Ok Redis.ROk,
       <[chatKey sessionId :=
           Redis.mkEntry (Redis.RList (stamp message now
                                         :: ChatLog.redisLog r sessionId now))
             (match Redis.live now (Redis.keys r) (chatKey sessionId) with
              | Some e => Redis.expiresAt e
              | None => None
              end)]> (Redis.keys r))
    /\ match Redis.live now (Redis.keys r) (chatKey sessionId) with
       | Some e => match Redis.expiresAt e with
                   | Some at_ => (at_ <? now) = false
                   | None => True
                   end
       | None => True
       end).
  { unfold Redis.exec, ChatLog.redisLog, Redis.live.
    unfold ChatLog.listOrFree in Hlist.
    destruct (Redis.keys r !! chatKey sessionId) as [[[d|fields|items] [at_|]]|];
      try contradiction; cbn [Redis.expiresAt]; try (split; [reflexivity|exact I]).
    destruct (at_ <? now) eqn:E; cbn [Redis.expiresAt];
      (split; [reflexivity|]); [exact I|exact E]. }
  destruct Hpush as [Hpush Hlive]. rewrite Hpush. cbn [fst snd].
  set (at0 := match Redis.live now (Redis.keys r) (chatKey sessionId) with
              | Some e => Redis.expiresAt e
              | None => None
              end) in *.
  assert (Hat0 : match at0 with Some at_ => (at_ <? now) = false | None => True end).
  { subst at0. destruct (Redis.live now (Redis.keys r) (chatKey sessionId));
      [exact Hlive|exact I]. }
  clearbody at0. clear Hlive Hpush.
  rewrite command_client by exact Hc.
  rewrite send_quiet by (apply quiet_tail, Hq).
  cbn [fst snd Redis.keys Redis.faults Redis.log].
  assert (Htrim :
    Redis.exec now (Redis.LTRIM (chatKey sessionId) 0 (chatHistoryLimit config - 1))
      (<[chatKey sessionId :=
           Redis.mkEntry (Redis.RList (stamp message now
                                         :: ChatLog.redisLog r sessionId now)) at0]>
         (Redis.keys r))
    = (Ok Redis.ROk,
       <[chatKey sessionId :=
           Redis.mkEntry
             (Redis.RList (take N (stamp message now
                                     :: ChatLog.redisLog r sessionId now))) at0]>
         (Redis.keys r))).
  { unfold Redis.exec, Redis.live. rewrite lookup_insert_eq. cbn [Redis.expiresAt].
    assert (Hl : match at0 with
                 | Some at_ => if at_ <? now then None else Some (Redis.mkEntry (Redis.RList (stamp message now :: ChatLog.redisLog r sessionId now)) at0)
                 | None => Some (Redis.mkEntry (Redis.RList (stamp message now :: ChatLog.redisLog r sessionId now)) at0)
                 end
                 = Some (Redis.mkEntry (Redis.RList (stamp message now :: ChatLog.redisLog r sessionId now)) at0)).
    { destruct at0 as [at_|]; [rewrite Hat0|]; reflexivity. }
    rewrite Hl. rewrite range_prefix by exact HN.
    destruct (Z.to_nat (chatHistoryLimit config)) as [|n] eqn:En; [lia|].
    cbn [take firstn]. rewrite insert_insert_eq. reflexivity. }
  rewrite Htrim. cbn [fst snd]. clear Htrim.
  rewrite command_client by exact Hc.
  rewrite send_quiet
    by (refine (quiet_tail (Redis.mk [] (tail (Redis.faults r)) ∅) _ _ _);
        apply quiet_tail, Hq).
  cbn [fst snd Redis.keys Redis.faults Redis.log].
  assert (Hexpire :
    Redis.exec now (Redis.EXPIRE (chatKey sessionId) (sessionTtl config))
      (<[chatKey sessionId :=
           Redis.mkEntry
             (Redis.RList (take N (stamp message now
                                     :: ChatLog.redisLog r sessionId now))) at0]>
         (Redis.keys r))
    = (Ok Redis.ROk,
       <[chatKey sessionId :=
           Redis.mkEntry
             (Redis.RList (take N (stamp message now
                                     :: ChatLog.redisLog r sessionId now)))
             (Some (now + sessionTtl config * 1000))]>
         (Redis.keys r))).
  { unfold Redis.exec, Redis.live. rewrite lookup_insert_eq. cbn [Redis.expiresAt].
    assert (Hl : forall e : Redis.Entry F,
               match at0 with
               | Some at_ => if at_ <? now then None else Some e
               | None => Some e
               end = Some e).
    { intros e. destruct at0 as [at_|]; [rewrite Hat0|]; reflexivity. }
    rewrite Hl. destruct (Z.leb_spec (sessionTtl config) 0); [lia|].
    cbn [Redis.value]. rewrite insert_insert_eq. reflexivity. }
  rewrite Hexpire. cbn [fst snd ret].
  eexists _, _. split; [reflexivity|].
  unfold quiet in Hq.
  destruct (Redis.faults r) as [|f1 [|f2 [|f3 rest]]]; cbn [tail];
    try (repeat constructor; fail).
  rewrite !Forall_cons in Hq. tauto.
Qed.

Lemma listOrFree_insert (r : Redis.t F) key items expiry log faults :
  ChatLog.listOrFree
    (Redis.mk log faults
       (<[key := Redis.mkEntry (Redis.RList items) expiry]> (Redis.keys r))) key.
Proof.
  unfold ChatLog.listOrFree. cbn [Redis.keys]. rewrite lookup_insert_eq. exact I.
Qed.

Lemma appendAll_networked sessionId (rest : list (Message F * Z)) rc :
  0 < chatHistoryLimit config ->
  0 < sessionTtl config ->
  getClient rc = true ->
  forall e r,
    quiet r ->
    ChatLog.listOrFree r (chatKey sessionId) ->
    ChatLog.withinTtl config (snd e) rest ->
    exists log faults,
      ChatLog.appendAll config sessionId (e :: rest) (rc, r)
        = (rc, Redis.mk log faults
                 (<[chatKey sessionId :=
                      Redis.mkEntry
                        (Redis.RList
                           (take N (rev (ChatLog.stamped (e :: rest))
                                      ++ ChatLog.redisLog r sessionId (snd e))))
                        (Some (ChatLog.lastTime (snd e) rest
                                 + sessionTtl config * 1000))]>
                    (Redis.keys r)))
      /\ Forall (fun f => f = false) faults.
Proof.
  intros HN Httl Hg. induction rest as [|e' rest IH]; intros e r Hq Hlist Hpace.
  - destruct (addMessage_networked sessionId (fst e) (snd e) rc r HN Httl Hg Hq Hlist)
      as (log & faults & Heq & Hfaults).
    exists log, faults. split; [|exact Hfaults].
    unfold ChatLog.appendAll. cbn [fold_left]. rewrite Heq. reflexivity.
  - destruct (addMessage_networked sessionId (fst e) (snd e) rc r HN Httl Hg Hq Hlist)
      as (log1 & faults1 & Heq & Hfaults1).
    destruct Hpace as [Hnext Hpace].
    set (r1 := Redis.mk log1 faults1 _) in Heq.
    destruct (IH e' r1) as (log & faults & Heq' & Hfaults);
      [exact Hfaults1|apply listOrFree_insert|exact Hpace|].
    exists log, faults. split; [|exact Hfaults].
    unfold ChatLog.appendAll in *. cbn [fold_left] in *. rewrite Heq. cbn [snd].
    rewrite Heq'. do 2 f_equal. subst r1. cbn [Redis.keys].
    rewrite insert_insert_eq. do 3 f_equal.
    rewrite redisLog_insert by exact Hnext.
    rewrite take_app_take. rewrite (stamped_cons e (e' :: rest)). cbn [rev].
    rewrite <- app_assoc. reflexivity.
Qed.

Lemma getChatHistory_networked sessionId limit now rc (r : Redis.t F) :
  getClient rc = true ->
  quiet r ->
  ChatLog.listOrFree r (chatKey sessionId) ->
  0 < limit ->
  fst (getChatHistory sessionId limit now (rc, r))
    = Ok (rev (take (Z.to_nat limit) (ChatLog.redisLog r sessionId now))).
Proof.
  intros Hg Hq Hlist Hl.
  destruct (getClient_true rc Hg) as (Hf & Hc & _).
  unfold getChatHistory. rewrite dispatch_networked by exact Hf.
  unfold tryCatch. rewrite Hg. unfold bind.
  rewrite command_client by exact Hc. rewrite send_quiet by exact Hq.
  cbn [fst snd]. unfold Redis.exec, ChatLog.redisLog, Redis.live.
  unfold ChatLog.listOrFree in Hlist.
  destruct (Redis.keys r !! chatKey sessionId) as [[[d|fields|items] [at_|]]|];
    try contradiction; cbn [Redis.expiresAt fst snd ret];
    try destruct (at_ <? now); cbn [fst snd ret];
    rewrite ?range_prefix by exact Hl; rewrite ?take_nil; reflexivity.
Qed.

End WithFloat.
End ChatLogContent.

Module ChatRunFacts.
Section WithFloat.
Context {F : Type}.
Variable config : Config.
Import RedisClient.

Lemma step_keeps_bounded (a : ClientRun.Action F) st :
  0 < chatHistoryLimit config ->
  ChatLog.bounded config (fst st) ->
  ChatLog.bounded config (fst (ClientRun.step config a st)).
Proof.
  intros HN Hb. destruct a as [op now|ev|outcome]; cbn [ClientRun.step fst].
  - apply ChatLogFacts.call_keeps_bounded; assumption.
  - intros key log. unfold handleEvent, onError, onConnect, onDisconnect.
    destruct (client (fst st)); [|apply Hb].
    destruct ev; [destruct (negb _)|..]; apply Hb.
  - intros key log. unfold connect, _attemptConnection, handleEvent, onConnect.
    destruct (connectionAttempted (fst st)); [apply Hb|].
    destruct outcome; apply Hb.
Qed.

Lemma execute_keeps_bounded (actions : list (ClientRun.Action F)) :
  0 < chatHistoryLimit config ->
  forall st,
    ChatLog.bounded config (fst st) ->
    ChatLog.bounded config (fst (ClientRun.execute config actions st)).
Proof.
  intros HN. induction actions as [|a rest IH]; intros st Hb; [exact Hb|].
  unfold ClientRun.execute. cbn [fold_left].
  apply IH, step_keeps_bounded; assumption.
Qed.

End WithFloat.
End ChatRunFacts.

Module PipelineFacts.
Section WithFloat.
Context {F : Type} `{Float F}.
Variable config : Config.
Import RAGService.

Lemma op_returns (op : ClientRun.Op F) now st :
  exists st', ClientRun.call config op now st = (true, st').
Proof.
  pose proof (ClientRunFacts.call_returns config op now st) as Hr.
  destruct (ClientRun.call config op now st) as [b st']. cbn [fst] in Hr.
  subst b. eauto.
Qed.

Lemma getCachedQueryResult_returns query now (st : RedisClient.St F) :
  exists a st', RedisClient.getCachedQueryResult query now st = (Ok a, st').
Proof.
  destruct (op_returns (ClientRun.GetCachedQueryResult query) now st) as (st' & Hc).
  cbn [ClientRun.call] in Hc.
  destruct (RedisClient.getCachedQueryResult query now st) as [[a|e] st1];
    [eauto|discriminate].
Qed.

Lemma cacheQueryResult_returns query (d : StoreData F) ttl now st :
  exists st', RedisClient.cacheQueryResult query d ttl now st = (Ok tt, st').
Proof.
  destruct (op_returns (ClientRun.CacheQueryResult query d ttl) now st) as (st' & Hc).
  cbn [ClientRun.call] in Hc.
  destruct (RedisClient.cacheQueryResult query d ttl now st) as [[[]|e] st1];
    [eauto|discriminate].
Qed.

Lemma addMessage_returns sessionId (message : Message F) now st :
  exists st', RedisClient.addMessage config sessionId message now st = (Ok tt, st').
Proof.
  destruct (op_returns (ClientRun.AddMessage sessionId message) now st) as (st' & Hc).
  cbn [ClientRun.call] in Hc.
  destruct (RedisClient.addMessage config sessionId message now st) as [[[]|e] st1];
    [eauto|discriminate].
Qed.

Lemma getChatHistory_returns sessionId limit now (st : RedisClient.St F) :
  exists a st', RedisClient.getChatHistory sessionId limit now st = (Ok a, st').
Proof.
  destruct (op_returns (ClientRun.GetChatHistory sessionId limit) now st) as (st' & Hc).
  cbn [ClientRun.call] in Hc.
  destruct (RedisClient.getChatHistory sessionId limit now st) as [[a|e] st1];
    [eauto|discriminate].
Qed.

(** A call on the key-value client changes neither the vector store nor
    its remote service. *)
Lemma liftRedis_returns {A} (m : M (RedisClient.St F) A) (w : World F) :
  (exists a st', m (redisClient w, redis w) = (Ok a, st')) ->
  exists a rc rs,
    liftRedis m w = (Ok a, mkWorld rc rs (vectorStore w) (qdrant w)).
Proof.
  intros (a & [rc rs] & Hm). unfold liftRedis. rewrite Hm. eauto.
Qed.

(** The [catch] block always returns the fallback response. *)
Lemma recover_returns query sessionId now message (w : World F) :
  exists w',
    recover config query sessionId now message w
      = (Ok (Computed (fallbackResponse query sessionId now message)), w').
Proof.
  unfold recover, bind, tryCatch, ret.
  destruct (liftRedis _ w) as [[[]|e] w1]; [|eauto].
  destruct (liftRedis _ w1) as [[[]|e] w2]; eauto.
Qed.

Lemma apology_nonempty query : apology query <> "".
Proof. unfold apology. discriminate. Qed.

(** On an initialised service, [processQuery] is its [try] block under
    its [catch] block once the options are destructured. *)
Lemma processQuery_destructured env query sessionId options constants now
    (w : World F) :
  destructure config options = Ok constants ->
  processQuery config true env query sessionId options now w
  = tryCatch (pipeline config env query sessionId constants now)
             (recover config query sessionId now) w.
Proof.
  intros Hd. unfold processQuery. cbn [negb].
  unfold bind, liftResult. now rewrite Hd.
Qed.

(** Every [options] argument but [null] can be destructured. *)
Lemma destructure_returns (options : OptionsArg F) :
  options <> OptionsNull ->
  exists constants, destructure config options = Ok constants.
Proof.
  intros Hnull.
  destruct options; [eexists; reflexivity|contradiction|eexists; reflexivity].
Qed.

End WithFloat.
End PipelineFacts.

Module RecencyFacts.

Lemma append_cons c s1 s2 : String c s1 +:+ s2 = String c (s1 +:+ s2).
Proof. reflexivity. Qed.

Lemma append_nil s : "" +:+ s = s.
Proof. reflexivity. Qed.

Lemma prefix_spec p s :
  String.prefix p s = true <-> exists after, s = p +:+ after.
Proof.
  revert s. induction p as [|c p IH]; intros s.
  - split; [intros _; exists s; reflexivity|]. intros _. destruct s; reflexivity.
  - destruct s as [|d s]; cbn [String.prefix].
    + split; [discriminate|]. intros [after Ha]. rewrite append_cons in Ha.
      discriminate.
    + destruct (Ascii.ascii_dec c d) as [->|Hne].
      * rewrite IH. split; intros [after Ha]; exists after.
        -- rewrite append_cons. now f_equal.
        -- rewrite append_cons in Ha. now injection Ha.
      * split; [discriminate|]. intros [after Ha]. rewrite append_cons in Ha.
        injection Ha as Hd _. congruence.
Qed.

(** [includes] finds exactly the substrings. *)
Lemma includes_spec word text :
  Js.includes word text = true <-> Recency.contains word text.
Proof.
  unfold Recency.contains. induction text as [|c text IH]; cbn [Js.includes].
  - rewrite orb_false_r, prefix_spec. split.
    + intros [after Ha]. exists "", after. exact Ha.
    + intros (before & after & Ha). destruct before as [|b before].
      * exists after. exact Ha.
      * rewrite append_cons in Ha. discriminate.
  - rewrite orb_true_iff, prefix_spec, IH. split.
    + intros [[after Ha]|(before & after & Ha)].
      * exists "", after. exact Ha.
      * exists (String c before), after. rewrite append_cons. now f_equal.
    + intros (before & after & Ha). destruct before as [|b before].
      * left. exists after. exact Ha.
      * right. rewrite append_cons in Ha. injection Ha as _ Ha.
        exists before, after. exact Ha.
Qed.

(** The keyword test of [processQuery] decides the wording of the
    specification. *)
Lemma isRecentNewsQuery_spec query :
  RAGService.isRecentNewsQuery query = true <-> Recency.asksForRecentNews query.
Proof.
  unfold RAGService.isRecentNewsQuery, Recency.asksForRecentNews, Recency.keywords.
  rewrite !orb_true_iff, !includes_spec. cbn [In]. split.
  - intros [[[Hk|Hk]|Hk]|Hk]; eexists; (split; [|exact Hk]); auto.
  - intros (keyword & Hin & Hk).
    destruct Hin as [<-|[<-|[<-|[<-|[]]]]]; auto.
Qed.

Lemma recent_query_nonempty query :
  RAGService.isRecentNewsQuery query = true -> query <> "".
Proof. intros Hr ->. discriminate Hr. Qed.

End RecencyFacts.

Module RetrievalFacts.
Section WithFloat.
Context {F : Type} `{Float F}.
Variable config : Config.
Import RAGService PipelineFacts.

(** The test of the generator decides whether a context can be grouped. *)
Lemma groupable_check (context : list (VectorStore.SearchResult F)) :
  existsb GeminiService.namesPrototypeMember context = false <->
  Grouping.groupable context.
Proof.
  unfold Grouping.groupable. rewrite Forall_forall. split.
  - intros He x Hin Hx.
    assert (existsb GeminiService.namesPrototypeMember context = true);
      [|congruence].
    apply existsb_exists. exists x. split; [apply list_elem_of_In, Hin|].
    apply bool_decide_eq_true, Hx.
  - intros Hall. destruct (existsb _ _) eqn:E; [|reflexivity].
    apply existsb_exists in E as (x & Hin & Hx).
    apply bool_decide_eq_true in Hx.
    exfalso. apply (Hall x); [apply list_elem_of_In, Hin|exact Hx].
Qed.

(** The fallback generator returns on a context it can group. *)
Lemma generateFallbackResponse_returns fmt query
    (context : list (VectorStore.SearchResult F)) :
  Grouping.groupable context ->
  exists ai,
    GeminiService.generateFallbackResponse fmt query context = Ok ai
    /\ GeminiService.ai_model ai = "fallback-enhanced".
Proof.
  intros Hg. apply groupable_check in Hg.
  unfold GeminiService.generateFallbackResponse.
  destruct context as [|item rest]; [eexists; split; reflexivity|].
  rewrite Hg. eexists; split; reflexivity.
Qed.

Lemma generateResponse_returns svc fmt api query
    (context : list (VectorStore.SearchResult F)) history :
  GeminiService.isInitialized svc = true ->
  Grouping.groupable context ->
  exists ai,
    GeminiService.generateResponse svc fmt api query context history = Ok ai
    /\ GeminiService.ai_model ai <> "fallback".
Proof.
  intros Hi Hg. unfold GeminiService.generateResponse. rewrite Hi. cbn [negb].
  destruct (generateFallbackResponse_returns fmt query context Hg)
    as (fb & Hfb & Hm).
  destruct (GeminiService.model svc).
  - unfold GeminiService.generateGeminiResponse.
    destruct (api _).
    + eexists; split; [reflexivity|]. discriminate.
    + rewrite Hfb. eexists; split; [reflexivity|]. rewrite Hm. discriminate.
  - rewrite Hfb. eexists; split; [reflexivity|]. rewrite Hm. discriminate.
Qed.

(** Once the relevant documents are chosen, the rest of the pipeline
    returns a response built from them and leaves the vector store alone,
    provided the generation gateway is initialised. *)
Lemma respond_returns env query sessionId options now
    (relevantResults : list (VectorStore.SearchResult F)) (w : World F) :
  GeminiService.isInitialized (geminiService env) = true ->
  Grouping.groupable relevantResults ->
  exists r w',
    respond config env query sessionId options now relevantResults w
      = (Ok (Computed r), w')
    /\ error r = None
    /\ model r <> "fallback"
    /\ contextUsed r = length relevantResults
    /\ sources r = extractSources relevantResults
    /\ vectorStore w' = vectorStore w
    /\ qdrant w' = qdrant w.
Proof.
  intros Hi Hg. unfold respond, bind, when, liftResult, ret.
  assert (Hhist : exists history w1,
            (if includeHistory options
             then liftRedis (RedisClient.getChatHistory sessionId 10 now)
             else fun s => (Ok [], s)) w = (Ok history, w1)
            /\ vectorStore w1 = vectorStore w /\ qdrant w1 = qdrant w).
  { destruct (includeHistory options); [|eauto].
    destruct (liftRedis_returns (RedisClient.getChatHistory sessionId 10 now) w
                (getChatHistory_returns config sessionId 10 now (redisClient w, redis w)))
      as (a & rc & rs & Heq).
    rewrite Heq. eauto. }
  destruct Hhist as (history & w1 & -> & Hv1 & Hq1).
  destruct (generateResponse_returns (geminiService env) (formatting env)
              (generativeModel env) query relevantResults history Hi Hg)
    as (ai & -> & Hmodel).
  set (response := mkResponse query _ _ _ _ sessionId now false _ None).
  assert (Hcache : exists w2,
            (if useCache options
                && negb (GeminiService.ai_response ai =? "")%string
             then liftRedis (RedisClient.cacheQueryResult query (DResult response)
                               RedisClient.defaultCacheTtl now)
             else fun s => (Ok tt, s)) w1 = (Ok tt, w2)
            /\ vectorStore w2 = vectorStore w1 /\ qdrant w2 = qdrant w1).
  { destruct (_ && _); [|eauto].
    destruct (cacheQueryResult_returns config query (DResult response)
                RedisClient.defaultCacheTtl now (redisClient w1, redis w1))
      as (st' & Hst).
    destruct (liftRedis_returns
                (RedisClient.cacheQueryResult query (DResult response)
                   RedisClient.defaultCacheTtl now) w1
                (ex_intro _ tt (ex_intro _ st' Hst)))
      as ([] & rc & rs & Heq).
    rewrite Heq. eauto. }
  destruct Hcache as (w2 & -> & Hv2 & Hq2).
  assert (Hadd : forall message (w0 : World F), exists w3,
            liftRedis (RedisClient.addMessage config sessionId message now) w0
              = (Ok tt, w3)
            /\ vectorStore w3 = vectorStore w0 /\ qdrant w3 = qdrant w0).
  { intros message w0.
    destruct (addMessage_returns config sessionId message now
                (redisClient w0, redis w0)) as (st' & Hst).
    destruct (liftRedis_returns
                (RedisClient.addMessage config sessionId message now) w0
                (ex_intro _ tt (ex_intro _ st' Hst)))
      as ([] & rc & rs & Heq).
    rewrite Heq. eauto. }
  destruct (Hadd (userMessage query now) w2) as (w3 & -> & Hv3 & Hq3).
  match goal with
  | |- context [liftRedis (RedisClient.addMessage config sessionId ?m now) w3] =>
      destruct (Hadd m w3) as (w4 & -> & Hv4 & Hq4)
  end.
  exists response, w4. split; [reflexivity|].
  repeat split; try reflexivity; try exact Hmodel; congruence.
Qed.

(** The retrieval step on a query that asks for recent news: the search
    with the date filter, and on its failure the search without. *)
Lemma retrieve_recent query (queryEmbedding : list F) maxResults now (w : World F) :
  isRecentNewsQuery query = true ->
  retrieve query queryEmbedding maxResults now w
    = match liftVector (VectorStore.searchSimilar queryEmbedding (maxResults * 2)
                          (Some (recentFilter now))) w with
      | (Ok results, w1) => (Ok results, w1)
      | (Throw _, w1) =>
          liftVector (VectorStore.searchSimilar queryEmbedding (maxResults * 2)
                        None) w1
      end.
Proof. intros Hr. unfold retrieve, tryCatch. rewrite Hr. reflexivity. Qed.

Lemma retrieve_other query (queryEmbedding : list F) maxResults now (w : World F) :
  isRecentNewsQuery query = false ->
  retrieve query queryEmbedding maxResults now w
    = liftVector (VectorStore.searchSimilar queryEmbedding (maxResults * 2) None) w.
Proof. intros Hr. unfold retrieve. rewrite Hr. reflexivity. Qed.

End WithFloat.
End RetrievalFacts.

Module Base64Props.
Import Base64 Base64Index.

Lemma valueOf_digit n : (n < 64)%nat -> valueOf (digit n) = n.
Proof.
  intros Hn.
  assert (Hall : forallb (fun n => valueOf (digit n) =? n)%nat (seq 0 64) = true)
    by (vm_compute; reflexivity).
  rewrite forallb_forall in Hall.
  apply Nat.eqb_eq, Hall, in_seq. lia.
Qed.

Lemma digit_not_pad n : (n < 64)%nat -> digit n <> "="%char.
Proof.
  intros Hn.
  assert (Hall : forallb (fun n => negb (Ascii.eqb (digit n) "="))
                         (seq 0 64) = true)
    by (vm_compute; reflexivity).
  rewrite forallb_forall in Hall.
  specialize (Hall n ltac:(apply in_seq; lia)).
  intros Heq. rewrite Heq in Hall. discriminate.
Qed.

Lemma digit_inj n m : (n < 64)%nat -> (m < 64)%nat -> digit n = digit m -> n = m.
Proof.
  intros Hn Hm Heq.
  rewrite <- (valueOf_digit n Hn), <- (valueOf_digit m Hm), Heq. reflexivity.
Qed.

Lemma code_bound c : (nat_of_ascii c < 256)%nat.
Proof. apply nat_ascii_bounded. Qed.

Lemma code_inj a b : nat_of_ascii a = nat_of_ascii b -> a = b.
Proof.
  intros Heq. rewrite <- (ascii_nat_embedding a), <- (ascii_nat_embedding b), Heq.
  reflexivity.
Qed.

(** Strings, three characters at a time. *)
Lemma triples_ind (P : string -> Prop) :
  P "" ->
  (forall a, P (String a "")) ->
  (forall a b, P (String a (String b ""))) ->
  (forall a b c rest, P rest -> P (String a (String b (String c rest)))) ->
  forall s, P s.
Proof.
  intros H0 H1 H2 H3.
  assert (Hall : forall n s, (String.length s <= n)%nat -> P s).
  { induction n as [|n IH]; intros s Hs.
    - destruct s; [exact H0|simpl in Hs; lia].
    - destruct s as [|a [|b [|c rest]]]; auto.
      apply H3, IH. simpl in Hs. lia. }
  intros s. apply (Hall (String.length s)). lia.
Qed.

Lemma String_inj c1 s1 c2 s2 :
  String c1 s1 = String c2 s2 -> c1 = c2 /\ s1 = s2.
Proof. intros [= -> ->]. split; reflexivity. Qed.

Ltac split_string H :=
  repeat match type of H with
         | String _ _ = String _ _ =>
             let E := fresh "E" in apply String_inj in H as [E H]
         end.

Ltac pad_against_digit :=
  match goal with
  | E : "="%char = digit _ |- _ =>
      exfalso; symmetry in E; revert E; apply digit_not_pad
  | E : digit _ = "="%char |- _ =>
      exfalso; revert E; apply digit_not_pad
  end.

Ltac divmod x k :=
  pose proof (Nat.div_mod_eq x k);
  pose proof (Nat.mod_upper_bound x k ltac:(lia)).

Ltac divall x := divmod x 4%nat; divmod x 16%nat; divmod x 64%nat.

Ltac digits_equal :=
  repeat match goal with
         | E : digit _ = digit _ |- _ => apply digit_inj in E; [|lia|lia]
         end.

Lemma encode_inj s1 s2 : encode s1 = encode s2 -> s1 = s2.
Proof.
  revert s2. induction s1 as [|a|a b|a b c rest IH] using triples_ind;
    intros [|a' [|b' [|c' rest']]] Heq; cbn [encode] in Heq;
    try reflexivity;
    try match type of Heq with
        | EmptyString = String _ _ => discriminate Heq
        | String _ _ = EmptyString => discriminate Heq
        end.
  all: pose proof (code_bound a) as Ha; pose proof (code_bound a') as Ha'.
  all: try (pose proof (code_bound b) as Hb).
  all: try (pose proof (code_bound b') as Hb').
  all: try (pose proof (code_bound c) as Hc).
  all: try (pose proof (code_bound c') as Hc').
  all: divall (nat_of_ascii a); divall (nat_of_ascii a').
  all: try (divall (nat_of_ascii b)).
  all: try (divall (nat_of_ascii b')).
  all: try (divall (nat_of_ascii c)).
  all: try (divall (nat_of_ascii c')).
  all: split_string Heq.
  all: try (pad_against_digit; lia).
  all: digits_equal.
  - f_equal. apply code_inj. lia.
  - assert (nat_of_ascii a = nat_of_ascii a') by lia.
    assert (nat_of_ascii b = nat_of_ascii b') by lia.
    f_equal; [|f_equal]; apply code_inj; assumption.
  - assert (nat_of_ascii a = nat_of_ascii a') by lia.
    assert (nat_of_ascii b = nat_of_ascii b') by lia.
    assert (nat_of_ascii c = nat_of_ascii c') by lia.
    rewrite (IH rest' Heq).
    f_equal; [|f_equal; [|f_equal]]; apply code_inj; assumption.
Qed.

(** Prefixing is injective, and the three prefixes differ in their first
    character. *)
Lemma queryKey_inj q1 q2 :
  RedisClient.queryKey q1 = RedisClient.queryKey q2 -> q1 = q2.
Proof.
  unfold RedisClient.queryKey. intros Heq.
  apply String.app_inj in Heq. apply encode_inj, Heq.
Qed.

Lemma sessionKey_inj s1 s2 :
  RedisClient.sessionKey s1 = RedisClient.sessionKey s2 -> s1 = s2.
Proof. unfold RedisClient.sessionKey. apply String.app_inj. Qed.

Lemma chatKey_inj s1 s2 :
  RedisClient.chatKey s1 = RedisClient.chatKey s2 -> s1 = s2.
Proof. unfold RedisClient.chatKey. apply String.app_inj. Qed.

Lemma session_not_query sessionId query :
  RedisClient.sessionKey sessionId <> RedisClient.queryKey query.
Proof.
  unfold RedisClient.sessionKey, RedisClient.queryKey.
  rewrite !RecencyFacts.append_cons. intros Heq.
  apply String_inj in Heq as [Heq _]. discriminate Heq.
Qed.


End Base64Props.

(** ** The hash of an id string *)

Module HashProps.
Import VectorStore.

Local Abbreviation modulus := (2 ^ 32).

Lemma toInt32_congr a b :
  a mod modulus = b mod modulus -> Js.toInt32 a = Js.toInt32 b.
Proof.
  intros Hab. unfold Js.toInt32.
  rewrite (Z.add_mod a), (Z.add_mod b), Hab by lia. reflexivity.
Qed.

Lemma toInt32_mod x : Js.toInt32 x mod modulus = x mod modulus.
Proof.
  unfold Js.toInt32. rewrite Zminus_mod_idemp_l. f_equal. lia.
Qed.

Lemma toInt32_shift x : exists k, Js.toInt32 x = x + k * modulus.
Proof.
  exists (- ((x + 2 ^ 31) / 2 ^ 32)). unfold Js.toInt32.
  pose proof (Z.div_mod (x + 2 ^ 31) (2 ^ 32) ltac:(lia)). lia.
Qed.

Lemma charCodes_app s1 s2 :
  Js.charCodes (s1 +:+ s2) = Js.charCodes s1 ++ Js.charCodes s2.
Proof.
  unfold Js.charCodes. induction s1 as [|c s1 IH]; [reflexivity|].
  change (String c s1 +:+ s2) with (String c (s1 +:+ s2)).
  cbn [list_ascii_of_string map app]. now rewrite IH.
Qed.

(** One iteration of the loop of [hashId] computes [31 * hash + char]
    in 32-bit arithmetic. *)
Lemma hashLoop_step char rest hash :
  hashLoop (char :: rest) hash = hashLoop rest (Js.toInt32 (31 * hash + char)).
Proof.
  cbn [hashLoop]. f_equal. rewrite Z.land_diag. apply toInt32_congr.
  rewrite Z.shiftl_mul_pow2 by lia.
  rewrite <- Z.add_sub_swap, <- Z.add_sub_assoc.
  rewrite <- Zplus_mod_idemp_l, toInt32_mod, Zplus_mod_idemp_l.
  f_equal. lia.
Qed.

Lemma hashLoop_app codes1 codes2 hash :
  hashLoop (codes1 ++ codes2) hash = hashLoop codes2 (hashLoop codes1 hash).
Proof.
  revert hash; induction codes1 as [|c codes1 IH]; intros hash; [reflexivity|].
  cbn [app]. rewrite !hashLoop_step. apply IH.
Qed.

Lemma hashLoop_range codes hash :
  - 2 ^ 31 <= hash < 2 ^ 31 -> - 2 ^ 31 <= hashLoop codes hash < 2 ^ 31.
Proof.
  revert hash; induction codes as [|c rest IH]; intros hash Hh; [exact Hh|].
  rewrite hashLoop_step. apply IH, JsFacts.toInt32_range.
Qed.

Lemma hashCodes_range codes : 0 <= hashCodes codes <= 2 ^ 31.
Proof.
  unfold hashCodes. pose proof (hashLoop_range codes 0 ltac:(lia)). lia.
Qed.

(** The loop computes the polynomial hash modulo 2^32. *)
Lemma hashLoop_polynomial codes x :
  hashLoop codes (Js.toInt32 x)
  = Js.toInt32 (x * 31 ^ Z.of_nat (length codes) + HashSpec.polynomial codes).
Proof.
  revert x; induction codes as [|c rest IH]; intros x.
  - cbn [hashLoop length HashSpec.polynomial]. f_equal. lia.
  - rewrite hashLoop_step, IH. apply toInt32_congr.
    cbn [length HashSpec.polynomial].
    rewrite Nat2Z.inj_succ, Z.pow_succ_r by lia.
    destruct (toInt32_shift x) as [k Hk]. rewrite Hk.
    set (p := 31 ^ Z.of_nat (length rest)).
    replace ((31 * (x + k * modulus) + c) * p + HashSpec.polynomial rest)
      with (x * (31 * p) + (c * p + HashSpec.polynomial rest)
            + (31 * k * p) * modulus) by ring.
    apply Z_mod_plus_full.
Qed.

Lemma hashCodes_polynomial codes :
  hashCodes codes = Z.abs (Js.toInt32 (HashSpec.polynomial codes)).
Proof.
  unfold hashCodes. change 0 with (Js.toInt32 0) at 1.
  rewrite hashLoop_polynomial. f_equal.
Qed.

Lemma hashLoop_Aa_BB hash : hashLoop [65; 97] hash = hashLoop [66; 66] hash.
Proof.
  rewrite !hashLoop_step. cbn [hashLoop]. apply toInt32_congr.
  rewrite <- (Zplus_mod_idemp_l (31 * Js.toInt32 (31 * hash + 65))).
  rewrite <- (Zplus_mod_idemp_l (31 * Js.toInt32 (31 * hash + 66))).
  rewrite <- !(Zmult_mod_idemp_r (Js.toInt32 _)), !toInt32_mod.
  rewrite !Zmult_mod_idemp_r, !Zplus_mod_idemp_l. f_equal. lia.
Qed.

End HashProps.

(** ** Upserts that reach Qdrant *)

Module QdrantFacts.
Section WithFloat.
Context {F : Type} `{Float F}.
Import VectorStore.

(** What a successful [upsertVector] through the Qdrant client leaves:
    the request in the log of the service, and the point under the hash
    of the id string. *)
Lemma upsertVector_networked (data : VectorData F) (vs : t F) (q : Qdrant F) st' :
  client vs = true ->
  upsertVector data (vs, q) = (Ok tt, st') ->
  let point := mkPoint (hashId (vd_id data)) (vd_vector data)
                       (default emptyPayload (vd_payload data)) in
  st' = (vs, mkQdrant (q_log q ++ [QUpsert collectionName [point]])
                      (snd (nextFault (q_faults q))) (q_collections q)
                      (<[hashId (vd_id data) :=
                           (vd_vector data, default emptyPayload (vd_payload data))]>
                         (q_points q))
                      (q_search q)).
Proof.
  intros Hc. unfold upsertVector, bind, getStore. simpl.
  destruct (isInitialized vs) eqn:Ei; simpl; [|discriminate].
  destruct (String.eqb (vd_id data) ""); [discriminate|].
  destruct (negb _); [discriminate|].
  rewrite Hc. unfold qdrantCall.
  destruct (nextFault (q_faults q)) as [[|] rest]; [discriminate|].
  intros [= <-]. reflexivity.
Qed.

Lemma size_insert_twice {V} (m : gmap Z V) i x y :
  size (<[i := x]> (<[i := y]> m)) = size (<[i := y]> m).
Proof.
  rewrite insert_insert_eq.
  destruct (m !! i) as [z|] eqn:Hl.
  - rewrite <- (insert_delete_id m i z Hl) at 1 2.
    rewrite !insert_insert_eq, !map_size_insert_None by apply lookup_delete_eq.
    reflexivity.
  - now rewrite !map_size_insert_None by exact Hl.
Qed.

End WithFloat.
End QdrantFacts.

(** ** What the calls on the client leave of a cache entry *)

Module CacheFrame.
Section WithFloat.
Context {F : Type}.
Variable config : Config.
Import RedisClient StateProps RedisClientFacts.

Lemma chat_not_query sessionId query : chatKey sessionId <> queryKey query.
Proof.
  unfold chatKey, queryKey. rewrite !RecencyFacts.append_cons. intros Heq.
  apply Base64Props.String_inj in Heq as [Heq _]. discriminate Heq.
Qed.

(** ** Combinators *)

Lemma keeps_ret {A} (P : St F -> Prop) (a : A) : keeps P (ret a).
Proof. intros st HP. exact HP. Qed.

Lemma keeps_bind {A B} (P : St F -> Prop) (m : M (St F) A) (k : A -> M (St F) B) :
  keeps P m -> (forall a, keeps P (k a)) -> keeps P (bind m k).
Proof.
  intros Hm Hk st HP. unfold bind. specialize (Hm st HP).
  destruct (m st) as [[a|e] st1]; [apply Hk, Hm|exact Hm].
Qed.

Lemma keeps_tryCatch {A} (P : St F -> Prop) (m : M (St F) A) (h : string -> M (St F) A) :
  keeps P m -> (forall e, keeps P (h e)) -> keeps P (tryCatch m h).
Proof.
  intros Hm Hh st HP. unfold tryCatch. specialize (Hm st HP).
  destruct (m st) as [[a|e] st1]; [exact Hm|apply Hh, Hm].
Qed.

Lemma keeps_withSelf {A} (P : St F -> Prop) (k : t F -> M (St F) A) :
  (forall rc, keeps P (k rc)) -> keeps P (bind getSelf k).
Proof. intros Hk st HP. unfold bind, getSelf. apply Hk, HP. Qed.

Lemma keeps_update (P : St F -> Prop) (f : t F -> t F) :
  (forall rc r, P (rc, r) -> P (f rc, r)) -> keeps P (update f).
Proof. intros Hf [rc r] HP. apply Hf, HP. Qed.

Lemma keeps_dispatch {A} (P : St F -> Prop) (ip nw : M (St F) A) :
  (forall rc r, P (rc, r) -> P (setFallbackMode true rc, r)) ->
  keeps P ip -> keeps P nw -> keeps P (dispatch ip nw).
Proof.
  intros Hflag Hip Hnw. unfold dispatch. apply keeps_withSelf. intros rc.
  assert (Henter : keeps P (enterFallback ip)).
  { unfold enterFallback. apply keeps_bind; [|intros _; exact Hip].
    apply keeps_update, Hflag. }
  destruct (fallbackMode rc); [exact Hip|].
  apply keeps_tryCatch; [|intros _; exact Henter].
  destruct (getClient rc); [exact Hnw|exact Henter].
Qed.

(** ** The Redis server *)

(** A command changes no key but its own, and a GET changes none. *)
Lemma exec_other now (c : Redis.Command F) ks k :
  keyOf c <> k -> snd (Redis.exec now c ks) !! k = ks !! k.
Proof.
  intros Hne. destruct c; cbn [keyOf] in Hne; cbn [Redis.exec].
  all: repeat match goal with
         | |- context [match Redis.live ?n ?m ?key with _ => _ end] =>
             destruct (Redis.live n m key) as [[[?|?|?] ?]|]
         | |- context [match Redis.range ?l ?a ?b with _ => _ end] =>
             destruct (Redis.range l a b)
         | |- context [if ?b then _ else _] => destruct b
         end;
       cbn [snd];
       rewrite ?lookup_insert_ne, ?lookup_delete_ne by congruence;
       reflexivity.
Qed.

Lemma exec_get now key (ks : gmap string (Redis.Entry F)) :
  snd (Redis.exec now (Redis.GET key) ks) = ks.
Proof.
  cbn [Redis.exec]. destruct (Redis.live now ks key) as [[[?|?|?] ?]|]; reflexivity.
Qed.

Lemma send_keys now (c : Redis.Command F) r k :
  keyOf c <> k \/ (exists key, c = Redis.GET key) ->
  Redis.keys (snd (Redis.send now c r)) !! k = Redis.keys r !! k.
Proof.
  intros Hc. unfold Redis.send.
  destruct (nextFault (Redis.faults r)) as [[|] rest]; [reflexivity|].
  destruct (Redis.exec now c (Redis.keys r)) as [reply ks] eqn:He.
  cbn [snd Redis.keys].
  change ks with (snd (reply, ks)). rewrite <- He.
  destruct Hc as [Hne|[key ->]]; [apply exec_other, Hne|].
  now rewrite exec_get.
Qed.

Section Frame.
Variable query : string.
Variable holds : gmap string (Stored F) -> Prop.
Variable entry : option (Redis.Entry F).
Variable readTime : Z.
Hypothesis holds_insert :
  forall m key x, key <> queryKey query -> holds m -> holds (<[key := x]> m).
Hypothesis holds_delete :
  forall m key, key <> queryKey query -> holds m -> holds (delete key m).
Hypothesis holds_expire :
  forall m stored tm,
    tm <= readTime -> m !! queryKey query = Some stored -> expires stored < tm ->
    holds m -> holds (delete (queryKey query) m).

Local Notation "'kept'" := (entryKept holds (queryKey query) entry).

Lemma kept_flag rc r b : kept (rc, r) -> kept (setFallbackMode b rc, r).
Proof. intros HP. exact HP. Qed.

Lemma keeps_command now (c : Redis.Command F) :
  keyOf c <> queryKey query \/ (exists key, c = Redis.GET key) ->
  keeps kept (command now c).
Proof.
  intros Hc [rc r] [Hm Hr]. unfold command.
  destruct (client rc); [|split; assumption].
  pose proof (send_keys now c r (queryKey query) Hc) as Hs.
  destruct (Redis.send now c r) as [reply r']. unfold entryKept.
  cbn [snd fst] in *. split; [exact Hm|congruence].
Qed.

Lemma keeps_store key d ttl now :
  key <> queryKey query -> keeps kept (storeInMemory key d ttl now).
Proof.
  intros Hne. apply keeps_update. intros rc r [Hm Hr]. split; [|exact Hr].
  cbn [fst inMemoryStore setInMemoryStore]. apply holds_insert; assumption.
Qed.

Lemma keeps_read key now :
  key <> queryKey query \/ now <= readTime -> keeps kept (readInMemory key now).
Proof.
  intros Hk [rc r] [Hm Hr]. unfold readInMemory, bind, getSelf, ret, update.
  cbn [fst snd] in *.
  destruct (inMemoryStore rc !! key) as [stored|] eqn:Hl; [|split; assumption].
  destruct (Z.ltb_spec (expires stored) now) as [Hexp|_]; [|split; assumption].
  split; [|exact Hr]. cbn [fst snd inMemoryStore setInMemoryStore].
  destruct (decide (key = queryKey query)) as [->|Hne].
  - destruct Hk as [Hk|Hk]; [contradiction|].
    eapply holds_expire; eauto.
  - apply holds_delete; assumption.
Qed.

Ltac other_key :=
  first [apply Base64Props.session_not_query | apply chat_not_query].

Ltac commands :=
  repeat (apply keeps_bind;
          [apply keeps_command; left; cbn [keyOf]; other_key|intros ?]).

Lemma keeps_setSession sessionId d ttl now :
  keeps kept (setSession sessionId d ttl now).
Proof.
  assert (Hs : keeps kept (storeInMemory (sessionKey sessionId) (DSession d) ttl now))
    by (apply keeps_store; other_key).
  unfold setSession. apply keeps_withSelf. intros rc.
  destruct (fallbackMode rc); [exact Hs|].
  apply keeps_tryCatch; [|intros _; exact Hs].
  commands. apply keeps_ret.
Qed.

Lemma keeps_getSession sessionId now :
  keeps kept (getSession sessionId now).
Proof.
  assert (Hr : keeps kept (readInMemory (sessionKey sessionId) now))
    by (apply keeps_read; left; other_key).
  unfold getSession. apply keeps_withSelf. intros rc.
  destruct (fallbackMode rc); [exact Hr|].
  apply keeps_tryCatch; [|intros _; exact Hr].
  apply keeps_bind; [apply keeps_command; left; cbn [keyOf]; other_key|].
  intros keyType.
  destruct (String.eqb _ "hash").
  { apply keeps_bind; [apply keeps_command; left; cbn [keyOf]; other_key|].
    intros hashData. destruct hashData; apply keeps_ret. }
  destruct (String.eqb _ "string"); [|apply keeps_ret].
  apply keeps_bind; [apply keeps_command; left; cbn [keyOf]; other_key|].
  intros stringData.
  destruct stringData as [| | |[parsedData|]|]; try apply keeps_ret.
  apply keeps_bind; [apply keeps_command; left; cbn [keyOf]; other_key|intros _].
  apply keeps_bind; [apply keeps_setSession|intros _]. apply keeps_ret.
Qed.

(** A call that does not write the cache entry of [query], made no later
    than [readTime], keeps what the two stores hold for [query]. *)
Lemma call_keeps (op : ClientRun.Op F) now st :
  ClientRun.caches query (ClientRun.Call op now) = false ->
  now <= readTime ->
  kept st -> kept (snd (ClientRun.call config op now st)).
Proof.
  intros Hop Hnow HP.
  assert (Hflag : forall rc r, kept (rc, r) -> kept (setFallbackMode true rc, r))
    by (intros; assumption).
  destruct op; cbn [ClientRun.call].
  - pose proof (keeps_setSession sessionId d ttl now st HP) as Hk.
    destruct (setSession _ _ _ _ st). exact Hk.
  - pose proof (keeps_getSession sessionId now st HP) as Hk.
    destruct (getSession _ _ st). exact Hk.
  - assert (Hk : keeps kept (deleteSession (F:=F) sessionId now)).
    { unfold deleteSession. apply keeps_dispatch; [exact Hflag| |].
      - apply keeps_update. intros rc r [Hm Hr]. split; [|exact Hr].
        cbn [fst inMemoryStore setInMemoryStore]. apply holds_delete; [|exact Hm].
        other_key.
      - commands. apply keeps_ret. }
    specialize (Hk st HP). destruct (deleteSession _ _ st). exact Hk.
  - assert (Hk : keeps kept (addMessage config sessionId message now)).
    { unfold addMessage. apply keeps_dispatch; [exact Hflag| |].
      - apply keeps_update. intros rc r HP'. exact HP'.
      - commands. apply keeps_ret. }
    specialize (Hk st HP). destruct (addMessage _ _ _ _ st). exact Hk.
  - assert (Hk : keeps kept (getChatHistory (F:=F) sessionId limit now)).
    { unfold getChatHistory. apply keeps_dispatch; [exact Hflag| |].
      - apply keeps_withSelf. intros rc. apply keeps_ret.
      - apply keeps_bind; [apply keeps_command; left; cbn [keyOf]; other_key|].
        intros messages. destruct messages; apply keeps_ret. }
    specialize (Hk st HP). destruct (getChatHistory _ _ _ st). exact Hk.
  - assert (Hk : keeps kept (clearChatHistory (F:=F) sessionId now)).
    { unfold clearChatHistory. apply keeps_dispatch; [exact Hflag| |].
      - apply keeps_update. intros rc r HP'. exact HP'.
      - commands. apply keeps_ret. }
    specialize (Hk st HP). destruct (clearChatHistory _ _ st). exact Hk.
  - cbn [ClientRun.caches] in Hop. apply String.eqb_neq in Hop.
    assert (Hne : queryKey query0 <> queryKey query)
      by (intros Heq; apply Hop, Base64Props.queryKey_inj, Heq).
    assert (Hk : keeps kept (cacheQueryResult (F:=F) query0 result ttl now)).
    { unfold cacheQueryResult. apply keeps_dispatch; [exact Hflag| |].
      - apply keeps_store, Hne.
      - apply keeps_bind; [apply keeps_command; left; exact Hne|intros _].
        apply keeps_ret. }
    specialize (Hk st HP). destruct (cacheQueryResult _ _ _ _ st). exact Hk.
  - assert (Hk : keeps kept (getCachedQueryResult (F:=F) query0 now)).
    { unfold getCachedQueryResult. apply keeps_dispatch; [exact Hflag| |].
      - apply keeps_read. right. exact Hnow.
      - apply keeps_bind; [apply keeps_command; right; eauto|].
        intros result. destruct result; apply keeps_ret. }
    specialize (Hk st HP). destruct (getCachedQueryResult _ _ st). exact Hk.
Qed.

Lemma step_keeps (a : ClientRun.Action F) st :
  ClientRun.caches query a = false ->
  ClientRun.notAfter readTime a = true ->
  kept st -> kept (ClientRun.step config a st).
Proof.
  intros Ha Ht HP. destruct a as [op now|ev|outcome]; cbn [ClientRun.step].
  - apply call_keeps; [exact Ha| |exact HP].
    cbn [ClientRun.notAfter] in Ht. lia.
  - destruct st as [rc r]. destruct HP as [Hm Hr]. split; [|exact Hr].
    cbn [fst]. unfold handleEvent, onError, onConnect, onDisconnect.
    destruct (client rc); [|exact Hm].
    destruct ev; [destruct (negb (fallbackMode rc))|..]; exact Hm.
  - destruct st as [rc r]. destruct HP as [Hm Hr]. split; [|exact Hr].
    cbn [fst]. unfold connect. destruct (connectionAttempted rc); [exact Hm|].
    unfold _attemptConnection, handleEvent, onConnect.
    destruct outcome; exact Hm.
Qed.

Lemma execute_keeps (actions : list (ClientRun.Action F)) :
  forall st,
    forallb (fun a => negb (ClientRun.caches query a)) actions = true ->
    forallb (ClientRun.notAfter readTime) actions = true ->
    kept st -> kept (ClientRun.execute config actions st).
Proof.
  induction actions as [|a rest IH]; intros st Hc Ht HP; [exact HP|].
  cbn [forallb] in Hc, Ht.
  apply andb_true_iff in Hc as [Ha Hc]. apply andb_true_iff in Ht as [Hta Ht].
  apply negb_true_iff in Ha.
  unfold ClientRun.execute. cbn [fold_left].
  apply IH; [exact Hc|exact Ht|]. apply step_keeps; assumption.
Qed.

End Frame.

(** ** Reads of the cache *)

(** What the in-process store gives for a key at a time. *)
Lemma readInMemory_eq key now (rc : t F) (r : Redis.t F) :
  exists rc',
    readInMemory key now (rc, r)
    = (Ok (match inMemoryStore rc !! key with
           | Some stored =>
               if expires stored <? now then None else Some (data stored)
           | None => None
           end), (rc', r))
    /\ fallbackMode rc' = fallbackMode rc.
Proof.
  unfold readInMemory, bind, getSelf, ret, update. cbn [fst snd].
  destruct (inMemoryStore rc !! key) as [stored|]; [|eauto].
  destruct (expires stored <? now); eexists; split; reflexivity.
Qed.

(** A read that leaves the client in fallback mode was served by the
    in-process store. *)
Lemma read_served_in_process query now (rc : t F) (r : Redis.t F) :
  fallbackMode (fst (snd (getCachedQueryResult query now (rc, r)))) = true ->
  fst (getCachedQueryResult query now (rc, r))
  = Ok (match inMemoryStore rc !! queryKey query with
        | Some stored => if expires stored <? now then None else Some (data stored)
        | None => None
        end).
Proof.
  unfold getCachedQueryResult.
  destruct (fallbackMode rc) eqn:Hf.
  { rewrite dispatch_fallback by exact Hf. intros _.
    destruct (readInMemory_eq (queryKey query) now rc r) as (rc' & -> & _).
    reflexivity. }
  rewrite CacheFacts.dispatch_networked by exact Hf. unfold tryCatch.
  destruct (getClient rc) eqn:Hg.
  2:{ rewrite enterFallback_eq. intros _.
      destruct (readInMemory_eq (queryKey query) now (setFallbackMode true rc) r)
        as (rc' & -> & _).
      reflexivity. }
  destruct (CacheFacts.getClient_true rc Hg) as (_ & Hc & _).
  unfold bind. rewrite CacheFacts.command_client by exact Hc.
  unfold Redis.send.
  destruct (nextFault (Redis.faults r)) as [[|] rest]; cbn [fst snd].
  { rewrite enterFallback_eq. intros _.
    match goal with
    | |- context [readInMemory _ _ (?rc0, ?r0)] =>
        destruct (readInMemory_eq (queryKey query) now rc0 r0) as (rc' & -> & _)
    end.
    reflexivity. }
  unfold Redis.exec.
  destruct (Redis.live now (Redis.keys r) (queryKey query))
    as [[[d|fields|items] at_]|]; cbn [fst snd ret].
  1,4: rewrite Hf; discriminate.
  all: rewrite enterFallback_eq; intros _;
    match goal with
    | |- context [readInMemory _ _ (?rc0, ?r0)] =>
        destruct (readInMemory_eq (queryKey query) now rc0 r0) as (rc' & -> & _)
    end; reflexivity.
Qed.

(** A read that leaves the client out of fallback mode was served by
    Redis. *)
Lemma read_served_by_redis query now (rc : t F) (r : Redis.t F) :
  fallbackMode (fst (snd (getCachedQueryResult query now (rc, r)))) = false ->
  fst (getCachedQueryResult query now (rc, r))
  = Ok (match Redis.live now (Redis.keys r) (queryKey query) with
        | Some (Redis.mkEntry (Redis.RString d) _) => Some d
        | _ => None
        end).
Proof.
  unfold getCachedQueryResult.
  destruct (fallbackMode rc) eqn:Hf.
  { rewrite dispatch_fallback by exact Hf.
    destruct (readInMemory_eq (queryKey query) now rc r) as (rc' & -> & Hf').
    cbn [fst snd]. congruence. }
  rewrite CacheFacts.dispatch_networked by exact Hf. unfold tryCatch.
  destruct (getClient rc) eqn:Hg.
  2:{ rewrite enterFallback_eq.
      destruct (readInMemory_eq (queryKey query) now (setFallbackMode true rc) r)
        as (rc' & -> & Hf').
      cbn [fst snd]. rewrite Hf'. discriminate. }
  destruct (CacheFacts.getClient_true rc Hg) as (_ & Hc & _).
  unfold bind. rewrite CacheFacts.command_client by exact Hc.
  unfold Redis.send.
  destruct (nextFault (Redis.faults r)) as [[|] rest]; cbn [fst snd].
  { rewrite enterFallback_eq.
    match goal with
    | |- context [readInMemory _ _ (?rc0, ?r0)] =>
        destruct (readInMemory_eq (queryKey query) now rc0 r0) as (rc' & -> & Hf')
    end.
    cbn [fst snd]. rewrite Hf'. discriminate. }
  unfold Redis.exec.
  destruct (Redis.live now (Redis.keys r) (queryKey query))
    as [[[d|fields|items] at_]|]; cbn [fst snd ret]; try reflexivity.
  all: rewrite enterFallback_eq;
    match goal with
    | |- context [readInMemory _ _ (?rc0, ?r0)] =>
        destruct (readInMemory_eq (queryKey query) now rc0 r0) as (rc' & -> & Hf')
    end; cbn [fst snd]; rewrite Hf'; discriminate.
Qed.

(** Where a write of the cache lands, told by the mode it leaves. *)
Lemma write_lands query (v : StoreData F) ttl now (rc : t F) (r : Redis.t F) :
  0 < ttl ->
  let out := cacheQueryResult query v ttl now (rc, r) in
  fst out = Ok tt
  /\ (fallbackMode (fst (snd out)) = true ->
      inMemoryStore (fst (snd out)) !! queryKey query
        = Some (mkStored v (now + ttl * 1000)))
  /\ (fallbackMode (fst (snd out)) = false ->
      Redis.keys (snd (snd out)) !! queryKey query
        = Some (Redis.mkEntry (Redis.RString v) (Some (now + ttl * 1000)))).
Proof.
  intros Httl out.
  destruct (PipelineFacts.cacheQueryResult_returns config query v ttl now (rc, r))
    as (st' & Hret).
  split; [subst out; now rewrite Hret|].
  destruct (CacheFacts.cacheQueryResult_state query v ttl now rc r Httl)
    as [(rc0 & r0 & Hf0 & Hst)|(Hg & Hfault & Hst)]; fold out in Hst;
    rewrite Hst.
  - unfold storeInMemory, update. cbn [fst snd inMemoryStore setInMemoryStore
      fallbackMode]. rewrite Hf0. split; [|discriminate].
    intros _. apply lookup_insert_eq.
  - destruct (CacheFacts.getClient_true rc Hg) as (Hf & _).
    cbn [fst snd Redis.keys]. rewrite Hf. split; [discriminate|].
    intros _. apply lookup_insert_eq.
Qed.

End WithFloat.
End CacheFrame.

(* ===================================================================== *)
(** * The claims of the specification *)
(* ===================================================================== *)

Module Claims.
Import QNum Examples EmbeddingExamples PipelineExamples ClientExamples RunExamples ChatExamples RetrievalExamples CacheHitExamples.

(** ** Chunking *)

(** The loop of [createTextChunksWithOverlap] advances its window start
    on every iteration and returns once the fuel exceeds the length of
    the text, whenever [chunkSize > overlap]. *)
Lemma createTextChunksWithOverlap_progress article chunkSize overlap :
  0 <= overlap < chunkSize ->
  let text := Chunker.art_title article +:+ Chunker.nl +:+ Chunker.nl
                +:+ Chunker.art_content article in
  (forall start, start < Chunker.nextStart text chunkSize overlap start)
  /\ exists chunks, forall fuel,
       (Z.to_nat (Js.len text) < fuel)%nat ->
       Chunker.createTextChunksWithOverlap fuel article chunkSize overlap
         = Some chunks.
Proof.
  intros [_ Hlt] text. split.
  - intros start. apply ChunkerFacts.nextStart_increases, Hlt.
  - apply ChunkerFacts.createTextChunksWithOverlap_total, Hlt.
Qed.

(** C3 (violated by [createTextChunks]).  With its default parameters,
    size 1000 and overlap 200, the loop of [createTextChunks] on an
    article with empty title, description and content moves its window
    start from 0 to -196 and then from -196 to -196 again: the start
    does not increase, and the function returns for no amount of
    fuel. *)
Theorem createTextChunks_default_never_returns :
  let fullText := Chunker.fullTextOf Chunker.emptyArticle in
  Chunker.chunkEndOf fullText Chunker.defaultMaxChunkSize 0
    - Chunker.defaultMaxOverlap = -196
  /\ Chunker.chunkEndOf fullText Chunker.defaultMaxChunkSize (-196)
    - Chunker.defaultMaxOverlap = -196
  /\ forall fuel,
       Chunker.createTextChunks fuel Chunker.emptyArticle
         Chunker.defaultMaxChunkSize Chunker.defaultMaxOverlap = None.
Proof.
  cbv zeta. split; [reflexivity|]. split; [reflexivity|].
  intros fuel. apply ChunkerFacts.createTextChunks_diverges.
  unfold Chunker.defaultMaxOverlap. lia.
Qed.

(** ** Vector index *)

(** C4, as the code has it.  The id of a vector record is computed from
    the id string passed to the upsert, not from the text: the point id
    sent to Qdrant is [hashId] of the id string, the polynomial hash
    [c0 * 31^(n-1) + ... + c(n-1)] of its code units reduced to a signed
    32-bit integer, in absolute value (so for every sequence of code
    units), and the in-process store keeps the record under the id string
    itself.  Of two upserts with the same id
    string the second therefore overwrites the first, whatever their
    vectors and payloads: through the Qdrant client both requests carry
    the same point id, and the service (where a point replaces the point
    of the same id) holds the second record and as many points as after
    the first upsert; on the in-process store [countVectors] is unchanged
    and the record stored is the second one. *)
Theorem upsert_same_id_overwrites {F : Type} `{Float F}
    (vs : VectorStore.t F) (q : VectorStore.Qdrant F)
    (d1 d2 : VectorStore.VectorData F) (st1 st2 : VectorStore.St F) :
  VectorStore.vd_id d1 = VectorStore.vd_id d2 ->
  VectorStore.upsertVector d1 (vs, q) = (Ok tt, st1) ->
  VectorStore.upsertVector d2 st1 = (Ok tt, st2) ->
  let pointId := VectorStore.hashId (VectorStore.vd_id d1) in
  let pointOf (d : VectorStore.VectorData F) :=
    VectorStore.mkPoint (VectorStore.hashId (VectorStore.vd_id d))
      (VectorStore.vd_vector d)
      (default VectorStore.emptyPayload (VectorStore.vd_payload d)) in
  (forall codes : list Z,
     VectorStore.hashCodes codes
       = Z.abs (Js.toInt32 (HashSpec.polynomial codes))
     /\ 0 <= VectorStore.hashCodes codes <= 2 ^ 31)
  /\ pointId = VectorStore.hashCodes (Js.charCodes (VectorStore.vd_id d1))
  /\ (VectorStore.client vs = true ->
      VectorStore.q_log (snd st2)
        = VectorStore.q_log q
            ++ [VectorStore.QUpsert VectorStore.collectionName [pointOf d1];
                VectorStore.QUpsert VectorStore.collectionName [pointOf d2]]
      /\ VectorStore.pt_id (pointOf d1) = pointId
      /\ VectorStore.pt_id (pointOf d2) = pointId
      /\ VectorStore.q_points (snd st2) !! pointId
         = Some (VectorStore.vd_vector d2,
                 default VectorStore.emptyPayload (VectorStore.vd_payload d2))
      /\ size (VectorStore.q_points (snd st2))
         = size (VectorStore.q_points (snd st1)))
  /\ (VectorStore.client vs = false ->
      fst (VectorStore.countVectors st2) = fst (VectorStore.countVectors st1)
      /\ exists m,
           VectorStore.inMemoryVectors (fst st2) = Some m
           /\ fst (VectorStore.countVectors st2) = Ok (length m)
           /\ In (VectorStore.vd_id d2,
                  (VectorStore.vd_vector d2, VectorStore.vd_payload d2)) m).
Proof.
  intros Hid H1 H2 pointId pointOf.
  split.
  { intros codes. split;
      [apply HashProps.hashCodes_polynomial|apply HashProps.hashCodes_range]. }
  split; [reflexivity|].
  split.
  - intros Hc.
    pose proof (QdrantFacts.upsertVector_networked d1 vs q st1 Hc H1) as Hst1.
    cbn zeta in Hst1. subst st1.
    pose proof (QdrantFacts.upsertVector_networked d2 vs _ st2 Hc H2) as Hst2.
    cbn zeta in Hst2. subst st2.
    cbn [snd VectorStore.q_log VectorStore.q_points VectorStore.pt_id].
    subst pointId pointOf. cbn beta. rewrite <- Hid.
    split; [now rewrite <- app_assoc|].
    split; [reflexivity|]. split; [reflexivity|].
    split; [apply lookup_insert_eq|apply QdrantFacts.size_insert_twice].
  - intros Hc.
    destruct (VectorStoreFacts.upsertVector_inMemory d1 vs q st1 Hc H1)
      as (m & Hm & ->).
    set (vs1 := VectorStore.mk false _ true _) in *.
    destruct (VectorStoreFacts.upsertVector_inMemory d2 vs1 q st2 eq_refl H2)
      as (m1 & Hm1 & ->).
    subst vs1.
    cbn [VectorStore.inMemoryVectors] in Hm1. injection Hm1 as <-.
    assert (Hcount : forall m0 : list (string * (list F * option VectorStore.Payload)),
              fst (VectorStore.countVectors
                     (VectorStore.mk false (VectorStore.vectorSize vs) true (Some m0), q))
              = Ok (length m0)) by reflexivity.
    cbn [fst VectorStore.vectorSize VectorStore.inMemoryVectors]. split.
    + rewrite !Hcount. f_equal.
      apply VectorStoreFacts.mapSet_length_present.
      rewrite <- Hid. apply VectorStoreFacts.mapSet_In.
    + eexists. split; [reflexivity|]. split; [apply Hcount|].
      apply VectorStoreFacts.mapSet_lookup.
Qed.

Lemma upsert_same_id_overwrites_witness :
  VectorStore.vd_id (recordOf articleA [chunkA] chunkA [1 # 1; 0 # 1])
    = VectorStore.vd_id (recordOf articleA [chunkA] chunkA [0 # 1; 1 # 1])
  /\ fst (VectorStore.upsertVector (recordOf articleA [chunkA] chunkA [1 # 1; 0 # 1])
            (smallStore, idleQdrant)) = Ok tt
  /\ fst (VectorStore.countVectors
            (snd (VectorStore.upsertVector (recordOf articleA [chunkA] chunkA [0 # 1; 1 # 1])
                    (snd (VectorStore.upsertVector
                            (recordOf articleA [chunkA] chunkA [1 # 1; 0 # 1])
                            (smallStore, idleQdrant))))))
     = Ok 1%nat.
Proof.
  split; [reflexivity|]. split; [reflexivity|].
  refine (eq_trans
            (proj1 (proj2 (proj2 (proj2
               (upsert_same_id_overwrites smallStore idleQdrant
                  (recordOf articleA [chunkA] chunkA [1 # 1; 0 # 1])
                  (recordOf articleA [chunkA] chunkA [0 # 1; 1 # 1])
                  _ _ eq_refl eq_refl eq_refl))) eq_refl)) _).
  reflexivity.
Defined.

(** C4 fails as stated: two chunks with the same text (hence the same
    text under every normalisation) that come from articles with
    different ids get different record ids, and upserting the second
    after the first leaves two records: [countVectors] goes from 1 to 2
    on the in-process store, and Qdrant holds two points. *)
Lemma same_text_different_records :
  Chunker.createTextChunksWithOverlap 1 articleA 500 100 = Some [chunkA]
  /\ Chunker.createTextChunksWithOverlap 1 articleB 500 100 = Some [chunkB]
  /\ (forall normalize : string -> string,
        normalize (Chunker.chunk_text chunkA)
          = normalize (Chunker.chunk_text chunkB))
  /\ VectorStore.hashId (Chunker.chunk_id chunkA)
       <> VectorStore.hashId (Chunker.chunk_id chunkB)
  /\ (let st1 := snd (VectorStore.upsertVector (recordOf articleA [chunkA] chunkA [1 # 1; 0 # 1])
                        (smallStore, idleQdrant)) in
      let st2 := snd (VectorStore.upsertVector (recordOf articleB [chunkB] chunkB [1 # 1; 0 # 1])
                        st1) in
      fst (VectorStore.countVectors st1) = Ok 1%nat
      /\ fst (VectorStore.countVectors st2) = Ok 2%nat)
  /\ (let st1 := snd (VectorStore.upsertVector (recordOf articleA [chunkA] chunkA [1 # 1; 0 # 1])
                        (qdrantBackedStore, idleQdrant)) in
      let st2 := snd (VectorStore.upsertVector (recordOf articleB [chunkB] chunkB [1 # 1; 0 # 1])
                        st1) in
      size (VectorStore.q_points (snd st1)) = 1%nat
      /\ size (VectorStore.q_points (snd st2)) = 2%nat).
Proof.
  repeat split; try reflexivity.
  vm_compute. discriminate.
Qed.

(** C5 (violated by [upsertBatch]).  On an initialised in-process store
    of dimension 768, [upsertVector] rejects a record whose vector has
    3 components and leaves the store as it was, but [upsertBatch]
    accepts the same record and stores it. *)
Theorem upsertBatch_stores_mismatched_vector :
  VectorStore.upsertVector shortVector (fallbackStore, idleQdrant)
    = (Throw "Vector size mismatch: expected 768, got 3",
       (fallbackStore, idleQdrant))
  /\ VectorStore.upsertBatch [shortVector] (fallbackStore, idleQdrant)
    = (Ok tt,
       (VectorStore.mk false 768 true
          (Some [("a1_chunk_0", ([1 # 1; 0 # 1; 0 # 1], None))]),
        idleQdrant)).
Proof. split; reflexivity. Qed.

(** ** Embedding gateway *)

(** C2, as the code has it.  For every non-empty text [generateEmbedding]
    returns without throwing, and what it returns is either the fallback
    embedding, of length exactly 768, or, when the remote call succeeds
    with data, the first embedding of the reply as it was received. *)
Theorem generateEmbedding_dimension {F : Type} `{Float F}
    (svc : EmbeddingService.t) (jina : EmbeddingService.Jina F)
    (random : nat -> F) (text : string) :
  text <> "" ->
  exists v,
    EmbeddingService.generateEmbedding svc jina random text = Ok v
    /\ (length v = 768%nat
        \/ (EmbeddingService.jinaApiKey svc <> ""
            /\ exists others,
                 jina [EmbeddingService.preprocessText text]
                   = EmbeddingService.JinaBody (Some (v :: others)))).
Proof.
  intros Hne. unfold EmbeddingService.generateEmbedding.
  destruct (String.eqb_spec text ""); [contradiction|].
  destruct (String.eqb_spec (EmbeddingService.jinaApiKey svc) "") as [Hk|Hk].
  - eexists; split; [reflexivity|]. left.
    apply EmbeddingFacts.generateFallbackEmbedding_length.
  - unfold EmbeddingService.callJinaAPI.
    destruct (String.eqb_spec (EmbeddingService.jinaApiKey svc) "");
      [contradiction|].
    destruct (jina _) as [e|[[|first others]|]] eqn:Ej;
      try (eexists; split; [reflexivity|]; left;
           apply EmbeddingFacts.generateFallbackEmbedding_length).
    eexists; split; [reflexivity|]. right. split; [exact Hk|].
    exists others. reflexivity.
Qed.

Lemma generateEmbedding_dimension_witness :
  "Test sentence" <> ""
  /\ exists v,
       EmbeddingService.generateEmbedding noKeyEmbedding failingJina
         halfRandom "Test sentence" = Ok v
       /\ (length v = 768%nat
           \/ (EmbeddingService.jinaApiKey noKeyEmbedding <> ""
               /\ exists others,
                    failingJina [EmbeddingService.preprocessText "Test sentence"]
                      = EmbeddingService.JinaBody (Some (v :: others)))).
Proof.
  split; [discriminate|].
  apply (generateEmbedding_dimension noKeyEmbedding failingJina halfRandom
           "Test sentence").
  discriminate.
Defined.

(** C2 fails as stated: on the empty string [generateEmbedding] throws. *)
Lemma generateEmbedding_empty_throws :
  EmbeddingService.generateEmbedding noKeyEmbedding failingJina halfRandom ""
    = Throw "Text must be a non-empty string".
Proof. reflexivity. Qed.

(** ** Source extraction *)

(** C10.  For every list of search results, [extractSources] is the list
    the specification describes: results without payload or without
    (non-empty) article URL are dropped, the first result of every URL is
    kept, in the order of the input, and at most five sources remain,
    with pairwise distinct URLs; as long as fewer than five are kept no
    URL of the input is missing.  A run of [processQuery] whose only
    retrieved document has no payload returns a response with
    [contextUsed = 1] and no source. *)
Theorem extractSources_dedup_cap_order :
  (forall (F : Type) (results : list (VectorStore.SearchResult F)),
     let kept := RAGService.extractSources results in
     kept = SourcesSpec.specSources results
     /\ (length kept <= 5)%nat
     /\ NoDup (src_url <$> kept)
     /\ kept `sublist_of` omap SourcesSpec.candidate results
     /\ (forall s, s ∈ kept ->
           exists result p,
             result ∈ results
             /\ VectorStore.payload result = Some p
             /\ VectorStore.articleUrl p = Some (src_url s)
             /\ src_url s <> ""
             /\ relevanceScore s = VectorStore.score result)
     /\ ((length kept < 5)%nat ->
         forall result s,
           result ∈ results -> SourcesSpec.candidate result = Some s ->
           src_url s ∈ (src_url <$> kept)))
  /\ (exists r w,
        RAGService.processQuery defaultConfig true localEnv "What happened?"
          "session-1" RAGService.OptionsOmitted 1000 oneHitWorld
          = (Ok (RAGService.Computed r), w)
        /\ contextUsed r = 1%nat
        /\ sources r = []).
Proof.
  split.
  - intros F results kept.
    assert (Hspec : kept = SourcesSpec.specSources results)
      by apply SourcesFacts.extractSources_refines.
    assert (Hsub : kept `sublist_of` omap SourcesSpec.candidate results).
    { rewrite Hspec. unfold SourcesSpec.specSources.
      etransitivity; [apply sublist_take|apply SourcesFacts.firstByUrl_sublist]. }
    split; [exact Hspec|].
    split; [rewrite Hspec; unfold SourcesSpec.specSources; rewrite length_take; lia|].
    split.
    { rewrite Hspec. unfold SourcesSpec.specSources.
      apply (sublist_NoDup _
               (src_url <$> SourcesSpec.firstByUrl ∅
                              (omap SourcesSpec.candidate results)));
        [apply SourcesFacts.firstByUrl_NoDup|apply fmap_sublist, sublist_take]. }
    split; [exact Hsub|].
    split.
    + intros s Hs. eapply elem_of_sublist in Hs; [|exact Hsub].
      apply list_elem_of_omap in Hs as (result & Hin & Hc).
      destruct (SourcesFacts.candidate_origin result s Hc) as (p & ? & ? & ? & ?).
      exists result, p. auto.
    + intros Hlen result s Hin Hc.
      assert (Hall : kept = SourcesSpec.firstByUrl ∅ (omap SourcesSpec.candidate results)).
      { rewrite Hspec. unfold SourcesSpec.specSources. apply take_ge.
        rewrite Hspec in Hlen. unfold SourcesSpec.specSources in Hlen.
        rewrite length_take in Hlen. lia. }
      rewrite Hall.
      destruct (SourcesFacts.firstByUrl_complete
                  (omap SourcesSpec.candidate results) ∅ s) as [Hs|Hs];
        [|set_solver|exact Hs].
      apply list_elem_of_omap. eauto.
  - eexists _, _. vm_compute. split; [reflexivity|]. split; reflexivity.
Qed.

(** ** Key-value client: fallback mode *)

(** C6, as the code has it.  From a state in fallback mode, every run of
    data-path calls, 'error' and 'disconnect' events and [connect] calls
    in which the networked client emits no 'connect' event ends in
    fallback mode and leaves the Redis server untouched, its log of
    received commands included; in particular every single data-path
    method called in fallback mode returns without throwing, keeps the
    flag and sends no command. *)
Theorem fallback_mode_kept_without_connect_event {F : Type} (config : Config)
    (actions : list (ClientRun.Action F)) (rc : RedisClient.t F)
    (r : Redis.t F) :
  RedisClient.fallbackMode rc = true ->
  forallb (fun a => negb (ClientRun.emitsConnect a)) actions = true ->
  (RedisClient.fallbackMode (fst (ClientRun.execute config actions (rc, r))) = true
   /\ snd (ClientRun.execute config actions (rc, r)) = r)
  /\ (forall op now, exists rc',
        ClientRun.call config op now (rc, r) = (true, (rc', r))
        /\ RedisClient.fallbackMode rc' = true).
Proof.
  intros Hf Hall. split.
  - apply ClientRunFacts.execute_keeps_fallback; assumption.
  - intros op now. apply ClientRunFacts.call_in_fallback, Hf.
Qed.

Lemma fallback_mode_kept_without_connect_event_witness :
  RedisClient.fallbackMode erroredClient = true
  /\ forallb (fun a => negb (ClientRun.emitsConnect a)) degradedRun = true
  /\ RedisClient.fallbackMode
       (fst (ClientRun.execute defaultConfig degradedRun (erroredClient, idleRedis)))
     = true
  /\ snd (ClientRun.execute defaultConfig degradedRun (erroredClient, idleRedis))
     = idleRedis.
Proof.
  split; [reflexivity|]. split; [reflexivity|].
  exact (proj1 (fallback_mode_kept_without_connect_event defaultConfig degradedRun
                  erroredClient idleRedis eq_refl eq_refl)).
Defined.

(** C6 fails as stated: a client that an 'error' event put in fallback
    mode leaves it again on the next 'connect' event of the networked
    client, and the following cache read sends a GET to Redis. *)
Lemma connect_event_leaves_fallback_mode :
  RedisClient.fallbackMode erroredClient = true
  /\ RedisClient.fallbackMode
       (fst (ClientRun.execute defaultConfig reconnectingRun
               (erroredClient, idleRedis))) = false
  /\ Redis.log (snd (ClientRun.execute defaultConfig reconnectingRun
                       (erroredClient, idleRedis)))
     = [Redis.GET (RedisClient.queryKey "q")].
Proof. repeat split; reflexivity. Qed.

(** ** Key-value client: query cache *)




(** ** Key-value client: chat history *)

(** C8, as the code has it.  Let the chat history limit N be positive.
    (a) Whatever the mode and the faults, a run of calls, events and
    connection attempts keeps every in-process chat log at N messages at
    most.  (b) When at least N messages are appended to a session while
    the client is in fallback mode, the in-process log is left with
    exactly the N most recent ones, and [getChatHistory] with a limit of
    0 or more returns the most recent [min limit N] of them, most recent
    last.  (c) The same holds for the log in Redis, and for a positive
    limit, when the client is connected, no command is lost, the chat key
    is free or holds a list, and the key does not expire on the way:
    its time to live is positive, and each message and the read come
    within it after the message before. *)
Theorem chat_log_bounded_most_recent_last {F : Type} (config : Config)
    (sessionId : string) (e : Message F * Z) (rest : list (Message F * Z))
    (rc : RedisClient.t F) (r : Redis.t F) (limit tRead : Z) :
  0 < chatHistoryLimit config ->
  let entries := e :: rest in
  let st' := ChatLog.appendAll config sessionId entries (rc, r) in
  (forall actions,
     ChatLog.bounded config rc ->
     ChatLog.bounded config (fst (ClientRun.execute config actions (rc, r))))
  /\ (RedisClient.fallbackMode rc = true ->
      chatHistoryLimit config <= Z.of_nat (length entries) ->
      0 <= limit ->
      RedisClient.inMemoryLists (fst st') !! RedisClient.chatKey sessionId
        = Some (rev (ChatLog.lastN (chatHistoryLimit config)
                       (ChatLog.stamped entries)))
      /\ fst (RedisClient.getChatHistory sessionId limit tRead st')
         = Ok (ChatLog.lastN (Z.min limit (chatHistoryLimit config))
                 (ChatLog.stamped entries)))
  /\ (RedisClient.getClient rc = true ->
      ChatLog.quiet r ->
      ChatLog.listOrFree r (RedisClient.chatKey sessionId) ->
      0 < sessionTtl config ->
      ChatLog.withinTtl config (snd e) rest ->
      tRead <= ChatLog.lastTime (snd e) rest + sessionTtl config * 1000 ->
      chatHistoryLimit config <= Z.of_nat (length entries) ->
      0 < limit ->
      ChatLog.redisLog (snd st') sessionId tRead
        = rev (ChatLog.lastN (chatHistoryLimit config) (ChatLog.stamped entries))
      /\ fst (RedisClient.getChatHistory sessionId limit tRead st')
         = Ok (ChatLog.lastN (Z.min limit (chatHistoryLimit config))
                 (ChatLog.stamped entries))).
Proof.
  intros HN entries st'.
  assert (Hrecent : forall old : list (Message F),
            chatHistoryLimit config <= Z.of_nat (length entries) ->
            take (Z.to_nat (chatHistoryLimit config))
                 (rev (ChatLog.stamped entries) ++ old)
            = rev (ChatLog.lastN (chatHistoryLimit config)
                     (ChatLog.stamped entries))).
  { intros old Hlen. rewrite take_app_le.
    - apply ChatLogContent.lastN_rev_take.
    - rewrite length_rev, ChatLogContent.stamped_length. lia. }
  assert (Hpage : 0 <= limit ->
            rev (take (Z.to_nat limit)
                   (rev (ChatLog.lastN (chatHistoryLimit config)
                           (ChatLog.stamped entries))))
            = ChatLog.lastN (Z.min limit (chatHistoryLimit config))
                (ChatLog.stamped entries)).
  { intros Hl. rewrite ChatLogContent.lastN_rev_take, rev_involutive.
    apply ChatLogContent.lastN_lastN; lia. }
  split; [|split].
  - intros actions Hb. apply ChatRunFacts.execute_keeps_bounded; assumption.
  - intros Hf Hlen Hl.
    destruct (ChatLogContent.appendAll_inProcess config sessionId rest HN e rc r Hf)
      as (Hf' & Hr & Hlog).
    subst st' entries.
    rewrite Hrecent in Hlog by exact Hlen. split; [exact Hlog|].
    destruct (ChatLog.appendAll config sessionId (e :: rest) (rc, r)) as [rc' r'].
    cbn [fst snd] in *.
    rewrite ChatLogContent.getChatHistory_inProcess by assumption.
    unfold ChatLog.logOf. rewrite Hlog. cbn [default from_option id].
    now rewrite Hpage.
  - intros Hg Hq Hlist Httl Hpace Hread Hlen Hl.
    destruct (ChatLogContent.appendAll_networked config sessionId rest rc HN Httl
                Hg e r Hq Hlist Hpace) as (log & faults & Heq & Hfaults).
    subst st' entries. rewrite Heq. cbn [fst snd].
    rewrite Hrecent by exact Hlen.
    assert (Hlog : ChatLog.redisLog
                     (Redis.mk log faults
                        (<[RedisClient.chatKey sessionId :=
                             Redis.mkEntry
                               (Redis.RList
                                  (rev (ChatLog.lastN (chatHistoryLimit config)
                                          (ChatLog.stamped (e :: rest)))))
                               (Some (ChatLog.lastTime (snd e) rest
                                        + sessionTtl config * 1000))]>
                           (Redis.keys r)))
                     sessionId tRead
                   = rev (ChatLog.lastN (chatHistoryLimit config)
                            (ChatLog.stamped (e :: rest))))
      by (apply ChatLogContent.redisLog_insert; exact Hread).
    split; [exact Hlog|].
    rewrite ChatLogContent.getChatHistory_networked;
      [|exact Hg|exact Hfaults|apply ChatLogContent.listOrFree_insert|exact Hl].
    rewrite Hlog. rewrite Hpage by lia. reflexivity.
Qed.

Lemma chat_log_bounded_most_recent_last_witness :
  0 < chatHistoryLimit smallConfig
  /\ fst (RedisClient.getChatHistory "session-1" 10 5000
            (ChatLog.appendAll smallConfig "session-1" three
               (degradedClient, idleRedis)))
     = Ok [stamp (numbered 2) 2000; stamp (numbered 3) 3000].
Proof.
  split; [reflexivity|].
  exact (proj2 (proj1 (proj2
           (chat_log_bounded_most_recent_last smallConfig "session-1"
              (numbered 1, 1000) [(numbered 2, 2000); (numbered 3, 3000)]
              degradedClient idleRedis 10 5000 eq_refl))
           eq_refl ltac:(discriminate) ltac:(discriminate))).
Defined.

(** C8 fails as stated.  With a limit of 2, twelve messages are appended
    to one session, and the connection to Redis is lost at the twelfth.
    That message starts an empty in-process log, which is the log read
    from then on: after the twelve appends [getChatHistory] returns one
    message, not the two most recent, while Redis still holds the tenth
    and the eleventh. *)
Lemma chat_log_shorter_than_limit :
  let st := ChatLog.appendAll smallConfig "session-1" twelve
              (connectedClient, redisFailingLate) in
  fst (RedisClient.getChatHistory "session-1" 50 12000 st)
    = Ok [stamp (numbered 12) 12000]
  /\ ChatLog.redisLog (snd st) "session-1" 12000
     = [stamp (numbered 11) 11000; stamp (numbered 10) 10000].
Proof. split; vm_compute; reflexivity. Qed.

(** ** Query pipeline *)

(** C1, as the code has it.  On an initialised service, and for every
    [options] argument but [null] (the argument left out, or an object
    that gives any of the four properties), [processQuery] returns a
    result for every query, session id, collaborators and state, and
    never throws; whenever a step of the pipeline throws, what it returns
    is the fallback response: no sources, no context, model 'fallback',
    the apology as non-empty response text, and the message of the
    error. *)
Theorem processQuery_returns_when_initialized {F : Type} `{Float F}
    (config : Config) (env : RAGService.Env F) (query sessionId : string)
    (options : RAGService.OptionsArg F) (now : Z) (w : RAGService.World F) :
  options <> RAGService.OptionsNull ->
  exists constants result w',
    RAGService.destructure config options = Ok constants
    /\ RAGService.processQuery config true env query sessionId options now w
       = (Ok result, w')
    /\ (forall message w1,
          RAGService.pipeline config env query sessionId constants now w
            = (Throw message, w1) ->
          let fallback := RAGService.fallbackResponse query sessionId now message in
          result = RAGService.Computed fallback
          /\ sources fallback = []
          /\ contextUsed fallback = 0%nat
          /\ model fallback = "fallback"
          /\ response fallback = RAGService.apology query
          /\ response fallback <> ""
          /\ error fallback = Some message).
Proof.
  intros Hnull.
  destruct (PipelineFacts.destructure_returns config options Hnull)
    as [constants Hd].
  exists constants.
  rewrite (PipelineFacts.processQuery_destructured config env query sessionId
             options constants now w Hd).
  unfold tryCatch.
  destruct (RAGService.pipeline config env query sessionId constants now w)
    as [[result|message] w1] eqn:Hp.
  - exists result, w1. split; [exact Hd|]. split; [reflexivity|].
    intros message w2 [=].
  - destruct (PipelineFacts.recover_returns config query sessionId now message w1)
      as (w' & Hr).
    eexists _, w'. split; [exact Hd|]. split; [exact Hr|].
    intros message' w2 [= <- <-]. cbn zeta.
    repeat split; try reflexivity. apply PipelineFacts.apology_nonempty.
Qed.

Lemma processQuery_returns_when_initialized_witness :
  RAGService.OptionsOmitted (F:=Q) <> RAGService.OptionsNull
  /\ exists result w',
       RAGService.processQuery defaultConfig true localEnv latestNews "session-1"
         RAGService.OptionsOmitted 1000 worldFailingTwice
       = (Ok result, w').
Proof.
  split; [discriminate|].
  destruct (processQuery_returns_when_initialized defaultConfig localEnv latestNews
              "session-1" RAGService.OptionsOmitted 1000 worldFailingTwice
              ltac:(discriminate))
    as (constants & result & w' & _ & Hr & _).
  exists result, w'. exact Hr.
Defined.

(** C1 fails as stated: before the service is initialised, [processQuery]
    throws to its caller. *)
Lemma processQuery_throws_when_not_initialized :
  RAGService.processQuery defaultConfig false localEnv "What happened?"
    "session-1" RAGService.OptionsOmitted 1000 oneHitWorld
  = (Throw "RAG service not initialized", oneHitWorld).
Proof. reflexivity. Qed.

(** C9, as the code has it.  Let the lower-cased text of the query
    contain 'today', 'recent', 'latest' or 'current'.  The retrieval step
    first calls [searchSimilar] for [maxResults * 2] candidates with the
    filter [publishDate >= now - 3 days], and if that call throws it calls
    [searchSimilar] for [maxResults * 2] candidates without filter.  On an
    initialised service without cache hit, when the filtered search
    throws: if the retry returns, [processQuery] returns a response built
    from the documents of the retry, with no error and a model other than
    'fallback', provided the generation gateway is initialised and can
    group the documents by source (none of the documents kept names an
    inherited member of an object as its source); if the retry throws as
    well, it returns the fallback response.  A query without these
    keywords is searched once, without filter. *)
Theorem recent_query_retrieval {F : Type} `{Float F} (config : Config)
    (env : RAGService.Env F) (query sessionId : string)
    (options : RAGService.OptionsArg F) (constants : RAGService.Options F)
    (now : Z) (w : RAGService.World F) (queryEmbedding : list F) :
  RAGService.destructure config options = Ok constants ->
  let size := RAGService.maxResults constants * 2 in
  let filtered :=
    VectorStore.searchSimilar queryEmbedding size
      (Some (VectorStore.PublishDateGte (now - 259200000))) in
  let unfiltered := VectorStore.searchSimilar queryEmbedding size None in
  (Recency.asksForRecentNews query ->
   (forall w0,
      RAGService.retrieve query queryEmbedding (RAGService.maxResults constants)
        now w0
        = match RAGService.liftVector filtered w0 with
          | (Ok results, w1) => (Ok results, w1)
          | (Throw _, w1) => RAGService.liftVector unfiltered w1
          end)
   /\ (EmbeddingService.generateEmbedding (RAGService.embeddingService env)
         (RAGService.jina env) (RAGService.random env) query = Ok queryEmbedding ->
       (RAGService.useCache constants = false
        \/ fst (RedisClient.getCachedQueryResult query now
                  (RAGService.redisClient w, RAGService.redis w)) = Ok None) ->
       forall message st1,
         filtered (RAGService.vectorStore w, RAGService.qdrant w)
           = (Throw message, st1) ->
         (forall results st2,
            unfiltered st1 = (Ok results, st2) ->
            GeminiService.isInitialized (RAGService.geminiService env) = true ->
            Grouping.groupable (RAGService.relevantAmong constants results) ->
            exists r w',
              RAGService.processQuery config true env query sessionId options now w
                = (Ok (RAGService.Computed r), w')
              /\ error r = None
              /\ model r <> "fallback"
              /\ contextUsed r
                 = length (RAGService.relevantAmong constants results)
              /\ sources r
                 = RAGService.extractSources
                     (RAGService.relevantAmong constants results)
              /\ (RAGService.vectorStore w', RAGService.qdrant w') = st2)
         /\ (forall message' st2,
               unfiltered st1 = (Throw message', st2) ->
               exists w',
                 RAGService.processQuery config true env query sessionId options now w
                   = (Ok (RAGService.Computed
                            (RAGService.fallbackResponse query sessionId now message')),
                      w'))))
  /\ (~ Recency.asksForRecentNews query ->
      forall w0,
        RAGService.retrieve query queryEmbedding (RAGService.maxResults constants)
          now w0
          = RAGService.liftVector unfiltered w0).
Proof.
  intros Hd size filtered unfiltered. split.
  2:{ intros Hno w0. apply RetrievalFacts.retrieve_other.
      destruct (RAGService.isRecentNewsQuery query) eqn:E; [|reflexivity].
      exfalso. apply Hno, RecencyFacts.isRecentNewsQuery_spec, E. }
  intros Hrecent. apply RecencyFacts.isRecentNewsQuery_spec in Hrecent.
  split; [intros w0; apply RetrievalFacts.retrieve_recent, Hrecent|].
  intros Hemb Hmiss message st1 Hfiltered.
  (* the world in which retrieval starts *)
  assert (Hstart : exists w1,
            (if RAGService.useCache constants
             then RAGService.liftRedis (RedisClient.getCachedQueryResult query now)
             else ret None) w = (Ok None, w1)
            /\ RAGService.vectorStore w1 = RAGService.vectorStore w
            /\ RAGService.qdrant w1 = RAGService.qdrant w).
  { destruct (RAGService.useCache constants) eqn:Ec.
    - destruct Hmiss as [Hmiss|Hmiss]; [discriminate|].
      unfold RAGService.liftRedis.
      destruct (RedisClient.getCachedQueryResult query now _) as [res [rc rs]].
      cbn [fst] in Hmiss. subst res. eexists. split; [reflexivity|]. auto.
    - exists w. auto. }
  destruct Hstart as (w1 & Hcache & Hv1 & Hq1).
  assert (Hretrieve : forall outcome st2,
            unfiltered st1 = (outcome, st2) ->
            RAGService.retrieve query queryEmbedding (RAGService.maxResults constants)
              now w1
            = (outcome,
               RAGService.mkWorld (RAGService.redisClient w1) (RAGService.redis w1)
                                  (fst st2) (snd st2))).
  { intros outcome st2 Hun. rewrite RetrievalFacts.retrieve_recent by exact Hrecent.
    unfold RAGService.liftVector at 1. rewrite Hv1, Hq1.
    fold size. change (RAGService.recentFilter now)
      with (VectorStore.PublishDateGte (now - 259200000)).
    fold filtered. rewrite Hfiltered. destruct st1 as [vs1 q1].
    unfold RAGService.liftVector.
    cbn [RAGService.vectorStore RAGService.qdrant RAGService.redisClient
         RAGService.redis].
    fold size. fold unfiltered. rewrite Hun. destruct st2; reflexivity. }
  assert (Hpipeline :
    RAGService.pipeline config env query sessionId constants now w
    = match RAGService.retrieve query queryEmbedding (RAGService.maxResults constants)
              now w1 with
      | (Ok searchResults, w2) =>
          RAGService.respond config env query sessionId constants now
            (RAGService.relevantAmong constants searchResults) w2
      | (Throw e, w2) => (Throw e, w2)
      end).
  { unfold RAGService.pipeline. unfold bind at 1. rewrite Hcache.
    unfold bind at 1. unfold RAGService.liftResult at 1. rewrite Hemb.
    reflexivity. }
  pose proof (PipelineFacts.processQuery_destructured config env query sessionId
                options constants now w Hd) as Hprocess.
  split.
  - intros results st2 Hun Hinit Hgroup.
    destruct (RetrievalFacts.respond_returns config env query sessionId constants now
                (RAGService.relevantAmong constants results)
                (RAGService.mkWorld (RAGService.redisClient w1) (RAGService.redis w1)
                                    (fst st2) (snd st2)) Hinit Hgroup)
      as (r & w' & Hres & He & Hm & Hc & Hs & Hv & Hq).
    exists r, w'. rewrite Hprocess. unfold tryCatch.
    rewrite Hpipeline, (Hretrieve _ _ Hun), Hres.
    split; [reflexivity|]. repeat split; try assumption.
    rewrite Hv, Hq. destruct st2; reflexivity.
  - intros message' st2 Hun.
    rewrite Hprocess. unfold tryCatch.
    rewrite Hpipeline, (Hretrieve _ _ Hun).
    apply PipelineFacts.recover_returns.
Qed.

Lemma recent_query_retrieval_witness :
  RAGService.destructure defaultConfig (RAGService.OptionsOmitted (F:=Q))
    = Ok (RAGService.defaultOptions defaultConfig)
  /\ Recency.asksForRecentNews latestNews
  /\ exists r w',
       RAGService.processQuery defaultConfig true localEnv latestNews "session-1"
         RAGService.OptionsOmitted 1000 worldFailingOnce
         = (Ok (RAGService.Computed r), w')
       /\ error r = None
       /\ model r <> "fallback"
       /\ contextUsed r = 1%nat.
Proof.
  split; [reflexivity|].
  assert (Hrecent : Recency.asksForRecentNews latestNews)
    by (apply RecencyFacts.isRecentNewsQuery_spec; reflexivity).
  split; [exact Hrecent|].
  pose proof (recent_query_retrieval defaultConfig localEnv latestNews "session-1"
                RAGService.OptionsOmitted (RAGService.defaultOptions defaultConfig)
                1000 worldFailingOnce
                (EmbeddingService.generateFallbackEmbedding (fun _ => 1 # 2)
                   (EmbeddingService.preprocessText latestNews) 768)
                eq_refl)
    as [Hthm _].
  cbv zeta in Hthm. destruct (Hthm Hrecent) as [_ He2e].
  edestruct He2e as [Hok _];
    [reflexivity|right; reflexivity|vm_compute; reflexivity|].
  edestruct Hok as (r & w' & Hres & He & Hm & Hc & _);
    [vm_compute; reflexivity|reflexivity|
     apply RetrievalFacts.groupable_check; vm_compute; reflexivity|].
  exists r, w'. split; [exact Hres|]. split; [exact He|]. split; [exact Hm|].
  rewrite Hc. vm_compute. reflexivity.
Defined.

(** C9 fails as stated.  (1) When the filtered search and the unfiltered
    retry both throw, the query is answered by the fallback response,
    which carries the error and the model 'fallback'; Qdrant did receive
    the two requests, for 10 candidates each, the first one with the date
    filter.  (2) When the answer is cached, no search is requested. *)
Lemma recent_query_without_normal_response :
  Recency.asksForRecentNews latestNews
  /\ (exists w',
        RAGService.processQuery defaultConfig true localEnv latestNews "session-1"
          RAGService.OptionsOmitted 1000 worldFailingTwice
          = (Ok (RAGService.Computed
                   (RAGService.fallbackResponse latestNews "session-1" 1000
                      "Qdrant request failed")), w')
        /\ omap requestShape (VectorStore.q_log (RAGService.qdrant w'))
           = [(10, Some (VectorStore.PublishDateGte (1000 - 259200000)));
              (10, None)])
  /\ (exists w',
        RAGService.processQuery defaultConfig true localEnv latestNews "session-1"
          RAGService.OptionsOmitted 1000 worldWithCache
          = (Ok (RAGService.Cached cachedAnswer 1000), w')
        /\ VectorStore.q_log (RAGService.qdrant w') = []).
Proof.
  split; [apply RecencyFacts.isRecentNewsQuery_spec; reflexivity|].
  split; eexists; vm_compute; split; reflexivity.
Qed.

End Claims.

(* ===================================================================== *)
(** * Further properties of the services *)
(* ===================================================================== *)

Module TextProps.
Import Text.

Lemma take_len_le n s : Js.len (Js.take n s) <= Js.len s.
Proof.
  unfold Js.len. revert s; induction n as [|n IH]; intros [|c r]; simpl; try lia.
  specialize (IH r). lia.
Qed.

Lemma take_len n s : Js.len (Js.take n s) <= Z.of_nat n.
Proof.
  unfold Js.len. revert s; induction n as [|n IH]; intros [|c r]; simpl; try lia.
  specialize (IH r). lia.
Qed.

Lemma drop_len_le n s : Js.len (Js.drop n s) <= Js.len s.
Proof. unfold Js.len. rewrite JsFacts.drop_length. lia. Qed.

Lemma slice_len_le s b e : Js.len (Js.slice s b e) <= Js.len s.
Proof.
  unfold Js.slice. etransitivity; [apply take_len_le|apply drop_len_le].
Qed.

Lemma slice_len_upto s e : 0 <= e -> Js.len (Js.slice s 0 e) <= e.
Proof.
  intros He. unfold Js.slice. etransitivity; [apply take_len|].
  unfold Js.clampIndex. pose proof (ChunkerFacts.len_nonneg s).
  destruct (0 <? 0) eqn:E0; [discriminate|].
  destruct (e <? 0) eqn:E; [apply Z.ltb_lt in E|]; lia.
Qed.

Lemma allChars_take P n s : allChars P s -> allChars P (Js.take n s).
Proof.
  revert s; induction n as [|n IH]; intros [|c r]; simpl; try tauto.
  intros [Hc Hr]. split; [exact Hc|apply IH, Hr].
Qed.

Lemma allChars_drop P n s : allChars P s -> allChars P (Js.drop n s).
Proof.
  revert s; induction n as [|n IH]; intros [|c r]; simpl; try tauto.
  intros [_ Hr]. apply IH, Hr.
Qed.

Lemma allChars_slice P s b e : allChars P s -> allChars P (Js.slice s b e).
Proof. intros Hs. unfold Js.slice. apply allChars_take, allChars_drop, Hs. Qed.

Lemma allChars_trimStart P s : allChars P s -> allChars P (Js.trimStart s).
Proof.
  induction s as [|c r IH]; simpl; [tauto|].
  intros [Hc Hr]. destruct (Js.isSpace c); [apply IH, Hr|split; assumption].
Qed.

Lemma allChars_trimEnd P s : allChars P s -> allChars P (Js.trimEnd s).
Proof.
  induction s as [|c r IH]; [simpl; tauto|].
  intros [Hc Hr]. cbn [Js.trimEnd]. specialize (IH Hr).
  destruct (Js.trimEnd r) as [|c' r'].
  - destruct (Js.isSpace c); simpl; tauto.
  - split; assumption.
Qed.

Lemma allChars_trim P s : allChars P s -> allChars P (Js.trim s).
Proof. intros Hs. apply allChars_trimEnd, allChars_trimStart, Hs. Qed.

Lemma collapseSpaces_plain inSpaces s :
  plainSpaces (EmbeddingService.collapseSpaces inSpaces s).
Proof.
  unfold plainSpaces. revert inSpaces; induction s as [|c r IH]; intros b;
    [exact I|].
  cbn [EmbeddingService.collapseSpaces].
  destruct (Js.isSpace c) eqn:E.
  - destruct b; [apply IH|]. split; [reflexivity|apply IH].
  - split; [congruence|apply IH].
Qed.

End TextProps.

Module ChunkerProps.
Import Chunker ChunkNumbering.

(** ** Lengths of slices and trimmed strings *)

Lemma slice_len s b e :
  0 <= b <= Js.len s -> 0 <= e -> Js.len (Js.slice s b e) <= Z.max 0 (e - b).
Proof.
  intros Hb He. unfold Js.slice.
  set (l := Js.len s).
  assert (Hfrom : Js.clampIndex l b = b).
  { unfold Js.clampIndex. destruct (b <? 0) eqn:E; [apply Z.ltb_lt in E; lia|lia]. }
  rewrite Hfrom.
  etransitivity; [apply TextProps.take_len|].
  assert (Hto : Js.clampIndex l e <= e).
  { unfold Js.clampIndex. destruct (e <? 0) eqn:E; [apply Z.ltb_lt in E|]; lia. }
  lia.
Qed.

Lemma trimStart_len s : Js.len (Js.trimStart s) <= Js.len s.
Proof.
  unfold Js.len. induction s as [|c r IH]; simpl; [lia|].
  destruct (Js.isSpace c); simpl; lia.
Qed.

Lemma trimEnd_len s : Js.len (Js.trimEnd s) <= Js.len s.
Proof.
  unfold Js.len. induction s as [|c r IH]; [simpl; lia|].
  cbn [Js.trimEnd]. destruct (Js.trimEnd r) as [|c' r'].
  - destruct (Js.isSpace c); simpl in *; lia.
  - simpl in *. lia.
Qed.

Lemma trim_len s : Js.len (Js.trim s) <= Js.len s.
Proof.
  unfold Js.trim. etransitivity; [apply trimEnd_len|apply trimStart_len].
Qed.

(** ** The window of one iteration *)

Lemma breakPoint_bounds text chunkSize start :
  0 <= chunkSize -> 0 <= start < Js.len text ->
  start <= breakPoint text chunkSize start <= start + chunkSize.
Proof.
  intros Hc Hs. unfold breakPoint.
  set (end_ := Z.min (start + chunkSize) (Js.len text)).
  assert (start <= end_ <= start + chunkSize) by (subst end_; lia).
  destruct (end_ <? Js.len text); [|lia].
  destruct (above70 _ _) eqn:E;
    [apply ChunkerFacts.above70_positive in E; [|exact Hc]|lia].
  pose proof (JsFacts.lastIndexOf_upper ". " (Js.slice text start end_) None
                ltac:(simpl; lia)) as Hup.
  pose proof (slice_len text start end_ ltac:(lia) ltac:(lia)) as Hsl.
  split; [lia|].
  (* the match has two characters, so it ends inside the slice *)
  assert (Js.lastIndexOf ". " (Js.slice text start end_) None + 2
            <= Js.len (Js.slice text start end_)); [|lia].
  clear - E Hc. unfold Js.lastIndexOf in *.
  set (s := Js.slice text start end_) in *.
  destruct (String.length s <? String.length ". ")%nat eqn:El; [lia|].
  apply Nat.ltb_ge in El.
  pose proof (JsFacts.lastIndexFrom_bounds ". " s
                (String.length s - String.length ". ")) as Hb.
  unfold Js.len. simpl String.length in *. lia.
Qed.

Lemma chunk_text_len text chunkSize start :
  0 <= chunkSize -> 0 <= start < Js.len text ->
  Js.len (Js.trim (Js.slice text start (breakPoint text chunkSize start)))
    <= chunkSize.
Proof.
  intros Hc Hs.
  pose proof (breakPoint_bounds text chunkSize start Hc Hs).
  etransitivity; [apply trim_len|].
  etransitivity; [apply slice_len; lia|]. lia.
Qed.

Lemma overlapLoop_chunk_size articleId text chunkSize overlap :
  0 <= chunkSize ->
  forall fuel start chunkIndex chunks r,
    0 <= start ->
    Forall (fun c => Js.len (chunk_text c) <= chunkSize) chunks ->
    overlapLoop fuel articleId text chunkSize overlap start chunkIndex chunks
      = Some r ->
    Forall (fun c => Js.len (chunk_text c) <= chunkSize) r.
Proof.
  intros Hc fuel; induction fuel as [|fuel IH]; intros start ci cs r Hs Hcs Hr;
    [discriminate|].
  cbn [overlapLoop] in Hr.
  destruct (start <? Js.len text) eqn:E; [|congruence].
  apply Z.ltb_lt in E.
  assert (Hnew : Forall (fun c => Js.len (chunk_text c) <= chunkSize)
                   (cs ++ [mkChunk (chunkIdOf articleId ci)
                             (Js.trim (Js.slice text start
                                         (breakPoint text chunkSize start)))
                             ci None None])).
  { apply Forall_app; split; [exact Hcs|].
    constructor; [|constructor]. cbn [chunk_text].
    apply chunk_text_len; lia. }
  destruct (Js.len text <=? _); [congruence|].
  eapply IH; [|exact Hnew|exact Hr].
  pose proof (breakPoint_bounds text chunkSize start Hc ltac:(lia)).
  unfold nextStart. lia.
Qed.

(** ** The number of chunks *)

(** The loop is entered with [n] chunks only when [start] has moved
    forward [n] times. *)
Lemma overlapLoop_count articleId text chunkSize overlap :
  overlap < chunkSize ->
  forall fuel start chunkIndex chunks r,
    Z.of_nat (length chunks) * (chunkSize - overlap) <= start ->
    (Z.of_nat (length chunks) - 1) * (chunkSize - overlap) < Js.len text ->
    overlapLoop fuel articleId text chunkSize overlap start chunkIndex chunks
      = Some r ->
    (Z.of_nat (length r) - 1) * (chunkSize - overlap) < Js.len text.
Proof.
  intros Hstep fuel; induction fuel as [|fuel IH]; intros start ci cs r Hs Hcs Hr;
    [discriminate|].
  cbn [overlapLoop] in Hr.
  destruct (start <? Js.len text) eqn:E; [|congruence].
  apply Z.ltb_lt in E.
  set (cs' := cs ++ [_]) in Hr.
  assert (Hl : Z.of_nat (length cs') = Z.of_nat (length cs) + 1).
  { subst cs'. rewrite length_app. simpl. lia. }
  assert (Hcs' : (Z.of_nat (length cs') - 1) * (chunkSize - overlap)
                 < Js.len text) by (rewrite Hl; lia).
  destruct (Js.len text <=? _); [congruence|].
  eapply IH; [|exact Hcs'|exact Hr].
  rewrite Hl. unfold nextStart. nia.
Qed.

(** ** Numbering *)

Lemma numbered_snoc articleId chunks text :
  numbered articleId chunks ->
  numbered articleId
    (chunks ++ [mkChunk (chunkIdOf articleId (length chunks)) text
                        (length chunks) None None]).
Proof.
  intros Hn i chunk Hi.
  apply lookup_app_Some in Hi as [Hi|[Hle Hi]]; [exact (Hn i chunk Hi)|].
  apply list_lookup_singleton_Some in Hi as [Hi <-].
  assert (i = length chunks) by lia. subst i. split; reflexivity.
Qed.

Lemma overlapLoop_numbered articleId text chunkSize overlap :
  forall fuel start chunks r,
    numbered articleId chunks ->
    overlapLoop fuel articleId text chunkSize overlap start (length chunks) chunks
      = Some r ->
    numbered articleId r /\ (length chunks <= length r)%nat
    /\ (start < Js.len text -> (length chunks < length r)%nat).
Proof.
  induction fuel as [|fuel IH]; intros start cs r Hn Hr; [discriminate|].
  cbn [overlapLoop] in Hr.
  destruct (start <? Js.len text) eqn:E.
  - set (cs' := cs ++ [_]) in Hr.
    assert (Hn' : numbered articleId cs') by apply numbered_snoc, Hn.
    assert (Hl : length cs' = S (length cs)).
    { subst cs'. rewrite length_app. simpl. lia. }
    destruct (Js.len text <=? _).
    + injection Hr as <-. split; [exact Hn'|]. lia.
    + rewrite <- Hl in Hr. apply IH in Hr as (H1 & H2 & _); [|exact Hn'].
      split; [exact H1|]. lia.
  - injection Hr as <-. apply Z.ltb_ge in E. split; [exact Hn|]. lia.
Qed.

Lemma numbered_NoDup articleId chunks :
  numbered articleId chunks -> NoDup (chunk_id <$> chunks).
Proof.
  intros Hn. apply NoDup_alt. intros i j x Hi Hj.
  rewrite list_lookup_fmap in Hi, Hj.
  destruct (chunks !! i) as [ci|] eqn:Ei; [|discriminate].
  destruct (chunks !! j) as [cj|] eqn:Ej; [|discriminate].
  simpl in Hi, Hj.
  destruct (Hn i ci Ei) as [_ Hidi]. destruct (Hn j cj Ej) as [_ Hidj].
  assert (Heq : chunkIdOf articleId i = chunkIdOf articleId j) by congruence.
  unfold chunkIdOf in Heq.
  apply String.app_inj in Heq. apply String.app_inj in Heq.
  apply pretty_nat_inj in Heq. exact Heq.
Qed.

End ChunkerProps.

Module ChunkerExtras.
Import Chunker.

(** X1.  When the overlap is smaller than the chunk size,
    [createTextChunksWithOverlap] returns: with [n] the length of the
    text, title and content with the blank line between them, the result
    is there as soon as the fuel exceeds [n], and it has at most
    [n / (chunkSize - overlap) + 1] chunks, every chunk but the last
    standing for a move of the window by [chunkSize - overlap] at
    least. *)
Theorem overlap_chunks_terminate article chunkSize overlap :
  overlap < chunkSize ->
  let text := art_title article +:+ nl +:+ nl +:+ art_content article in
  exists chunks,
    (forall fuel,
       (Z.to_nat (Js.len text) < fuel)%nat ->
       createTextChunksWithOverlap fuel article chunkSize overlap = Some chunks)
    /\ (Z.of_nat (length chunks) - 1) * (chunkSize - overlap) < Js.len text.
Proof.
  intros Hstep text.
  destruct (ChunkerFacts.createTextChunksWithOverlap_total article chunkSize
              overlap Hstep) as [chunks Hchunks].
  fold text in Hchunks. exists chunks. split; [exact Hchunks|].
  assert (Hlen : 0 < Js.len text).
  { subst text. rewrite !ChunkerFacts.len_append.
    pose proof (ChunkerFacts.len_nonneg (art_title article)).
    pose proof (ChunkerFacts.len_nonneg (art_content article)).
    change (Js.len nl) with 1. lia. }
  specialize (Hchunks (S (Z.to_nat (Js.len text))) ltac:(lia)).
  unfold createTextChunksWithOverlap in Hchunks. fold text in Hchunks.
  destruct (Js.len text <=? chunkSize).
  - injection Hchunks as <-. simpl. lia.
  - eapply ChunkerProps.overlapLoop_count; [exact Hstep| | |exact Hchunks];
      simpl; lia.
Qed.

Lemma overlap_chunks_terminate_witness :
  1 < 5
  /\ exists chunks,
       createTextChunksWithOverlap 20 shortArticle 5 1 = Some chunks
       /\ (Z.of_nat (length chunks) - 1) * (5 - 1) < 18.
Proof.
  split; [lia|].
  destruct (overlap_chunks_terminate shortArticle 5 1 ltac:(lia))
    as (chunks & Hfuel & Hcount).
  exists chunks. split; [apply Hfuel; vm_compute; lia|exact Hcount].
Defined.

(** X2.  Whatever the chunk size and the overlap, the chunks that
    [createTextChunksWithOverlap] returns are never none, the chunk at
    position [i] has index [i] and id [`${article.id}_chunk_${i}`], and
    no two chunks of the article share an id. *)
Theorem overlap_chunks_numbered article chunkSize overlap fuel chunks :
  createTextChunksWithOverlap fuel article chunkSize overlap = Some chunks ->
  chunks <> []
  /\ (forall i chunk, chunks !! i = Some chunk ->
        chunk_index chunk = i /\ chunk_id chunk = chunkIdOf (art_id article) i)
  /\ NoDup (chunk_id <$> chunks).
Proof.
  unfold createTextChunksWithOverlap.
  set (text := art_title article +:+ nl +:+ nl +:+ art_content article).
  assert (Hnil : ChunkNumbering.numbered (art_id article) []).
  { intros i c Hi. rewrite lookup_nil in Hi. discriminate. }
  assert (Hone : forall t, ChunkNumbering.numbered (art_id article)
                   [mkChunk (chunkIdOf (art_id article) 0) t 0%nat None None]).
  { intros t. apply (ChunkerProps.numbered_snoc (art_id article) [] t Hnil). }
  destruct (Js.len text <=? chunkSize).
  - intros [= <-]. split; [discriminate|]. split; [apply Hone|].
    apply ChunkerProps.numbered_NoDup with (articleId := art_id article), Hone.
  - intros Hr.
    apply (ChunkerProps.overlapLoop_numbered (art_id article) text chunkSize
             overlap fuel 0 [] chunks Hnil) in Hr as (Hn & _ & Hpos).
    split.
    + assert (0 < Js.len text).
      { subst text. rewrite !ChunkerFacts.len_append.
        pose proof (ChunkerFacts.len_nonneg (art_title article)).
        pose proof (ChunkerFacts.len_nonneg (art_content article)).
        change (Js.len nl) with 1. lia. }
      intros ->. specialize (Hpos ltac:(lia)). simpl in Hpos. lia.
    + split; [exact Hn|].
      apply ChunkerProps.numbered_NoDup with (articleId := art_id article), Hn.
Qed.

Lemma overlap_chunks_numbered_witness :
  exists chunks,
    createTextChunksWithOverlap 20 shortArticle 5 1 = Some chunks
    /\ length chunks = 4%nat
    /\ NoDup (chunk_id <$> chunks).
Proof.
  eexists. split; [vm_compute; reflexivity|]. split; [reflexivity|].
  apply (overlap_chunks_numbered shortArticle 5 1 20). vm_compute. reflexivity.
Defined.

(** X3.  For a non-negative chunk size, no chunk that
    [createTextChunksWithOverlap] returns has a text longer than the
    chunk size. *)
Theorem overlap_chunks_fit article chunkSize overlap fuel chunks :
  0 <= chunkSize ->
  createTextChunksWithOverlap fuel article chunkSize overlap = Some chunks ->
  Forall (fun chunk => Js.len (chunk_text chunk) <= chunkSize) chunks.
Proof.
  intros Hc. unfold createTextChunksWithOverlap.
  set (text := art_title article +:+ nl +:+ nl +:+ art_content article).
  destruct (Js.len text <=? chunkSize) eqn:E.
  - intros [= <-]. apply Z.leb_le in E. constructor; [exact E|constructor].
  - apply ChunkerProps.overlapLoop_chunk_size; [exact Hc|lia|constructor].
Qed.

Lemma overlap_chunks_fit_witness :
  0 <= 5
  /\ exists chunks,
       createTextChunksWithOverlap 20 shortArticle 5 1 = Some chunks
       /\ Forall (fun chunk => Js.len (chunk_text chunk) <= 5) chunks.
Proof.
  split; [lia|]. eexists. split; [vm_compute; reflexivity|].
  apply (overlap_chunks_fit shortArticle 5 1 20); [lia|vm_compute; reflexivity].
Defined.

End ChunkerExtras.

Module HashExtras.
Import VectorStore.

(** X4.  The point id that [hashId] computes for Qdrant is a non-negative
    integer of at most 2^31, whatever the code units of the id string,
    and [hashId] is not injective: two id strings that differ only in
    that one has [Aa] where the other has [BB] are different strings
    with the same point id. *)
Theorem hashId_range_and_collisions codes before after :
  0 <= hashCodes codes <= 2 ^ 31
  /\ before +:+ "Aa" +:+ after <> before +:+ "BB" +:+ after
  /\ hashId (before +:+ "Aa" +:+ after) = hashId (before +:+ "BB" +:+ after).
Proof.
  split; [apply HashProps.hashCodes_range|split].
  - intros Heq. apply String.app_inj in Heq. discriminate Heq.
  - unfold hashId, hashCodes. rewrite !HashProps.charCodes_app.
    rewrite !HashProps.hashLoop_app.
    change (Js.charCodes "Aa") with [65; 97].
    change (Js.charCodes "BB") with [66; 66].
    now rewrite HashProps.hashLoop_Aa_BB.
Qed.

End HashExtras.

Module VectorStoreProps.
Section WithFloat.
Context {F : Type} `{Float F}.
Import VectorStore StoreShape.

Lemma mapSet_Forall {V} (P : string * V -> Prop) k v (m : list (string * V)) :
  P (k, v) -> Forall P m -> Forall P (mapSet k v m).
Proof.
  intros Hkv Hm. induction Hm as [|[k' v'] m Hx Hm IH]; simpl.
  - constructor; [exact Hkv|constructor].
  - destruct (String.eqb k k'); constructor; auto.
Qed.

Lemma mapSet_length_le {V} k (v : V) (m : list (string * V)) :
  (length (mapSet k v m) <= S (length m))%nat.
Proof.
  induction m as [|[k' v'] m IH]; simpl; [lia|].
  destruct (String.eqb k k'); simpl; lia.
Qed.

Lemma cosineSimilarity_returns (a b : list F) :
  length a = length b -> exists sc, cosineSimilarity a b = Ok sc.
Proof.
  intros Hl. unfold cosineSimilarity. rewrite Hl, Nat.eqb_refl. simpl.
  destruct (cosineSums a b fzero fzero fzero) as [[d na] nb]. eauto.
Qed.

Lemma cosineSimilarity_throws (a b : list F) :
  length a <> length b ->
  cosineSimilarity a b = Throw "Vectors must have the same dimensions".
Proof.
  intros Hl. unfold cosineSimilarity.
  destruct (Nat.eqb_spec (length a) (length b)); [contradiction|reflexivity].
Qed.

Lemma scoreAll_returns (queryVector : list F) m :
  Forall (fun entry => length (fst (snd entry)) = length queryVector) m ->
  exists results,
    scoreAll queryVector m = Ok results
    /\ Forall2 (scored queryVector) m results.
Proof.
  induction 1 as [|[id [v pl]] m Hx Hm (results & Hr & Hall)]; simpl.
  - eexists; split; [reflexivity|constructor].
  - simpl in Hx. destruct (cosineSimilarity_returns queryVector v) as [sc Hsc];
      [congruence|].
    rewrite Hsc, Hr. eexists; split; [reflexivity|].
    constructor; [|exact Hall]. repeat split; exact Hsc.
Qed.

Lemma scoreAll_throws (queryVector : list F) m id v pl :
  In (id, (v, pl)) m -> length v <> length queryVector ->
  scoreAll queryVector m = Throw "Vectors must have the same dimensions".
Proof.
  intros Hin Hne. induction m as [|[id' [v' pl']] m IH]; [destruct Hin|].
  simpl. destruct (Nat.eq_dec (length queryVector) (length v')) as [Heq|Hneq].
  - destruct (cosineSimilarity_returns queryVector v' Heq) as [sc ->].
    destruct Hin as [Hhd|Htl]; [congruence|].
    rewrite (IH Htl). reflexivity.
  - rewrite (cosineSimilarity_throws _ _ Hneq). reflexivity.
Qed.

Lemma insertByScore_Permutation (x : SearchResult F) l :
  Permutation (insertByScore x l) (x :: l).
Proof.
  induction l as [|y l IH]; simpl; [reflexivity|].
  destruct (fltb (score x) (score y)); [|reflexivity].
  rewrite IH. apply perm_swap.
Qed.

Lemma sortByScore_Permutation (l : list (SearchResult F)) :
  Permutation (sortByScore l) l.
Proof.
  unfold sortByScore. induction l as [|x l IH]; simpl; [reflexivity|].
  rewrite insertByScore_Permutation, IH. reflexivity.
Qed.

Lemma searchSimilar_in_process_eq vs q m queryVector limit filter :
  inProcessStore vs m -> length queryVector = vectorSize vs ->
  searchSimilar queryVector limit filter (vs, q)
    = (searchInMemory vs queryVector limit, (vs, q)).
Proof.
  intros (Hc & Hi & Hm) Hq. unfold searchSimilar, bind, getStore. simpl.
  rewrite Hi, Hq, Nat.eqb_refl, Hc. reflexivity.
Qed.

End WithFloat.
End VectorStoreProps.

Module VectorStoreExtras.
Import QNum Examples PipelineExamples StoreExamples.
Import VectorStore StoreShape.

(** X5.  [initialize] never throws and always leaves the store
    initialised, with the vector size it had.  It ends either on Qdrant,
    and then the collection exists there, or on the in-process store,
    which is then empty. *)
Theorem initialize_leaves_store_initialized {F : Type} `{Float F} (st : St F) :
  exists st',
    initialize st = (Ok tt, st')
    /\ isInitialized (fst st') = true
    /\ vectorSize (fst st') = vectorSize (fst st)
    /\ (if client (fst st')
        then In collectionName (q_collections (snd st'))
        else inMemoryVectors (fst st') = Some []).
Proof.
  destruct st as [vs q].
  unfold initialize, tryCatch, bind, getStore, setStore, qdrantCall.
  cbn -[String.eqb existsb].
  destruct (nextFault (q_faults q)) as [[|] rest] eqn:E1; cbn -[String.eqb existsb].
  { eexists; repeat split; reflexivity. }
  destruct (existsb (String.eqb collectionName) (q_collections q)) eqn:Ex;
    cbn -[String.eqb existsb].
  { eexists; repeat split; cbn -[String.eqb existsb].
    apply existsb_exists in Ex as (x & Hin & Hx).
    apply String.eqb_eq in Hx. subst x. exact Hin. }
  unfold createCollection, bind, getStore, qdrantCall; cbn -[String.eqb existsb].
  destruct (nextFault rest) as [[|] rest'] eqn:E2; cbn -[String.eqb existsb].
  { eexists; repeat split; reflexivity. }
  eexists; repeat split; cbn -[String.eqb existsb].
  apply in_or_app. right. left. reflexivity.
Qed.

(** X6.  The in-process store only ever holds vectors of the size of
    the collection as long as it is filled through [upsertVector]:
    [initializeFallback] leaves such a store, and [upsertVector] keeps
    it so, whether it returns or throws. *)
Theorem upsertVector_keeps_vectors_sized {F : Type} `{Float F}
    (data : VectorData F) (st : St F) :
  wellSized (fst (snd (initializeFallback st)))
  /\ (wellSized (fst st) -> wellSized (fst (snd (upsertVector data st)))).
Proof.
  split.
  { destruct st as [vs q]. intros m [= <-]. constructor. }
  destruct st as [vs q]. intros Hw.
  unfold upsertVector, bind, getStore; simpl.
  destruct (isInitialized vs); simpl; [|exact Hw].
  destruct (String.eqb (vd_id data) ""); [exact Hw|].
  destruct (Nat.eqb_spec (length (vd_vector data)) (vectorSize vs)) as [Hl|];
    simpl; [|exact Hw].
  destruct (client vs).
  - unfold qdrantCall. destruct (nextFault (q_faults q)) as [[|] rest]; exact Hw.
  - destruct (inMemoryVectors vs) as [m|] eqn:Em; [|exact Hw].
    intros m' [= <-]. simpl.
    apply VectorStoreProps.mapSet_Forall; [exact Hl|].
    apply Hw. exact Em.
Qed.

Lemma upsertVector_keeps_vectors_sized_witness :
  wellSized smallStore
  /\ wellSized (fst (snd (upsertVector (recordOf articleA [chunkA] chunkA [1 # 1; 0 # 1])
                            (smallStore, idleQdrant)))).
Proof.
  assert (Hw : wellSized smallStore) by (intros m [= <-]; constructor).
  split; [exact Hw|].
  exact (proj2 (upsertVector_keeps_vectors_sized
                  (recordOf articleA [chunkA] chunkA [1 # 1; 0 # 1]) (smallStore, idleQdrant)) Hw).
Defined.

(** X7.  On an in-process store whose vectors have the size of the
    collection, [searchSimilar] with a query of that size and a
    non-negative limit returns without throwing and leaves the store as
    it is.  It returns [min limit n] results for [n] stored vectors, each
    of them made of a stored entry: its id, its payload, and as score the
    cosine similarity of the query and its vector. *)
Theorem searchSimilar_in_process {F : Type} `{Float F} (vs : t F)
    (q : Qdrant F) m (queryVector : list F) (limit : Z) filter :
  inProcessStore vs m -> wellSized vs ->
  length queryVector = vectorSize vs -> 0 <= limit ->
  exists results,
    searchSimilar queryVector limit filter (vs, q) = (Ok results, (vs, q))
    /\ length results = Nat.min (Z.to_nat limit) (length m)
    /\ forall result, In result results ->
         exists entry, In entry m /\ scored queryVector entry result.
Proof.
  intros Hin Hw Hq Hl.
  rewrite (VectorStoreProps.searchSimilar_in_process_eq vs q m) by assumption.
  destruct Hin as (_ & _ & Hm). unfold searchInMemory. rewrite Hm.
  destruct (VectorStoreProps.scoreAll_returns queryVector m)
    as (results & Hr & Hall).
  { rewrite Hq. apply Hw, Hm. }
  rewrite Hr, SourcesFacts.sliceList_prefix by exact Hl.
  eexists; split; [reflexivity|]. split.
  - rewrite length_take.
    rewrite (Permutation_length (VectorStoreProps.sortByScore_Permutation results)).
    rewrite <- (Forall2_length _ _ _ Hall). reflexivity.
  - intros result Hres.
    apply list_elem_of_In, elem_of_take in Hres as (i & Hres & _).
    apply list_elem_of_lookup_2, list_elem_of_In in Hres.
    apply (Permutation_in _ (VectorStoreProps.sortByScore_Permutation results))
      in Hres.
    apply list_elem_of_In, list_elem_of_lookup_1 in Hres as [j Hj].
    destruct (Forall2_lookup_r _ _ _ _ _ Hall Hj) as (entry & Hentry & Hsc).
    exists entry. split; [|exact Hsc].
    apply list_elem_of_In, list_elem_of_lookup_2 with j. exact Hentry.
Qed.

Lemma searchSimilar_in_process_witness :
  inProcessStore twoVectorStore twoVectors
  /\ wellSized twoVectorStore
  /\ length [1 # 2; 1 # 2] = vectorSize twoVectorStore
  /\ 0 <= 1
  /\ exists results,
       searchSimilar [1 # 2; 1 # 2] 1 None (twoVectorStore, idleQdrant)
         = (Ok results, (twoVectorStore, idleQdrant))
       /\ length results = 1%nat.
Proof.
  assert (Hin : inProcessStore twoVectorStore twoVectors)
    by (repeat split; reflexivity).
  assert (Hw : wellSized twoVectorStore).
  { intros m [= <-]. repeat constructor. }
  split; [exact Hin|]. split; [exact Hw|]. split; [reflexivity|].
  split; [lia|].
  destruct (searchSimilar_in_process twoVectorStore idleQdrant twoVectors
              [1 # 2; 1 # 2] 1 None Hin Hw eq_refl ltac:(lia))
    as (results & Hr & Hlen & _).
  exists results. split; [exact Hr|exact Hlen].
Defined.

(** X8.  One stored vector of the wrong size makes every search on the
    in-process store throw: [searchSimilar] with a query of the size of
    the collection then throws the error of [cosineSimilarity], whatever
    the limit. *)
Theorem searchSimilar_throws_on_missized_vector {F : Type} `{Float F}
    (vs : t F) (q : Qdrant F) m (queryVector : list F) (limit : Z) filter
    id vector pl :
  inProcessStore vs m ->
  In (id, (vector, pl)) m -> length vector <> vectorSize vs ->
  length queryVector = vectorSize vs ->
  searchSimilar queryVector limit filter (vs, q)
    = (Throw "Vectors must have the same dimensions", (vs, q)).
Proof.
  intros Hin Hentry Hne Hq.
  rewrite (VectorStoreProps.searchSimilar_in_process_eq vs q m) by assumption.
  destruct Hin as (_ & _ & Hm). unfold searchInMemory. rewrite Hm.
  rewrite (VectorStoreProps.scoreAll_throws queryVector m id vector pl Hentry)
    by congruence.
  reflexivity.
Qed.

Lemma searchSimilar_throws_on_missized_vector_witness :
  inProcessStore missizedStore [("a1_chunk_0", ([1 # 1; 0 # 1; 0 # 1], None))]
  /\ length [1 # 1; 0 # 1; 0 # 1] <> vectorSize missizedStore
  /\ length (replicate 768 (1 # 1)) = vectorSize missizedStore
  /\ searchSimilar (replicate 768 (1 # 1)) 5 None (missizedStore, idleQdrant)
     = (Throw "Vectors must have the same dimensions",
        (missizedStore, idleQdrant)).
Proof.
  assert (Hin : inProcessStore missizedStore
                  [("a1_chunk_0", ([1 # 1; 0 # 1; 0 # 1], None))])
    by (repeat split; reflexivity).
  assert (Hne : length [1 # 1; 0 # 1; 0 # 1] <> vectorSize missizedStore)
    by (vm_compute; discriminate).
  assert (Hq : length (replicate 768 (1 # 1)) = vectorSize missizedStore)
    by (vm_compute; reflexivity).
  split; [exact Hin|]. split; [exact Hne|]. split; [exact Hq|].
  exact (searchSimilar_throws_on_missized_vector missizedStore idleQdrant _
           (replicate 768 (1 # 1)) 5 None "a1_chunk_0" [1 # 1; 0 # 1; 0 # 1]
           None Hin (or_introl eq_refl) Hne Hq).
Defined.

(** X9.  Once the store is initialised [countVectors] never throws and
    never changes the store.  In process it returns the number of stored
    ids; on Qdrant it returns the number of results of a search for
    10000 neighbours, and 0 when that request fails. *)
Theorem countVectors_returns {F : Type} `{Float F} (st : St F) :
  isInitialized (fst st) = true ->
  exists n st',
    countVectors st = (Ok n, st')
    /\ fst st' = fst st
    /\ (forall m, inProcessStore (fst st) m -> n = length m /\ st' = st)
    /\ (client (fst st) = true ->
        match q_faults (snd st) with
        | true :: _ => n = 0%nat
        | _ =>
            n = length (answer (snd st)
                          (replicate (vectorSize (fst st)) ftenth) 10000 None)
        end).
Proof.
  destruct st as [vs q]. simpl. intros Hi.
  unfold countVectors, bind, getStore, tryCatch; simpl. rewrite Hi; simpl.
  destruct (client vs) eqn:Ec.
  - unfold qdrantCall.
    destruct (q_faults q) as [|[|] rest]; simpl;
      (eexists; eexists; split; [reflexivity|]; split; [reflexivity|]; split;
       [intros m (Hc & _); simpl in Hc; congruence|intros _; reflexivity]).
  - destruct (inMemoryVectors vs) as [m|] eqn:Em; simpl;
      (eexists; eexists; split; [reflexivity|]; split; [reflexivity|]; split;
       [|discriminate]).
    + intros m' (_ & _ & Hm'). simpl in Hm'. rewrite Em in Hm'.
      injection Hm' as <-. split; reflexivity.
    + intros m' (_ & _ & Hm'). simpl in Hm'. congruence.
Qed.

Lemma countVectors_returns_witness :
  isInitialized qdrantStore = true
  /\ fst (countVectors (qdrantStore, qdrantDown)) = Ok 0%nat.
Proof.
  split; [reflexivity|].
  destruct (countVectors_returns (qdrantStore, qdrantDown) eq_refl)
    as (n & st' & Hcount & _ & _ & Hq).
  rewrite Hcount. simpl. f_equal. exact (Hq eq_refl).
Defined.

(** X10.  A record that [upsertVector] stores in process is found by
    the next search that asks for more results than there are vectors:
    the results hold one with the id and the payload of the record and,
    as score, the cosine similarity of the query and its vector. *)
Theorem upsert_then_search_finds {F : Type} `{Float F} (data : VectorData F)
    (vs : t F) (q : Qdrant F) m (queryVector : list F) (limit : Z) filter :
  inProcessStore vs m -> wellSized vs ->
  vd_id data <> "" -> length (vd_vector data) = vectorSize vs ->
  length queryVector = vectorSize vs ->
  Z.of_nat (length m) < limit ->
  exists st' results sc,
    upsertVector data (vs, q) = (Ok tt, st')
    /\ searchSimilar queryVector limit filter st' = (Ok results, st')
    /\ cosineSimilarity queryVector (vd_vector data) = Ok sc
    /\ In (mkSearchResult (StrId (vd_id data)) sc (vd_payload data)) results.
Proof.
  intros (Hc & Hi & Hm) Hw Hid Hl Hq Hlim.
  set (m' := mapSet (vd_id data) (vd_vector data, vd_payload data) m).
  set (vs' := mk false (vectorSize vs) true (Some m')).
  assert (Hup : upsertVector data (vs, q) = (Ok tt, (vs', q))).
  { unfold upsertVector, bind, getStore; simpl. rewrite Hi; simpl.
    apply String.eqb_neq in Hid. rewrite Hid, Hl, Nat.eqb_refl; simpl.
    rewrite Hc, Hm. reflexivity. }
  assert (Hin' : inProcessStore vs' m') by (repeat split; reflexivity).
  assert (Hw' : wellSized vs').
  { intros m2 [= <-]. apply VectorStoreProps.mapSet_Forall; [exact Hl|].
    apply Hw, Hm. }
  pose proof (VectorStoreProps.mapSet_length_le (vd_id data)
                (vd_vector data, vd_payload data) m) as Hlen.
  fold m' in Hlen.
  exists (vs', q).
  rewrite (VectorStoreProps.searchSimilar_in_process_eq vs' q m')
    by assumption.
  unfold searchInMemory. cbn [inMemoryVectors vs'].
  destruct (VectorStoreProps.scoreAll_returns queryVector m')
    as (results & Hr & Hall).
  { rewrite Hq. apply (Hw' m'). reflexivity. }
  rewrite Hr, SourcesFacts.sliceList_prefix by lia.
  assert (Hentry : In (vd_id data, (vd_vector data, vd_payload data)) m')
    by apply VectorStoreFacts.mapSet_lookup.
  apply list_elem_of_In, list_elem_of_lookup_1 in Hentry as [j Hj].
  destruct (Forall2_lookup_l _ _ _ _ _ Hall Hj) as (result & Hres & Hs1 & Hs2 & Hs3).
  cbn [fst snd] in Hs1, Hs2, Hs3.
  eexists; exists (score result). split; [exact Hup|].
  split; [reflexivity|]. split; [exact Hs3|].
  rewrite take_ge.
  - apply (Permutation_in _
             (Permutation_sym (VectorStoreProps.sortByScore_Permutation results))).
    apply list_elem_of_In, list_elem_of_lookup_2 with j.
    rewrite Hres. f_equal. destruct result as [i s p]. cbn in *. congruence.
  - rewrite (Permutation_length (VectorStoreProps.sortByScore_Permutation results)).
    rewrite <- (Forall2_length _ _ _ Hall). lia.
Qed.

Lemma upsert_then_search_finds_witness :
  inProcessStore twoVectorStore twoVectors
  /\ wellSized twoVectorStore
  /\ Z.of_nat (length twoVectors) < 5
  /\ exists st' results sc,
       upsertVector (recordOf articleA [chunkA] chunkA [1 # 2; 1 # 2]) (twoVectorStore, idleQdrant)
         = (Ok tt, st')
       /\ searchSimilar [1 # 1; 0 # 1] 5 None st' = (Ok results, st')
       /\ cosineSimilarity [1 # 1; 0 # 1] [1 # 2; 1 # 2] = Ok sc
       /\ In (mkSearchResult (StrId "a1_chunk_0") sc
                (vd_payload (recordOf articleA [chunkA] chunkA [1 # 2; 1 # 2]))) results.
Proof.
  assert (Hin : inProcessStore twoVectorStore twoVectors)
    by (repeat split; reflexivity).
  assert (Hw : wellSized twoVectorStore).
  { intros m [= <-]. repeat constructor. }
  split; [exact Hin|]. split; [exact Hw|]. split; [vm_compute; reflexivity|].
  apply (upsert_then_search_finds (recordOf articleA [chunkA] chunkA [1 # 2; 1 # 2])
           twoVectorStore idleQdrant twoVectors [1 # 1; 0 # 1] 5 None Hin Hw);
    [discriminate|reflexivity|reflexivity|vm_compute; reflexivity].
Defined.

End VectorStoreExtras.

Module BatchProps.
Section WithFloat.
Context {F : Type} `{Float F}.
Import EmbeddingService EmbeddingBatch.

Lemma sliceList_length {A} (l : list A) (b e : Z) :
  0 <= b <= e ->
  Z.of_nat (length (sliceList l b e))
    = Z.min e (Z.of_nat (length l)) - Z.min b (Z.of_nat (length l)).
Proof.
  intros Hbe. unfold sliceList, Js.clampIndex.
  destruct (b <? 0) eqn:Eb; [apply Z.ltb_lt in Eb; lia|].
  destruct (e <? 0) eqn:Ee; [apply Z.ltb_lt in Ee; lia|].
  rewrite length_take, length_drop. lia.
Qed.

Lemma fallbackBatch_length random calls batch :
  length (fallbackBatch random calls batch) = length batch.
Proof.
  revert calls; induction batch as [|text rest IH]; intros calls; simpl;
    [reflexivity|].
  rewrite IH. reflexivity.
Qed.

Lemma fallbackBatch_sized random calls batch :
  Forall (fun e => length e = defaultDimensions)
         (fallbackBatch random calls batch).
Proof.
  revert calls; induction batch as [|text rest IH]; intros calls; simpl;
    constructor; [apply EmbeddingFacts.generateFallbackEmbedding_length|apply IH].
Qed.

(** The loop adds one embedding for every text from [i] on. *)
Lemma batchLoop_length svc jina random cleanTexts :
  forall fuel i calls embeddings,
    0 <= i ->
    Z.of_nat (length cleanTexts) - i <= Z.of_nat fuel ->
    Z.of_nat (length embeddings) = Z.min i (Z.of_nat (length cleanTexts)) ->
    length (batchLoop fuel svc jina random cleanTexts i calls embeddings)
      = length cleanTexts.
Proof.
  induction fuel as [|fuel IH]; intros i calls embeddings Hi Hfuel Hlen.
  - simpl. lia.
  - cbn [batchLoop].
    destruct (i <? Z.of_nat (length cleanTexts)) eqn:E;
      [apply Z.ltb_lt in E|apply Z.ltb_ge in E; lia].
    set (batch := sliceList cleanTexts i (i + maxBatchSize)).
    assert (Hb : Z.of_nat (length batch)
                 = Z.min (i + maxBatchSize) (Z.of_nat (length cleanTexts)) - i).
    { subst batch. rewrite sliceList_length by (unfold maxBatchSize; lia). lia. }
    assert (Hfb : forall c,
              Z.of_nat (length (embeddings ++ fallbackBatch random c batch))
                = Z.min (i + maxBatchSize) (Z.of_nat (length cleanTexts))).
    { intros c. rewrite length_app, fallbackBatch_length. lia. }
    destruct (callJinaAPI svc jina batch) as [[data|]|e];
      [destruct (Nat.eqb_spec (length data) (length batch))|..];
      apply IH; unfold maxBatchSize in *; try lia; try apply Hfb.
    rewrite length_app. lia.
Qed.

Lemma batchLoop_sized svc jina random cleanTexts :
  jinaApiKey svc = "" ->
  forall fuel i calls embeddings,
    Forall (fun e => length e = defaultDimensions) embeddings ->
    Forall (fun e => length e = defaultDimensions)
           (batchLoop fuel svc jina random cleanTexts i calls embeddings).
Proof.
  intros Hkey. induction fuel as [|fuel IH]; intros i calls embeddings Hall;
    [exact Hall|].
  cbn [batchLoop]. destruct (i <? _); [|exact Hall].
  unfold callJinaAPI. rewrite Hkey. simpl.
  apply IH, Forall_app. split; [exact Hall|apply fallbackBatch_sized].
Qed.

End WithFloat.
End BatchProps.

Module EmbeddingExtras.
Import QNum EmbeddingExamples.
Import EmbeddingService EmbeddingBatch Text.

(** X11.  The text that [preprocessText] hands to the embedding API has
    at most 8192 characters, and no white space other than plain
    spaces: tabs and line breaks are gone. *)
Theorem preprocessText_bounded_and_plain text :
  Js.len (preprocessText text) <= 8192
  /\ plainSpaces (preprocessText text).
Proof.
  unfold preprocessText. cbv zeta.
  set (cleaned := Js.trim (collapseSpaces false text)).
  assert (Hplain : plainSpaces cleaned).
  { apply TextProps.allChars_trim, TextProps.collapseSpaces_plain. }
  destruct (maxLength <? Js.len cleaned) eqn:E.
  - set (cut := Js.slice cleaned 0 maxLength).
    assert (Hcut : Js.len cut <= 8192).
    { apply (TextProps.slice_len_upto cleaned maxLength). unfold maxLength. lia. }
    assert (Hcp : plainSpaces cut) by apply TextProps.allChars_slice, Hplain.
    destruct (9 * maxLength <? 10 * Js.lastIndexOf " " cut None);
      [|split; assumption].
    split; [|apply TextProps.allChars_slice, Hcp].
    etransitivity; [apply TextProps.slice_len_le|exact Hcut].
  - apply Z.ltb_ge in E. unfold maxLength in E. split; [lia|exact Hplain].
Qed.

(** X12.  [generateBatchEmbeddings] throws on an empty array, and for
    every other array of texts it returns exactly one embedding per
    text, whatever the embedding API answers or fails to answer.
    Without an API key every embedding it returns has 768 components. *)
Theorem generateBatchEmbeddings_one_per_text {F : Type} `{Float F}
    (svc : EmbeddingService.t) (jina : Jina F) (random : nat -> F)
    (texts : list string) :
  (texts = [] ->
   generateBatchEmbeddings svc jina random texts
     = Throw "Texts must be a non-empty array")
  /\ (texts <> [] ->
      exists embeddings,
        generateBatchEmbeddings svc jina random texts = Ok embeddings
        /\ length embeddings = length texts
        /\ (jinaApiKey svc = "" ->
            Forall (fun e => length e = 768%nat) embeddings)).
Proof.
  split; [intros ->; reflexivity|].
  intros Hne. unfold generateBatchEmbeddings.
  destruct texts as [|text texts]; [contradiction|].
  cbn [length Nat.eqb].
  eexists; split; [reflexivity|]. split.
  - rewrite BatchProps.batchLoop_length; [apply length_map|lia|lia|simpl; lia].
  - intros Hkey. apply BatchProps.batchLoop_sized; [exact Hkey|constructor].
Qed.

Lemma generateBatchEmbeddings_one_per_text_witness :
  ["one"; "two"; "three"] <> []
  /\ exists embeddings,
       generateBatchEmbeddings noKeyEmbedding failingJina halfRandom
         ["one"; "two"; "three"] = Ok embeddings
       /\ length embeddings = 3%nat.
Proof.
  split; [discriminate|].
  destruct (proj2 (generateBatchEmbeddings_one_per_text noKeyEmbedding
                     failingJina halfRandom ["one"; "two"; "three"])
              ltac:(discriminate)) as (embeddings & He & Hl & _).
  exists embeddings. split; [exact He|exact Hl].
Defined.

End EmbeddingExtras.

Module ClientMore.
Section WithFloat.
Context {F : Type}.
Import RedisClient ClientProps RedisClientFacts.

(** What a lookup in the in-process store answers. *)
Lemma readInMemory_value key now (rc : t F) r :
  fst (readInMemory key now (rc, r))
    = Ok match inMemoryStore rc !! key with
         | Some stored =>
             if expires stored <? now then None else Some (data stored)
         | None => None
         end.
Proof.
  unfold readInMemory, bind, getSelf, ret, update. cbn [fst snd].
  destruct (inMemoryStore rc !! key) as [stored|]; [|reflexivity].
  destruct (expires stored <? now); reflexivity.
Qed.

Lemma getSession_fallback sessionId now (rc : t F) r :
  fallbackMode rc = true ->
  getSession sessionId now (rc, r) = readInMemory (sessionKey sessionId) now (rc, r).
Proof. intros Hf. unfold getSession, bind, getSelf. cbn [fst snd]. now rewrite Hf. Qed.

Lemma setSession_fallback sessionId d ttl now (rc : t F) r :
  fallbackMode rc = true ->
  setSession sessionId d ttl now (rc, r)
    = (Ok tt,
       (setInMemoryStore
          (<[sessionKey sessionId := mkStored (DSession d) (now + ttl * 1000)]>
             (inMemoryStore rc)) rc, r)).
Proof. intros Hf. unfold setSession, bind, getSelf. cbn [fst snd]. now rewrite Hf. Qed.

Lemma cacheQueryResult_fallback query (v : StoreData F) ttl now (rc : t F) r :
  fallbackMode rc = true ->
  cacheQueryResult query v ttl now (rc, r)
    = (Ok tt,
       (setInMemoryStore
          (<[queryKey query := mkStored v (now + ttl * 1000)]> (inMemoryStore rc))
          rc, r)).
Proof.
  intros Hf. unfold cacheQueryResult. rewrite dispatch_fallback by exact Hf.
  reflexivity.
Qed.

Lemma getCachedQueryResult_fallback query now (rc : t F) r :
  fallbackMode rc = true ->
  getCachedQueryResult query now (rc, r) = readInMemory (queryKey query) now (rc, r).
Proof.
  intros Hf. unfold getCachedQueryResult. now rewrite dispatch_fallback by exact Hf.
Qed.

End WithFloat.
End ClientMore.

Module ClientExtras.
Import QNum ClientExamples.
Import RedisClient.




(** X15.  No data-path method of the key-value client throws: in every
    state of the client and of the Redis server, whatever faults are to
    come, each of [setSession], [getSession], [deleteSession],
    [addMessage], [getChatHistory], [clearChatHistory],
    [cacheQueryResult] and [getCachedQueryResult] returns. *)
Theorem data_path_never_throws {F : Type} (config : Config)
    (op : ClientRun.Op F) (now : Z) (st : St F) :
  fst (ClientRun.call config op now st) = true.
Proof. apply ClientRunFacts.call_returns. Qed.

(** X16.  [connect] tries to connect once: a second call changes
    nothing, whatever would happen to a new attempt.  On a client that
    has not tried yet, the attempt leaves a usable networked client when
    it is accepted, and fallback mode without usable client when Redis
    is unavailable or rejects the connection. *)
Theorem connect_attempts_once {F : Type} (outcome outcome' : ConnectOutcome)
    (rc : t F) :
  connectionAttempted (connect outcome rc) = true
  /\ connect outcome' (connect outcome rc) = connect outcome rc
  /\ (connectionAttempted rc = false ->
      getClient (connect outcome rc)
        = match outcome with Accepted => true | _ => false end
      /\ fallbackMode (connect outcome rc)
         = match outcome with Accepted => false | _ => true end).
Proof.
  assert (Hdone : connectionAttempted (connect outcome rc) = true).
  { unfold connect. destruct (connectionAttempted rc) eqn:E; [exact E|].
    destruct outcome; reflexivity. }
  split; [exact Hdone|]. split.
  - unfold connect at 1. now rewrite Hdone.
  - intros Hnot. unfold connect. rewrite Hnot.
    destruct outcome; split; reflexivity.
Qed.

(** X17.  A session written in fallback mode is read back unchanged
    until its time to live is over, [now + ttl * 1000] included; after
    that [getSession] returns null and drops the entry.  Neither call
    sends anything to Redis. *)
Theorem session_round_trip_in_process {F : Type} (sessionId : string)
    (d : SessionData) (ttl now now' : Z) (rc : t F) (r : Redis.t F) :
  fallbackMode rc = true ->
  let st1 := snd (setSession sessionId d ttl now (rc, r)) in
  let out := getSession sessionId now' st1 in
  (now' <= now + ttl * 1000 -> fst out = Ok (Some (DSession d)))
  /\ (now + ttl * 1000 < now' ->
      fst out = Ok None
      /\ inMemoryStore (fst (snd out)) !! sessionKey sessionId = None)
  /\ snd (snd out) = r.
Proof.
  intros Hf st1 out. subst st1 out.
  rewrite ClientMore.setSession_fallback by exact Hf. cbn [snd].
  rewrite ClientMore.getSession_fallback by exact Hf.
  unfold readInMemory, bind, getSelf, ret, update.
  cbn [fst snd inMemoryStore setInMemoryStore].
  rewrite lookup_insert_eq. cbn [expires data].
  destruct (Z.ltb_spec (now + ttl * 1000) now'); cbn [fst snd].
  - split; [lia|]. split; [|reflexivity].
    intros _. split; [reflexivity|].
    cbn [inMemoryStore setInMemoryStore]. apply lookup_delete_eq.
  - split; [reflexivity|]. split; [lia|reflexivity].
Qed.

Lemma session_round_trip_in_process_witness :
  fallbackMode erroredClient = true
  /\ fst (getSession "session-1" 604800000
            (snd (setSession "session-1" {[ "id" := "session-1" ]} 604800 0
                    (erroredClient, idleRedis))))
     = Ok (Some (DSession {[ "id" := "session-1" ]})).
Proof.
  split; [reflexivity|].
  apply (session_round_trip_in_process "session-1" {[ "id" := "session-1" ]}
           604800 0 604800000 erroredClient idleRedis eq_refl).
  lia.
Defined.

End ClientExtras.

Module RedisMore.
Section WithFloat.
Context {F : Type}.
Import RedisClient ClientProps RedisClientFacts CacheFacts SessionShape.

(** A command that a server without pending fault receives. *)
Lemma send_calm now (c : Redis.Command F) (r : Redis.t F) :
  Redis.faults r = [] ->
  Redis.send now c r
    = (fst (Redis.exec now c (Redis.keys r)),
       Redis.mk (Redis.log r ++ [c]) []
                (snd (Redis.exec now c (Redis.keys r)))).
Proof.
  intros Hq. unfold Redis.send. rewrite Hq. cbn [nextFault].
  destruct (Redis.exec now c (Redis.keys r)); reflexivity.
Qed.

Lemma command_calm now (c : Redis.Command F) (rc : t F) (r : Redis.t F) :
  client rc = true -> Redis.faults r = [] ->
  command now c (rc, r)
    = (fst (Redis.exec now c (Redis.keys r)),
       (rc, Redis.mk (Redis.log r ++ [c]) []
                     (snd (Redis.exec now c (Redis.keys r))))).
Proof.
  intros Hc Hq. rewrite command_client by exact Hc.
  rewrite send_calm by exact Hq. reflexivity.
Qed.

(** The reply to LRANGE, whatever the state. *)
Lemma lrange_reply now key start stop (st : St F) :
  match fst (command now (Redis.LRANGE key start stop) st) with
  | Ok (Redis.RItems items) =>
      items = [] \/ exists l, items = Redis.range l start stop
  | Ok _ => False
  | Throw _ => True
  end.
Proof.
  destruct st as [rc r]. unfold command. destruct (client rc); [|exact I].
  unfold Redis.send. destruct (nextFault (Redis.faults r)) as [[|] rest];
    [exact I|].
  unfold Redis.exec.
  destruct (Redis.live now (Redis.keys r) key) as [[[d|fields|items] at_]|];
    cbn [fst]; eauto.
Qed.

Lemma range_length {A} (l : list A) (n : Z) :
  0 < n -> Z.of_nat (length (Redis.range l 0 (n - 1))) <= n.
Proof.
  intros Hn. rewrite ChatLogContent.range_prefix by exact Hn.
  rewrite length_take. lia.
Qed.

Lemma history_in_process_length sessionId limit (st : St F) :
  0 <= limit ->
  exists history,
    (await rc := getSelf in
     let list := default [] (inMemoryLists rc !! chatKey sessionId) in
     ret (rev (sliceList list 0 limit))) st = (Ok history, st)
    /\ Z.of_nat (length history) <= limit.
Proof.
  intros Hl. destruct st as [rc r]. unfold bind, getSelf, ret. cbn [fst snd].
  eexists; split; [reflexivity|].
  rewrite length_rev, SourcesFacts.sliceList_prefix, length_take by exact Hl.
  lia.
Qed.

Lemma sessionFields_id sessionId d now :
  is_Some (sessionFields sessionId d now !! "id").
Proof.
  unfold sessionFields, SessionData in *. rewrite lookup_union.
  destruct (d !! "id") as [v|]; [rewrite union_Some_l; eauto|].
  rewrite (left_id_L None union). rewrite lookup_insert_eq. eauto.
Qed.

Lemma live_unexpired now ks key (e : Redis.Entry F) :
  Redis.live now ks key = Some e -> unexpired now e.
Proof.
  unfold Redis.live, unexpired. destruct (ks !! key) as [e'|]; [|discriminate].
  destruct (Redis.expiresAt e') as [a|] eqn:Ea.
  - destruct (a <? now) eqn:E; [discriminate|]. intros [= <-]. now rewrite Ea.
  - intros [= <-]. now rewrite Ea.
Qed.

Lemma live_insert now ks key (e : Redis.Entry F) :
  unexpired now e -> Redis.live now (<[key := e]> ks) key = Some e.
Proof.
  unfold Redis.live, unexpired. rewrite lookup_insert_eq.
  destruct (Redis.expiresAt e) as [a|]; [intros ->|]; reflexivity.
Qed.

(** What [setSession] leaves in Redis when the two commands get
    through. *)
Lemma setSession_via_redis sessionId d ttl now (rc : t F) (r : Redis.t F) :
  fallbackMode rc = false -> client rc = true -> Redis.faults r = [] ->
  SessionShape.hashOrFree r now (sessionKey sessionId) ->
  0 < ttl ->
  exists fields log keys,
    setSession sessionId d ttl now (rc, r)
      = (Ok tt,
         (rc, Redis.mk log []
                (<[sessionKey sessionId :=
                     Redis.mkEntry (Redis.RHash fields)
                                   (Some (now + ttl * 1000))]> keys)))
    /\ sessionFields sessionId d now ⊆ fields.
Proof.
  intros Hf Hc Hq Hfree Httl.
  unfold setSession, bind at 1, getSelf. cbn [fst snd]. rewrite Hf.
  unfold tryCatch, bind.
  rewrite command_calm by assumption.
  unfold SessionShape.hashOrFree in Hfree.
  cbn [Redis.exec].
  destruct (Redis.live now (Redis.keys r) (sessionKey sessionId))
    as [[[x|old|items] at_]|] eqn:Elive; try contradiction; cbn [fst snd].
  - apply live_unexpired in Elive.
    rewrite command_calm by (assumption || reflexivity).
    cbn [Redis.exec Redis.keys]. rewrite !live_insert by exact Elive.
    destruct (Z.leb_spec ttl 0); [lia|]. cbn [fst snd ret Redis.value].
    eexists _, _, _. split; [reflexivity|apply map_union_subseteq_l].
  - rewrite command_calm by (assumption || reflexivity).
    cbn [Redis.exec Redis.keys]. rewrite !live_insert by exact I.
    destruct (Z.leb_spec ttl 0); [lia|]. cbn [fst snd ret Redis.value].
    eexists _, _, _. split; [reflexivity|reflexivity].
Qed.

(** [getChatHistory] with a positive limit, in any state. *)
Lemma getChatHistory_length sessionId limit now (st : St F) :
  0 < limit ->
  exists history st',
    getChatHistory sessionId limit now st = (Ok history, st')
    /\ Z.of_nat (length history) <= limit.
Proof.
  intros Hl. destruct st as [rc r].
  unfold getChatHistory. set (ip := bind getSelf _).
  assert (Hip : forall st0 : St F, exists history,
            ip st0 = (Ok history, st0) /\ Z.of_nat (length history) <= limit).
  { intros st0. apply history_in_process_length. lia. }
  clearbody ip.
  unfold dispatch, bind at 1, getSelf. cbn [fst snd].
  destruct (fallbackMode rc).
  { destruct (Hip (rc, r)) as (h & -> & Hh). eauto. }
  unfold tryCatch.
  destruct (getClient rc).
  - unfold bind at 1.
    pose proof (lrange_reply now (chatKey sessionId) 0 (limit - 1)
                  (rc, r)) as Hreply.
    destruct (command now (Redis.LRANGE (chatKey sessionId) 0 (limit - 1)) (rc, r))
      as [[reply|e] st1]; cbn [fst] in Hreply.
    + destruct reply as [| | | |items]; try contradiction.
      unfold ret. eexists _, _. split; [reflexivity|].
      rewrite length_rev. destruct Hreply as [->|[l ->]]; [simpl; lia|].
      apply range_length, Hl.
    + destruct st1 as [rc1 r1]. rewrite RedisClientFacts.enterFallback_eq.
      destruct (Hip (setFallbackMode true rc1, r1)) as (h & -> & Hh). eauto.
  - rewrite RedisClientFacts.enterFallback_eq.
    destruct (Hip (setFallbackMode true rc, r)) as (h & -> & Hh).
    eexists _, _. split; [reflexivity|exact Hh].
Qed.

End WithFloat.
End RedisMore.

Module ClientExtrasMore.
Import QNum ClientExamples.
Import RedisClient SessionShape.

(** X18.  What has been deleted is gone.  In fallback mode, and on a
    connected client whose Redis server loses no command, [getSession]
    after [deleteSession] of the same session returns null, and
    [getChatHistory] after [clearChatHistory] of the same session
    returns the empty list. *)
Theorem deleted_data_is_gone {F : Type} (sessionId : string)
    (limit now now' : Z) (rc : t F) (r : Redis.t F) :
  fallbackMode rc = true \/ (getClient rc = true /\ Redis.faults r = []) ->
  fst (getSession sessionId now' (snd (deleteSession sessionId now (rc, r))))
    = Ok None
  /\ fst (getChatHistory sessionId limit now'
            (snd (clearChatHistory sessionId now (rc, r))))
     = Ok [].
Proof.
  intros [Hf|[Hg Hq]].
  - unfold deleteSession, clearChatHistory.
    rewrite !RedisClientFacts.dispatch_fallback by exact Hf.
    unfold update. cbn [fst snd]. split.
    + rewrite ClientMore.getSession_fallback by exact Hf.
      rewrite ClientMore.readInMemory_value.
      cbn [inMemoryStore setInMemoryStore]. rewrite lookup_delete_eq.
      reflexivity.
    + unfold getChatHistory.
      rewrite RedisClientFacts.dispatch_fallback by exact Hf.
      unfold bind, getSelf, ret. cbn [fst snd inMemoryLists setInMemoryLists].
      rewrite lookup_delete_eq. unfold sliceList.
      cbn [default from_option id]. rewrite drop_nil, take_nil. reflexivity.
  - destruct (CacheFacts.getClient_true rc Hg) as (Hf & Hc & _).
    unfold deleteSession, clearChatHistory.
    rewrite !CacheFacts.dispatch_networked by exact Hf.
    unfold tryCatch. rewrite Hg. unfold bind.
    rewrite !RedisMore.command_calm by assumption.
    cbn [fst snd Redis.exec ret]. split.
    + unfold getSession, bind at 1, getSelf. cbn [fst snd]. rewrite Hf.
      unfold tryCatch, bind.
      rewrite RedisMore.command_calm by (assumption || reflexivity).
      cbn [fst snd Redis.exec Redis.keys]. unfold Redis.live.
      rewrite lookup_delete_eq. reflexivity.
    + unfold getChatHistory. rewrite CacheFacts.dispatch_networked by exact Hf.
      unfold tryCatch. rewrite Hg. unfold bind.
      rewrite RedisMore.command_calm by (assumption || reflexivity).
      cbn [fst snd Redis.exec Redis.keys]. unfold Redis.live.
      rewrite lookup_delete_eq. reflexivity.
Qed.

Lemma deleted_data_is_gone_witness :
  (fallbackMode connectedClient = true
   \/ (getClient connectedClient = true /\ Redis.faults idleRedis = []))
  /\ fst (getSession "session-1" 2000
            (snd (deleteSession "session-1" 1000 (connectedClient, idleRedis))))
     = Ok None.
Proof.
  assert (H : fallbackMode connectedClient = true
              \/ (getClient connectedClient = true /\ Redis.faults idleRedis = []))
    by (right; split; reflexivity).
  split; [exact H|].
  exact (proj1 (deleted_data_is_gone "session-1" 20 1000 2000 connectedClient
                  idleRedis H)).
Defined.

(** X19.  For a positive limit [getChatHistory] returns at most [limit]
    messages, in every state of the client and of the Redis server and
    whatever faults are to come. *)
Theorem getChatHistory_at_most_limit {F : Type} (sessionId : string)
    (limit now : Z) (st : St F) :
  0 < limit ->
  exists history st',
    getChatHistory sessionId limit now st = (Ok history, st')
    /\ Z.of_nat (length history) <= limit.
Proof. apply RedisMore.getChatHistory_length. Qed.

Lemma getChatHistory_at_most_limit_witness :
  0 < 20
  /\ exists history st',
       getChatHistory "session-1" 20 1000 (connectedClient, redisFailingSecond)
         = (Ok history, st')
       /\ Z.of_nat (length history) <= 20.
Proof.
  split; [lia|].
  apply (getChatHistory_at_most_limit "session-1" 20 1000
           (connectedClient, redisFailingSecond)).
  lia.
Defined.

(** X20.  A session written through a connected client to a Redis
    server that loses no command, under a key that is free or holds a
    hash, with a positive time to live, is read back until that time is
    over.  What [getSession] returns then holds every field of the
    session data with its value, and the fields [id], [lastActivity],
    [messageCount] and [createdAt], which [setSession] fills in when the
    data lacks them. *)
Theorem session_round_trip_via_redis {F : Type} (sessionId : string)
    (d : SessionData) (ttl now now' : Z) (rc : t F) (r : Redis.t F) :
  getClient rc = true -> Redis.faults r = [] ->
  hashOrFree r now (sessionKey sessionId) ->
  0 < ttl -> now' <= now + ttl * 1000 ->
  exists fields,
    fst (getSession sessionId now'
           (snd (setSession sessionId d ttl now (rc, r))))
      = Ok (Some (DSession fields))
    /\ d ⊆ fields
    /\ sessionFields sessionId d now ⊆ fields
    /\ (forall name,
          name ∈ ["id"; "lastActivity"; "messageCount"; "createdAt"] ->
          is_Some (fields !! name)).
Proof.
  intros Hg Hq Hfree Httl Hnow.
  destruct (CacheFacts.getClient_true rc Hg) as (Hf & Hc & _).
  destruct (RedisMore.setSession_via_redis sessionId d ttl now rc r Hf Hc Hq
              Hfree Httl) as (fields & log & keys & -> & Hsub).
  exists fields. cbn [snd].
  assert (Hd : d ⊆ sessionFields sessionId d now)
    by apply map_union_subseteq_l.
  assert (Hnames : forall name,
            name ∈ ["id"; "lastActivity"; "messageCount"; "createdAt"] ->
            is_Some (fields !! name)).
  { intros name Hname.
    apply (lookup_weaken_is_Some (sessionFields sessionId d now)); [|exact Hsub].
    unfold sessionFields, SessionData in *. rewrite lookup_union.
    assert (Hdef : is_Some (({[ "id" := sessionId; "lastActivity" := pretty now;
                               "messageCount" := "0";
                               "createdAt" := pretty now ]}
                             : gmap string string) !! name)).
    { repeat (apply elem_of_cons in Hname as [->|Hname];
              [vm_compute; eauto|]).
      apply elem_of_nil in Hname. contradiction. }
    destruct Hdef as [v ->]. destruct (d !! name); eauto. }
  split; [|split; [etransitivity; eassumption|split; assumption]].
  unfold getSession, bind at 1, getSelf. cbn [fst snd]. rewrite Hf.
  unfold tryCatch, bind.
  rewrite RedisMore.command_calm by (assumption || reflexivity).
  assert (Hlive : SessionShape.unexpired (F:=F) now'
                    (Redis.mkEntry (Redis.RHash fields)
                                   (Some (now + ttl * 1000)))).
  { unfold SessionShape.unexpired. cbn [Redis.expiresAt]. apply Z.ltb_ge. lia. }
  cbn [Redis.exec Redis.keys fst snd]. rewrite !RedisMore.live_insert by exact Hlive.
  cbn [typeName fst snd]. change (String.eqb "hash" "hash") with true.
  cbv beta iota.
  rewrite RedisMore.command_calm by (assumption || reflexivity).
  cbn [Redis.exec Redis.keys fst snd]. rewrite !RedisMore.live_insert by exact Hlive.
  cbn [fst snd ret].
  destruct (decide (fields = ∅)) as [Hempty|]; [|reflexivity].
  destruct (Hnames "id" ltac:(apply elem_of_cons; left; reflexivity)) as [v Hv].
  rewrite Hempty, lookup_empty in Hv. discriminate.
Qed.

Lemma session_round_trip_via_redis_witness :
  getClient connectedClient = true
  /\ Redis.faults idleRedis = []
  /\ hashOrFree idleRedis 0 (sessionKey "session-1")
  /\ 0 < 604800
  /\ exists fields,
       fst (getSession "session-1" 1000
              (snd (setSession "session-1" {[ "user" := "ada" ]} 604800 0
                      (connectedClient, idleRedis))))
         = Ok (Some (DSession fields))
       /\ fields !! "user" = Some "ada".
Proof.
  assert (Hfree : hashOrFree idleRedis 0 (sessionKey "session-1")) by exact I.
  split; [reflexivity|]. split; [reflexivity|]. split; [exact Hfree|].
  split; [lia|].
  destruct (session_round_trip_via_redis "session-1" {[ "user" := "ada" ]}
              604800 0 1000 connectedClient idleRedis eq_refl eq_refl Hfree
              ltac:(lia) ltac:(lia)) as (fields & Hget & Hd & _).
  exists fields. split; [exact Hget|].
  apply (lookup_weaken _ _ _ _ (lookup_singleton_eq "user" "ada") Hd).
Defined.

End ClientExtrasMore.

Module GeminiProps.
Import GeminiService GeminiInit.

(** What the test loop does: it sends at most [retries] requests, leaves
    the service object alone, and returns [true] only on a request that
    the API answered with a non-empty text. *)
Lemma testLoop_spec api retries svc calls :
  exists outcome calls',
    testLoop api retries (svc, calls) = (outcome, (svc, calls'))
    /\ (calls <= calls' <= calls + retries)%nat
    /\ (outcome = Ok true ->
        exists text,
          (calls < calls')%nat
          /\ api (calls' - 1)%nat = ApiText text /\ 0 < Js.len text)
    /\ ((0 < retries)%nat -> outcome <> Ok false).
Proof.
  revert calls; induction retries as [|retries IH]; intros calls.
  - eexists _, _. split; [reflexivity|]. split; [lia|].
    split; [discriminate|lia].
  - cbn [testLoop]. unfold tryCatch, bind, testRequest, ret, throw.
    destruct (api calls) as [text|message] eqn:Eapi.
    + destruct (0 <? Js.len text) eqn:Et.
      * eexists _, _. split; [reflexivity|]. split; [lia|]. split.
        -- intros _. exists text. replace (S calls - 1)%nat with calls by lia.
           apply Z.ltb_lt in Et. repeat split; [lia|exact Eapi|exact Et].
        -- discriminate.
      * change (Js.includes "503" "Empty response from Gemini API") with false.
        cbn [andb]. eexists _, _. split; [reflexivity|]. split; [lia|].
        split; discriminate.
    + destruct (Js.includes "503" message && (1 <? S retries)%nat) eqn:Eretry.
      * destruct (IH (S calls)) as (outcome & calls' & -> & Hc & Hok & Hnf).
        eexists _, _. split; [reflexivity|]. split; [lia|].
        split.
        -- intros Ho. destruct (Hok Ho) as (text & H1 & H2 & H3).
           exists text. repeat split; [lia|exact H2|exact H3].
        -- intros _. apply Hnf.
           apply andb_prop in Eretry as [_ Er]. apply Nat.ltb_lt in Er. lia.
      * eexists _, _. split; [reflexivity|]. split; [lia|].
        split; discriminate.
Qed.

End GeminiProps.

Module GenerationExtras.
Import QNum PipelineExamples.
Import GeminiService GeminiInit.

(** X21.  [generateResponse] throws on a service that is not
    initialised.  On an initialised service it returns the API's text
    under the model name 'gemini-pro' when the model exists and the
    request succeeds.  Otherwise the outcome is that of the fallback
    generator: on a context it can group by source, a response under the
    name 'fallback-enhanced' with no tokens used, which for an empty
    context is the 'could not find any information' text; on a context
    with an article whose source names an inherited member of an object,
    a [TypeError], which [generateResponse] throws to its caller. *)
Theorem generateResponse_falls_back {F : Type} (svc : GeminiService.t)
    (fmt : Formatting F) (api : GenerativeModel) (query : string)
    (context : list (VectorStore.SearchResult F))
    (history : list (Message F)) :
  (isInitialized svc = false ->
   generateResponse svc fmt api query context history
     = Throw "Gemini service not initialized")
  /\ (isInitialized svc = true ->
      match (if model svc
             then api (constructPrompt fmt query context history)
             else None) with
      | Some text =>
          generateResponse svc fmt api query context history
          = Ok (mkAiResponse text "gemini-pro"
                  (estimateTokens
                     (constructPrompt fmt query context history +:+ text)))
      | None =>
          (Grouping.groupable context ->
           exists r,
             generateResponse svc fmt api query context history = Ok r
             /\ ai_model r = "fallback-enhanced" /\ ai_tokensUsed r = 0
             /\ (context = [] -> ai_response r = notFoundText query))
          /\ (~ Grouping.groupable context ->
              generateResponse svc fmt api query context history
              = Throw "acc[source].push is not a function")
      end).
Proof.
  unfold generateResponse. split; intros ->; [reflexivity|]. cbn [negb].
  assert (Hfb :
    (Grouping.groupable context ->
     exists r,
       generateFallbackResponse fmt query context = Ok r
       /\ ai_model r = "fallback-enhanced" /\ ai_tokensUsed r = 0
       /\ (context = [] -> ai_response r = notFoundText query))
    /\ (~ Grouping.groupable context ->
        generateFallbackResponse fmt query context
        = Throw "acc[source].push is not a function")).
  { unfold generateFallbackResponse. split.
    - intros Hg. apply RetrievalFacts.groupable_check in Hg.
      destruct context as [|item rest].
      + eexists. split; [reflexivity|]. repeat split.
      + rewrite Hg. eexists. split; [reflexivity|]. repeat split. discriminate.
    - intros Hg. destruct context as [|item rest];
        [exfalso; apply Hg; constructor|].
      destruct (existsb _ _) eqn:E; [reflexivity|].
      exfalso. apply Hg, RetrievalFacts.groupable_check, E. }
  destruct Hfb as [Hok Hthrow].
  destruct (model svc).
  - unfold generateGeminiResponse.
    destruct (api (constructPrompt fmt query context history)) as [text|];
      [reflexivity|].
    split.
    + intros Hg. destruct (Hok Hg) as (r & -> & Hr). eauto.
    + intros Hg. now rewrite (Hthrow Hg).
  - split.
    + intros Hg. destruct (Hok Hg) as (r & -> & Hr). eauto.
    + intros Hg. now rewrite (Hthrow Hg).
Qed.

(** X22.  [initialize] of the generation gateway never throws and
    always leaves the service initialised, with the API key it had.  It
    sends at most three test requests to the API, and none without an
    API key.  The service keeps a model only if the last request sent
    was answered with a non-empty text; otherwise it is left without
    model, that is, on the fallback generator. *)
Theorem gemini_initialize_always_initializes (api : Api)
    (svc : GeminiService.t) (calls : nat) :
  exists svc' calls',
    initialize api (svc, calls) = (Ok tt, (svc', calls'))
    /\ isInitialized svc' = true
    /\ apiKey svc' = apiKey svc
    /\ (calls <= calls' <= calls + 3)%nat
    /\ (apiKey svc = "" -> calls' = calls /\ model svc' = false)
    /\ (model svc' = true ->
        exists text,
          (calls < calls')%nat
          /\ api (calls' - 1)%nat = ApiText text /\ 0 < Js.len text).
Proof.
  unfold initialize, tryCatch, bind at 1, getService. cbn [fst snd].
  destruct (String.eqb_spec (apiKey svc) "") as [Hkey|Hkey].
  - eexists _, _. split; [reflexivity|]. cbn.
    repeat split; try lia; try discriminate.
  - unfold bind, setModel, testConnection.
    destruct (GeminiProps.testLoop_spec api 3 (mk (apiKey svc) true
                                                   (isInitialized svc)) calls)
      as (outcome & calls' & -> & Hc & Hok & Hnf).
    destruct outcome as [[|]|message].
    + eexists _, _. split; [reflexivity|]. cbn.
      repeat split; try lia; try contradiction. intros _. apply Hok. reflexivity.
    + exfalso. apply Hnf; [lia|reflexivity].
    + eexists _, _. split; [reflexivity|]. cbn.
      repeat split; try lia; try contradiction; try discriminate.
Qed.

End GenerationExtras.

Module PipelineMore.
Section WithFloat.
Context {F : Type} `{Float F}.
Import RedisClient ClientProps ChatLogFacts.

(** A read of the cache leaves the in-process chat logs alone. *)
Lemma readInMemory_keeps_lists (P : t F -> Prop) key now :
  (forall rc m, P rc -> P (setInMemoryStore m rc)) ->
  preserves P (readInMemory key now).
Proof.
  intros Hstore. unfold readInMemory. apply preserves_withSelf. intros rc.
  destruct (inMemoryStore rc !! key) as [stored|]; [|apply preserves_ret].
  destruct (expires stored <? now); [|apply preserves_ret].
  apply preserves_bind; [|intros _; apply preserves_ret].
  apply preserves_update. intros rc0. apply Hstore.
Qed.

Lemma getCachedQueryResult_keeps_lists query now (st : St F) :
  inMemoryLists (fst (snd (getCachedQueryResult query now st)))
    = inMemoryLists (fst st).
Proof.
  set (P := fun rc : t F => inMemoryLists rc = inMemoryLists (fst st)).
  assert (Hp : preserves P (getCachedQueryResult query now)).
  { unfold getCachedQueryResult. apply preserves_dispatch.
    - intros rc Hrc. exact Hrc.
    - apply readInMemory_keeps_lists. intros rc m Hrc. exact Hrc.
    - apply preserves_bind; [apply preserves_command|].
      intros [| | |d|]; apply preserves_ret. }
  apply (Hp st). reflexivity.
Qed.

End WithFloat.
End PipelineMore.

Module PipelineExtras.
Import QNum PipelineExamples RetrievalExamples CacheHitExamples.
Import RAGService.

(** X23.  The documents that [processQuery] keeps after retrieval are
    search results in their order of retrieval, each with a score of at
    least [minSimilarity], and at most [maxResults] of them when
    [maxResults] is not negative. *)
Theorem relevantAmong_filters_and_caps {F : Type} `{Float F}
    (options : Options F) (searchResults : list (VectorStore.SearchResult F)) :
  0 <= maxResults options ->
  let relevant := relevantAmong options searchResults in
  relevant `sublist_of` searchResults
  /\ Z.of_nat (length relevant) <= maxResults options
  /\ Forall (fun result =>
               fleb (minSimilarity options) (VectorStore.score result) = true)
            relevant.
Proof.
  intros Hmax relevant. subst relevant. unfold relevantAmong.
  rewrite SourcesFacts.sliceList_prefix by exact Hmax.
  split; [|split].
  - etransitivity; [apply sublist_take|apply sublist_filter].
  - rewrite length_take. lia.
  - apply Forall_forall. intros result Hin.
    apply elem_of_take in Hin as (i & Hin & _).
    apply list_elem_of_lookup_2, list_elem_of_filter in Hin as [Hin _].
    exact Hin.
Qed.

Lemma relevantAmong_filters_and_caps_witness :
  0 <= maxResults (defaultOptions defaultConfig)
  /\ Z.of_nat (length (relevantAmong (defaultOptions defaultConfig)
                         [hitWithoutPayload; hitWithoutPayload]))
     <= maxResults (defaultOptions defaultConfig).
Proof.
  assert (Hmax : 0 <= maxResults (defaultOptions (F:=Q) defaultConfig))
    by (vm_compute; discriminate).
  split; [exact Hmax|].
  exact (proj1 (proj2 (relevantAmong_filters_and_caps
                         (defaultOptions defaultConfig)
                         [hitWithoutPayload; hitWithoutPayload] Hmax))).
Defined.

(** X24.  A cache hit ends [processQuery] at once.  When the cache is
    in use and holds a result for the query, [processQuery] returns that
    result with the time of the call, and nothing else happens: no
    embedding is asked for, the vector store and Qdrant are as before,
    and neither the in-process chat logs nor the keys of Redis change,
    so that the exchange is not recorded in the chat history. *)
Theorem cache_hit_ends_processQuery {F : Type} `{Float F} (config : Config)
    (env : Env F) (query sessionId : string) (options : OptionsArg F)
    (constants : Options F) (now : Z) (w : World F) (c : StoreData F)
    (st' : RedisClient.St F) :
  destructure config options = Ok constants ->
  useCache constants = true ->
  RedisClient.getCachedQueryResult query now (redisClient w, redis w)
    = (Ok (Some c), st') ->
  processQuery config true env query sessionId options now w
    = (Ok (Cached c now),
       mkWorld (fst st') (snd st') (vectorStore w) (qdrant w))
  /\ RedisClient.inMemoryLists (fst st')
     = RedisClient.inMemoryLists (redisClient w)
  /\ Redis.keys (snd st') = Redis.keys (redis w).
Proof.
  intros Hd Hcache Hhit. split; [|split].
  - rewrite (PipelineFacts.processQuery_destructured config env query sessionId
               options constants now w Hd).
    unfold tryCatch, pipeline, bind.
    rewrite Hcache. unfold liftRedis. rewrite Hhit.
    destruct st' as [rc' r']. reflexivity.
  - pose proof (PipelineMore.getCachedQueryResult_keeps_lists query now
                  (redisClient w, redis w)) as Hl.
    rewrite Hhit in Hl. exact Hl.
  - pose proof (CacheFacts.getCachedQueryResult_keeps_expiry query now
                  (redisClient w, redis w)) as [_ Hk].
    rewrite Hhit in Hk. exact Hk.
Qed.

Lemma cache_hit_ends_processQuery_witness :
  destructure defaultConfig (OptionsOmitted (F:=Q))
    = Ok (defaultOptions defaultConfig)
  /\ useCache (defaultOptions (F:=Q) defaultConfig) = true
  /\ fst (RedisClient.getCachedQueryResult latestNews 1000
            (clientWithCache, emptyRedis)) = Ok (Some cachedAnswer)
  /\ fst (processQuery defaultConfig true localEnv latestNews "session-1"
            OptionsOmitted 1000 worldWithCache)
     = Ok (Cached cachedAnswer 1000).
Proof.
  split; [reflexivity|]. split; [reflexivity|].
  split; [vm_compute; reflexivity|].
  rewrite (proj1 (cache_hit_ends_processQuery defaultConfig localEnv latestNews
                    "session-1" OptionsOmitted (defaultOptions defaultConfig)
                    1000 worldWithCache cachedAnswer
                    (snd (RedisClient.getCachedQueryResult latestNews 1000
                            (clientWithCache, emptyRedis)))
                    eq_refl eq_refl ltac:(vm_compute; reflexivity))).
  reflexivity.
Defined.

End PipelineExtras.

Module BatchStoreProps.
Section WithFloat.
Context {F : Type} `{Float F}.
Import VectorStore StoreShape.

Lemma upsertEach_canonical (q : Qdrant F) (size : nat)
    (vectorsData : list (VectorData F)) :
  Forall (fun data =>
            vd_id data <> "" /\ length (vd_vector data) = size)
         vectorsData ->
  forall m,
    upsertEach vectorsData (mk false size true (Some m), q)
      = (Ok tt,
         (mk false size true
             (Some (fold_left
                      (fun m data =>
                         mapSet (vd_id data) (vd_vector data, vd_payload data) m)
                      vectorsData m)), q)).
Proof.
  induction 1 as [|data rest [Hid Hl] Hrest IH]; intros m; [reflexivity|].
  cbn [upsertEach fold_left]. unfold bind at 1.
  assert (Hup : upsertVector data (mk false size true (Some m), q)
                = (Ok tt,
                   (mk false size true
                       (Some (mapSet (vd_id data)
                                (vd_vector data, vd_payload data) m)), q))).
  { unfold upsertVector, bind, getStore. cbn [fst snd isInitialized negb].
    apply String.eqb_neq in Hid. rewrite Hid. cbn [vectorSize].
    rewrite Hl, Nat.eqb_refl. reflexivity. }
  rewrite Hup. apply IH.
Qed.

End WithFloat.
End BatchStoreProps.

Module BatchStoreExtras.
Import QNum Examples StoreExamples.
Import VectorStore StoreShape.

(** X25.  On an initialised in-process store, [upsertBatch] of records
    that [upsertVector] accepts (a non-empty id and a vector of the size
    of the collection) does what [upsertVector] does when it is called
    on the records one after the other: both return, and they leave the
    same store. *)
Theorem upsertBatch_is_repeated_upsertVector {F : Type} `{Float F}
    (vectorsData : list (VectorData F)) (vs : t F) (q : Qdrant F) m :
  inProcessStore vs m ->
  vectorsData <> [] ->
  Forall (fun data =>
            vd_id data <> "" /\ length (vd_vector data) = vectorSize vs)
         vectorsData ->
  exists st',
    upsertBatch vectorsData (vs, q) = (Ok tt, st')
    /\ upsertEach vectorsData (vs, q) = (Ok tt, st').
Proof.
  intros (Hc & Hi & Hm) Hne Hvalid.
  destruct vs as [c size i om]. cbn in Hc, Hi, Hm, Hvalid. subst c i om.
  rewrite (BatchStoreProps.upsertEach_canonical q size vectorsData Hvalid m).
  eexists. split; [|reflexivity].
  unfold upsertBatch, bind, getStore. cbn [fst snd isInitialized negb].
  destruct vectorsData as [|data rest]; [contradiction|]. reflexivity.
Qed.

Lemma upsertBatch_is_repeated_upsertVector_witness :
  inProcessStore twoVectorStore twoVectors
  /\ [recordOf articleA [chunkA] chunkA [1 # 2; 1 # 2]; recordOf articleB [chunkB] chunkB [0 # 1; 1 # 1]] <> []
  /\ exists st',
       upsertBatch [recordOf articleA [chunkA] chunkA [1 # 2; 1 # 2]; recordOf articleB [chunkB] chunkB [0 # 1; 1 # 1]]
                   (twoVectorStore, idleQdrant) = (Ok tt, st')
       /\ upsertEach [recordOf articleA [chunkA] chunkA [1 # 2; 1 # 2]; recordOf articleB [chunkB] chunkB [0 # 1; 1 # 1]]
                     (twoVectorStore, idleQdrant) = (Ok tt, st').
Proof.
  assert (Hin : inProcessStore twoVectorStore twoVectors)
    by (repeat split; reflexivity).
  split; [exact Hin|]. split; [discriminate|].
  apply (upsertBatch_is_repeated_upsertVector _ twoVectorStore idleQdrant
           twoVectors Hin); [discriminate|].
  repeat constructor; discriminate.
Defined.

End BatchStoreExtras.

Module ChatRecordProps.
Section WithFloat.
Context {F : Type} `{Float F}.
Variable config : Config.
Import RAGService ChatRecord.

Lemma sameLogs_refl (w : World F) :
  RedisClient.fallbackMode (redisClient w) = true -> sameLogs w w.
Proof. intros Hf. repeat split. exact Hf. Qed.

Lemma keepsLogs_read key now : keepsLogs (F:=F) (RedisClient.readInMemory key now).
Proof.
  intros rc r Hf.
  unfold RedisClient.readInMemory, bind, RedisClient.getSelf, ret,
    RedisClient.update. cbn [fst snd].
  destruct (RedisClient.inMemoryStore rc !! key) as [stored|];
    [|eexists _, _; split; [reflexivity|split; [exact Hf|reflexivity]]].
  destruct (RedisClient.expires stored <? now);
    eexists _, _; (split; [reflexivity|split; [exact Hf|reflexivity]]).
Qed.

Lemma keepsLogs_getCached query now :
  keepsLogs (F:=F) (RedisClient.getCachedQueryResult query now).
Proof.
  intros rc r Hf. rewrite ClientMore.getCachedQueryResult_fallback by exact Hf.
  apply keepsLogs_read, Hf.
Qed.

Lemma keepsLogs_cache query (v : StoreData F) ttl now :
  keepsLogs (RedisClient.cacheQueryResult query v ttl now).
Proof.
  intros rc r Hf. rewrite ClientMore.cacheQueryResult_fallback by exact Hf.
  eexists _, _. split; [reflexivity|]. split; [exact Hf|reflexivity].
Qed.

Lemma keepsLogs_history sessionId limit now :
  keepsLogs (F:=F) (RedisClient.getChatHistory sessionId limit now).
Proof.
  intros rc r Hf. unfold RedisClient.getChatHistory.
  rewrite RedisClientFacts.dispatch_fallback by exact Hf.
  eexists _, _. split; [reflexivity|]. split; [exact Hf|reflexivity].
Qed.

(** Lifted to the world, such a computation returns and keeps the logs. *)
Lemma liftRedis_keepsLogs {A} (m : M (RedisClient.St F) A) (w0 w1 : World F) :
  keepsLogs m -> sameLogs w0 w1 ->
  exists a w2, liftRedis m w1 = (Ok a, w2) /\ sameLogs w0 w2.
Proof.
  intros Hm (Hf & Hl & Hr).
  destruct (Hm (redisClient w1) (redis w1) Hf) as (a & rc' & Heq & Hf' & Hl').
  unfold liftRedis. rewrite Heq. eexists _, _. split; [reflexivity|].
  repeat split; cbn; congruence.
Qed.

Lemma liftVector_sameLogs {A} (m : M (VectorStore.St F) A) (w0 w1 : World F) :
  sameLogs w0 w1 -> sameLogs w0 (snd (liftVector m w1)).
Proof.
  intros Hs. unfold liftVector.
  destruct (m (vectorStore w1, qdrant w1)) as [res [vs q]]. exact Hs.
Qed.

Lemma retrieve_sameLogs query (queryEmbedding : list F) maxResults now
    (w0 w1 : World F) :
  sameLogs w0 w1 ->
  sameLogs w0 (snd (retrieve query queryEmbedding maxResults now w1)).
Proof.
  intros Hs. unfold retrieve.
  destruct (isRecentNewsQuery query); [|apply liftVector_sameLogs, Hs].
  unfold tryCatch.
  pose proof (liftVector_sameLogs
                (VectorStore.searchSimilar queryEmbedding (maxResults * 2)
                   (Some (recentFilter now))) w0 w1 Hs) as H1.
  destruct (liftVector _ w1) as [[a|e] w2]; [exact H1|].
  apply liftVector_sameLogs, H1.
Qed.

(** The two [addMessage] calls that close an exchange. *)
Lemma exchange_recorded sessionId query (reply : Message F) now (w0 w1 : World F) :
  0 < chatHistoryLimit config ->
  sameLogs w0 w1 ->
  exists w2 w3,
    liftRedis (RedisClient.addMessage config sessionId
                 (userMessage query now) now) w1 = (Ok tt, w2)
    /\ liftRedis (RedisClient.addMessage config sessionId reply now) w2
       = (Ok tt, w3)
    /\ recorded config w0 w3 sessionId query now (stamp reply now).
Proof.
  intros HN (Hf & Hl & Hr). unfold liftRedis.
  rewrite (ChatLogContent.addMessage_inProcess config) by assumption.
  eexists _, _. split; [reflexivity|].
  cbn [redisClient redis vectorStore qdrant].
  rewrite (ChatLogContent.addMessage_inProcess config) by assumption.
  split; [reflexivity|]. unfold recorded. cbn [redisClient redis].
  split; [|split; [exact Hr|exact Hf]].
  unfold ChatLog.logOf at 1.
  cbn [RedisClient.inMemoryLists RedisClient.setInMemoryLists].
  rewrite lookup_insert_eq. cbn [default from_option id].
  unfold ChatLog.logOf at 1.
  cbn [RedisClient.inMemoryLists RedisClient.setInMemoryLists].
  rewrite lookup_insert_eq. cbn [default from_option id].
  rewrite ChatLogContent.take_cons_take.
  unfold ChatLog.logOf. rewrite Hl. reflexivity.
Qed.

(** How the [try] block of [processQuery] can end. *)
Lemma pipeline_outcome env query sessionId options now (w : World F) res w' :
  0 < chatHistoryLimit config ->
  RedisClient.fallbackMode (redisClient w) = true ->
  pipeline config env query sessionId options now w = (res, w') ->
  match res with
  | Ok (Cached _ _) => True
  | Ok (Computed r) =>
      error r = None
      /\ exists reply,
           recorded config w w' sessionId query now reply
           /\ role reply = "assistant" /\ content reply = response r
           /\ timestamp reply = now /\ msg_error reply = false
  | Throw _ => sameLogs w w'
  end.
Proof.
  intros HN Hf. pose proof (sameLogs_refl w Hf) as Hs0.
  unfold pipeline. unfold bind at 1.
  assert (Hstep1 : exists cachedResult w1,
            (if useCache options
             then liftRedis (RedisClient.getCachedQueryResult query now)
             else ret None) w = (Ok cachedResult, w1) /\ sameLogs w w1).
  { destruct (useCache options).
    - apply liftRedis_keepsLogs; [apply keepsLogs_getCached|exact Hs0].
    - eexists _, _. split; [reflexivity|exact Hs0]. }
  destruct Hstep1 as (cachedResult & w1 & -> & Hs1).
  destruct cachedResult as [c|]; [intros [= <- <-]; exact I|].
  unfold bind at 1, liftResult.
  destruct (EmbeddingService.generateEmbedding _ _ _ query)
    as [queryEmbedding|e]; [|intros [= <- <-]; exact Hs1].
  unfold bind at 1.
  pose proof (retrieve_sameLogs query queryEmbedding (maxResults options) now
                w w1 Hs1) as Hs2.
  destruct (retrieve query queryEmbedding (maxResults options) now w1)
    as [[searchResults|e] w2]; cbn [snd] in Hs2;
    [|intros [= <- <-]; exact Hs2].
  unfold respond. unfold bind at 1.
  assert (Hstep4 : exists history w3,
            (if includeHistory options
             then liftRedis (RedisClient.getChatHistory sessionId 10 now)
             else ret []) w2 = (Ok history, w3) /\ sameLogs w w3).
  { destruct (includeHistory options).
    - apply liftRedis_keepsLogs; [apply keepsLogs_history|exact Hs2].
    - eexists _, _. split; [reflexivity|exact Hs2]. }
  destruct Hstep4 as (history & w3 & -> & Hs3).
  unfold bind at 1, liftResult.
  destruct (GeminiService.generateResponse _ _ _ query _ history)
    as [aiResponse|e]; [|intros [= <- <-]; exact Hs3].
  cbv zeta. unfold bind at 1.
  set (response := mkResponse query _ _ _ _ sessionId now false _ None).
  assert (Hstep6 : exists w4,
            when (useCache options
                  && negb (String.eqb (GeminiService.ai_response aiResponse) ""))
                 (liftRedis (RedisClient.cacheQueryResult query (DResult response)
                               RedisClient.defaultCacheTtl now)) w3
              = (Ok tt, w4) /\ sameLogs w w4).
  { unfold when. destruct (_ && _).
    - destruct (liftRedis_keepsLogs
                  (RedisClient.cacheQueryResult query (DResult response)
                     RedisClient.defaultCacheTtl now) w w3
                  (keepsLogs_cache _ _ _ _) Hs3) as ([] & w4 & Heq & Hs4).
      eauto.
    - eexists. split; [reflexivity|exact Hs3]. }
  destruct Hstep6 as (w4 & -> & Hs4).
  set (reply := mkMessage "assistant" _ now _ _ false).
  destruct (exchange_recorded sessionId query reply now w w4 HN Hs4)
    as (w5 & w6 & E1 & E2 & Hrec).
  unfold bind. rewrite E1, E2. unfold ret. intros [= <- <-].
  split; [reflexivity|]. exists (stamp reply now).
  split; [exact Hrec|]. repeat split.
Qed.

End WithFloat.
End ChatRecordProps.

Module ChatRecordExtras.
Import QNum PipelineExamples.
Import RAGService.

(** X26.  A query that is answered without cache hit is recorded in the
    chat history, the failed ones included.  When the key-value client is
    in fallback mode and [processQuery] returns a response that does not
    come from the cache, the in-process chat log of the session is the
    log it was with two messages put in front and cut to the history
    limit: the user's query, and then the reply, a message of role
    'assistant' with the text of the response, marked as an error
    exactly when the response carries an error.  Redis is not touched
    and the client stays in fallback mode. *)
Theorem processQuery_records_exchange {F : Type} `{Float F} (config : Config)
    (env : Env F) (query sessionId : string) (options : OptionsArg F) (now : Z)
    (w w' : World F) (r : Response F) :
  0 < chatHistoryLimit config ->
  RedisClient.fallbackMode (redisClient w) = true ->
  processQuery config true env query sessionId options now w
    = (Ok (Computed r), w') ->
  exists reply,
    ChatLog.logOf (redisClient w') sessionId
      = take (Z.to_nat (chatHistoryLimit config))
             (reply :: userMessage query now
                :: ChatLog.logOf (redisClient w) sessionId)
    /\ role reply = "assistant"
    /\ content reply = response r
    /\ timestamp reply = now
    /\ msg_error reply = (if error r then true else false)
    /\ redis w' = redis w
    /\ RedisClient.fallbackMode (redisClient w') = true.
Proof.
  intros HN Hf. unfold processQuery. cbn [negb]. unfold bind, liftResult.
  destruct (destructure config options) as [constants|e]; [|discriminate].
  unfold tryCatch.
  destruct (pipeline config env query sessionId constants now w) as [res w1] eqn:Ep.
  apply (ChatRecordProps.pipeline_outcome config) in Ep; [|exact HN|exact Hf].
  destruct res as [[c t|r0]|e].
  - discriminate.
  - intros [= <- <-]. destruct Ep as (Herr & reply & (Hlog & Hr & Hf') & H1 & H2 & H3 & H4).
    exists reply. rewrite Herr. repeat split; assumption.
  - unfold recover, bind, tryCatch.
    set (reply := mkMessage "assistant" _ now None None true).
    destruct (ChatRecordProps.exchange_recorded config sessionId query reply now
                w w1 HN Ep) as (w2 & w3 & E1 & E2 & (Hlog & Hr & Hf')).
    rewrite E1, E2. unfold ret. intros [= <- <-].
    exists (stamp reply now). repeat split; assumption.
Qed.

Lemma processQuery_records_exchange_witness :
  0 < chatHistoryLimit defaultConfig
  /\ RedisClient.fallbackMode (redisClient oneHitWorld) = true
  /\ exists r w' reply,
       processQuery defaultConfig true localEnv "What happened?" "session-1"
         OptionsOmitted 1000 oneHitWorld
         = (Ok (Computed r), w')
       /\ ChatLog.logOf (redisClient w') "session-1"
          = [reply; userMessage "What happened?" 1000]
       /\ content reply = response r.
Proof.
  split; [reflexivity|]. split; [reflexivity|].
  destruct (processQuery defaultConfig true localEnv "What happened?" "session-1"
              OptionsOmitted 1000 oneHitWorld)
    as [[[c t|r]|e] w'] eqn:Eq; try (vm_compute in Eq; discriminate Eq).
  destruct (processQuery_records_exchange defaultConfig localEnv "What happened?"
              "session-1" OptionsOmitted 1000 oneHitWorld w' r
              eq_refl eq_refl Eq) as (reply & Hlog & _ & Hcontent & _).
  exists r, w', reply. split; [reflexivity|]. split; [exact Hlog|exact Hcontent].
Defined.

End ChatRecordExtras.

Module MoreChunkerExtras.
Import Chunker.

(** X27.  [createTextChunks] returns exactly when the overlap is not
    positive, and what it returns then is cut from the first window
    only: at most one chunk, with index 0 and starting at position 0.
    With a positive overlap it returns for no article and no amount of
    fuel. *)
Theorem createTextChunks_returns_iff article maxChunkSize overlap :
  ((exists fuel chunks,
      createTextChunks fuel article maxChunkSize overlap = Some chunks)
   <-> overlap <= 0)
  /\ (forall fuel chunks,
        createTextChunks fuel article maxChunkSize overlap = Some chunks ->
        (length chunks <= 1)%nat
        /\ forall chunk, In chunk chunks ->
             chunk_index chunk = 0%nat /\ chunk_start chunk = Some 0).
Proof.
  assert (Hone : overlap <= 0 -> forall fuel,
            exists chunks,
              createTextChunks (S fuel) article maxChunkSize overlap = Some chunks
              /\ (length chunks <= 1)%nat
              /\ forall chunk, In chunk chunks ->
                   chunk_index chunk = 0%nat /\ chunk_start chunk = Some 0).
  { intros Hov fuel. unfold createTextChunks. cbn [chunkLoop].
    pose proof (ChunkerFacts.fullText_nonempty article) as Hlen.
    apply Z.ltb_lt in Hlen. rewrite Hlen.
    set (chunkEnd := chunkEndOf (fullTextOf article) maxChunkSize 0).
    destruct (Z.leb_spec chunkEnd (chunkEnd - overlap)); [|lia].
    eexists. split; [reflexivity|].
    destruct (50 <? _); cbn [app length]; split; try lia.
    - intros chunk [<-|[]]. split; reflexivity.
    - intros chunk []. }
  assert (Hneg : forall fuel chunks,
            createTextChunks fuel article maxChunkSize overlap = Some chunks ->
            overlap <= 0).
  { intros fuel chunks Hr. destruct (Z.leb_spec overlap 0) as [|Hpos]; [assumption|].
    rewrite (ChunkerFacts.createTextChunks_diverges article maxChunkSize overlap
               fuel Hpos) in Hr. discriminate. }
  split; [split|].
  - intros (fuel & chunks & Hr). exact (Hneg fuel chunks Hr).
  - intros Hov. destruct (Hone Hov 0%nat) as (chunks & Hr & _). eauto.
  - intros fuel chunks Hr. pose proof (Hneg fuel chunks Hr) as Hov.
    destruct fuel as [|fuel]; [discriminate|].
    destruct (Hone Hov fuel) as (chunks' & Hr' & Hprops).
    rewrite Hr in Hr'. injection Hr' as <-. exact Hprops.
Qed.

End MoreChunkerExtras.

Module HistoryExtras.
Import QNum ClientExamples.

(** X28.  [getChatHistory] of the query service never throws, in any
    state of the client and of Redis.  It returns the empty list for an
    empty session id, without reading anything; for a positive limit it
    returns at most [limit] messages; and no message it returns has an
    empty role or the error mark: the mark that [processQuery] puts on
    the reply to a failed query does not come back. *)
Theorem rag_getChatHistory_returns {F : Type} (sessionId : string)
    (limit now : Z) (st : RedisClient.St F) :
  exists history st',
    RAGHistory.getChatHistory sessionId limit now st = (Ok history, st')
    /\ (sessionId = "" -> history = [] /\ st' = st)
    /\ (0 < limit -> Z.of_nat (length history) <= limit)
    /\ Forall (fun msg => role msg <> "" /\ msg_error msg = false) history.
Proof.
  unfold RAGHistory.getChatHistory, tryCatch.
  destruct (String.eqb_spec sessionId "") as [->|Hid].
  { eexists _, _. split; [reflexivity|]. split; [auto|].
    split; [simpl; lia|constructor]. }
  unfold bind.
  destruct (PipelineFacts.getChatHistory_returns defaultConfig sessionId limit
              now st)
    as (history & st' & Heq).
  rewrite Heq. unfold ret. eexists _, _. split; [reflexivity|].
  split; [contradiction|]. split.
  - intros Hl.
    destruct (RedisMore.getChatHistory_length sessionId limit now st Hl)
      as (h & st2 & Heq2 & Hlen).
    rewrite Heq in Heq2. injection Heq2 as <- <-.
    rewrite length_map. exact Hlen.
  - apply Forall_forall. intros msg Hin.
    apply list_elem_of_fmap in Hin as (m0 & -> & _).
    unfold RAGHistory.normalize. cbn [role msg_error]. split; [|reflexivity].
    destruct (String.eqb_spec (role m0) ""); [discriminate|assumption].
Qed.

End HistoryExtras.

Module SessionProps.
Section WithFloat.
Context {F : Type} `{Float F}.
Import RAGService RAGSessions.

Lemma updateSessionActivity_returns sessionId now (st : RedisClient.St F) :
  exists st', updateSessionActivity sessionId now st = (Ok tt, st').
Proof.
  unfold updateSessionActivity.
  destruct (String.eqb sessionId ""); [eexists; reflexivity|].
  unfold tryCatch.
  destruct (bind _ _ st) as [[[]|e] st']; eexists; reflexivity.
Qed.

Lemma processQuery_returns (config : Config) (env : Env F) query sessionId
    (options : OptionsArg F) now (w : World F) :
  options <> OptionsNull ->
  exists result w',
    processQuery config true env query sessionId options now w = (Ok result, w').
Proof.
  intros Hnull.
  destruct (PipelineFacts.destructure_returns config options Hnull)
    as [constants Hd].
  rewrite (PipelineFacts.processQuery_destructured config env query sessionId
             options constants now w Hd).
  unfold tryCatch.
  destruct (pipeline config env query sessionId constants now w)
    as [[result|message] w1]; [eauto|].
  destruct (PipelineFacts.recover_returns config query sessionId now message w1)
    as (w' & Hr).
  eauto.
Qed.

Lemma len_zero s : Js.len s = 0 <-> s = "".
Proof.
  unfold Js.len. destruct s; simpl; split; intros Hs;
    try reflexivity; try discriminate; lia.
Qed.

End WithFloat.
End SessionProps.

Module SessionExtras.
Import QNum PipelineExamples ClientExamples.
Import RAGService RAGSessions ChatRoute.

(** X29.  [updateSessionActivity] never throws.  In fallback mode it
    keeps the session alive for a week: whatever the session was, after
    the call [getSession] returns a session until [now] plus one week,
    with [lastActivity] set to the time of the call; its other fields
    are those of the session that [getSession] returned before the call,
    or, when there was none, just the session id.  Redis is not
    touched. *)
Theorem updateSessionActivity_keeps_session_alive {F : Type}
    (sessionId : string) (now now' : Z) (rc : RedisClient.t F)
    (r : Redis.t F) :
  (forall st : RedisClient.St F,
     exists st', updateSessionActivity sessionId now st = (Ok tt, st'))
  /\ (sessionId <> "" ->
      RedisClient.fallbackMode rc = true ->
      now' <= now + 604800 * 1000 ->
      let before := fst (RedisClient.getSession sessionId now (rc, r)) in
      let st1 := snd (updateSessionActivity sessionId now (rc, r)) in
      exists session,
        fst (RedisClient.getSession sessionId now' st1)
          = Ok (Some (DSession session))
        /\ session !! "lastActivity" = Some (pretty now)
        /\ (forall d,
              before = Ok (Some (DSession d)) ->
              session = <["lastActivity" := pretty now]> d)
        /\ (before = Ok None ->
            session = {[ "id" := sessionId; "lastActivity" := pretty now ]})
        /\ snd st1 = r).
Proof.
  split; [intros st; apply SessionProps.updateSessionActivity_returns|].
  intros Hid Hf Hnow before st1. subst before st1.
  unfold updateSessionActivity.
  apply String.eqb_neq in Hid. rewrite Hid.
  unfold tryCatch, bind.
  rewrite ClientMore.getSession_fallback by exact Hf.
  destruct (RedisClientFacts.inProcess_read (RedisClient.sessionKey sessionId)
              now rc r) as (found & rc1 & Heq & Hf1 & _).
  rewrite Heq. cbv zeta.
  rewrite ClientMore.setSession_fallback by congruence.
  cbn [fst snd].
  rewrite ClientMore.getSession_fallback by (cbn; congruence).
  rewrite ClientMore.readInMemory_value.
  cbn [RedisClient.inMemoryStore RedisClient.setInMemoryStore].
  rewrite lookup_insert_eq. cbn [RedisClient.expires RedisClient.data].
  change (week * 1000) with (604800 * 1000).
  destruct (Z.ltb_spec (now + 604800 * 1000) now'); [lia|].
  eexists. split; [reflexivity|]. split; [apply lookup_insert_eq|].
  split; [|split; [|reflexivity]].
  - intros d [= ->]. reflexivity.
  - intros [= ->]. unfold SessionData in *. apply insert_id.
    rewrite lookup_insert_ne by discriminate. apply lookup_singleton_eq.
Qed.

Lemma updateSessionActivity_keeps_session_alive_witness :
  "session-1" <> ""
  /\ RedisClient.fallbackMode erroredClient = true
  /\ exists session,
       fst (RedisClient.getSession "session-1" 604801000
              (snd (updateSessionActivity "session-1" 1000
                      (erroredClient, idleRedis))))
         = Ok (Some (DSession session))
       /\ session !! "lastActivity" = Some "1000".
Proof.
  split; [discriminate|]. split; [reflexivity|].
  destruct (proj2 (updateSessionActivity_keeps_session_alive "session-1" 1000
                     604801000 erroredClient idleRedis)
              ltac:(discriminate) eq_refl ltac:(lia))
    as (session & Hget & Hla & _).
  exists session. split; [exact Hget|exact Hla].
Defined.


End SessionExtras.
